(** * Academic jury management: eligibility and composition engine

    A shallow embedding of the rule evaluator and the allocator of the
    repository's [jury-utils] module (date arithmetic, participation
    history, streak counter, availability evaluator, sorting, jury
    composition and workload statistics), followed by the properties of
    these functions.  In this copy of the repository the module is part of
    [src/app/(dashboard)/layout.tsx], lines 371 to 666, and the types are
    part of [src/examples/jury-system-example.ts], lines 753 to 898.

    Conventions of the embedding.
    - A JavaScript number that the code may compute as [NaN] is a value of
      [number A]: [NaN] or [Num a].  Time values, day counts and the fields
      of the requirements are integers ([Z]); distances and ratings are
      finite rationals ([Q]), so a distance or a rating that is [NaN] is
      outside the model.  Integer arithmetic is exact, which is what IEEE
      doubles give below 2^53.
    - [new Date(s).getTime()], [new Date(s).getFullYear()] and
      [String.prototype.localeCompare] belong to the JavaScript runtime, not
      to the repository: they are variables of the section [Engine].  A
      concrete reading of date-only ISO strings, [IsoDate], instantiates them
      in the scenarios at the end of the file.
    - [Array.prototype.sort] belongs to the runtime too: it is the variable
      [Array_sort] of the section, and the properties of the section use
      what the language requires of every engine ([conforming]).  When a
      date does not parse, the comparators of the code return [NaN]; the
      language then leaves the order of the result to the engine, and the
      properties of the section say nothing of that order.  The scenarios
      run the sort of the V8 engine on short arrays, [V8.Array_sort].
    - A title is one of the two values of the type [ProfessorTitle]; the
      Cyrillic literals of the source are the constructors [Profesor] and
      [Docent]. *)

From Stdlib Require Import ZArith QArith Qabs Qround List Bool String Ascii Lia.
From Stdlib Require Import Permutation Sorted DecimalString Lqa.
Import ListNotations.

Local Open Scope string_scope.
Local Open Scope list_scope.
Local Open Scope Z_scope.

(** ** JavaScript numbers *)

Inductive number (A : Type) : Type :=
| NaN
| Num (a : A).

Arguments NaN {A}.
Arguments Num {A} a.

Module Number.

(** [x - y] *)
Definition sub (x y : number Z) : number Z :=
  match x, y with
  | Num a, Num b => Num (a - b)
  | _, _ => NaN
  end.

(** [x + y] *)
Definition add (x y : number Z) : number Z :=
  match x, y with
  | Num a, Num b => Num (a + b)
  | _, _ => NaN
  end.

(** [Math.abs(x)] *)
Definition Math_abs (x : number Z) : number Z :=
  match x with
  | Num a => Num (Z.abs a)
  | NaN => NaN
  end.

(** [Math.ceil(x / d)] for a positive integer constant [d]. *)
Definition Math_ceil_div (x : number Z) (d : Z) : number Z :=
  match x with
  | Num a => Num (- ((- a) / d))
  | NaN => NaN
  end.

(** [x < y]: every comparison with [NaN] is false. *)
Definition lt (x : number Z) (y : Z) : bool :=
  match x with
  | Num a => a <? y
  | NaN => false
  end.

(** [x > y] *)
Definition gt (x : number Z) (y : Z) : bool :=
  match x with
  | Num a => y <? a
  | NaN => false
  end.

(** [x === y] *)
Definition strict_eq (x : number Z) (y : Z) : bool :=
  match x with
  | Num a => a =? y
  | NaN => false
  end.

(** [x / n] for a positive integer [n]. *)
Definition div (x : number Z) (n : Z) : number Q :=
  match x with
  | Num a => Num (inject_Z a / inject_Z n)%Q
  | NaN => NaN
  end.

(** Unary minus on a comparator result. *)
Definition neg (x : number Q) : number Q :=
  match x with
  | Num q => Num (- q)%Q
  | NaN => NaN
  end.

(** [x < 0] on a comparator result. *)
Definition negative (x : number Q) : bool :=
  match x with
  | Num q => match (q ?= 0)%Q with Lt => true | _ => false end
  | NaN => false
  end.

(** Embedding of an integer result into a comparator result. *)
Definition of_int (x : number Z) : number Q :=
  match x with
  | Num a => Num (inject_Z a)
  | NaN => NaN
  end.

(** Decimal text of an integer, as a template literal prints it. *)
Definition string_of_Z (z : Z) : string :=
  NilZero.string_of_int (Z.to_int z).

(** [`${x}`] *)
Definition toString (x : number Z) : string :=
  match x with
  | Num a => string_of_Z a
  | NaN => "NaN"
  end.

End Number.

(** ** Date-only ISO strings

    [new Date("YYYY-MM-DD")] is midnight UTC of that calendar day.  Strings
    of any other shape, and days that do not exist, are read as invalid
    dates here. *)

Module IsoDate.

Definition digit (c : ascii) : option Z :=
  let n := Z.of_nat (nat_of_ascii c) in
  if (48 <=? n) && (n <=? 57) then Some (n - 48) else None.

Fixpoint digits (acc : Z) (cs : list ascii) : option Z :=
  match cs with
  | [] => Some acc
  | c :: cs' =>
      match digit c with
      | Some d => digits (10 * acc + d) cs'
      | None => None
      end
  end.

Definition is_leap (y : Z) : bool :=
  ((y mod 4 =? 0) && negb (y mod 100 =? 0)) || (y mod 400 =? 0).

Definition days_in_month (y m : Z) : Z :=
  if m =? 2 then (if is_leap y then 29 else 28)
  else if (m =? 4) || (m =? 6) || (m =? 9) || (m =? 11) then 30
  else 31.

(** Days from 1970-01-01 to the civil date [y-m-d]. *)
Definition days_from_civil (y m d : Z) : Z :=
  let y' := if m <=? 2 then y - 1 else y in
  let era := y' / 400 in
  let yoe := y' - era * 400 in
  let mp := (m + 9) mod 12 in
  let doy := (153 * mp + 2) / 5 + d - 1 in
  let doe := yoe * 365 + yoe / 4 - yoe / 100 + doy in
  era * 146097 + doe - 719468.

Definition fields (s : string) : option (Z * Z * Z) :=
  match list_ascii_of_string s with
  | [y1; y2; y3; y4; "-"%char; m1; m2; "-"%char; d1; d2] =>
      match digits 0 [y1; y2; y3; y4], digits 0 [m1; m2], digits 0 [d1; d2] with
      | Some y, Some m, Some d =>
          if (1 <=? m) && (m <=? 12) && (1 <=? d) && (d <=? days_in_month y m)
          then Some (y, m, d) else None
      | _, _, _ => None
      end
  | _ => None
  end.

Definition ms_per_day : Z := 1000 * 60 * 60 * 24.

Definition getTime (s : string) : number Z :=
  match fields s with
  | Some (y, m, d) => Num (days_from_civil y m d * ms_per_day)
  | None => NaN
  end.

(** The calendar year, for a runtime whose local time zone is UTC. *)
Definition getFullYear (s : string) : number Z :=
  match fields s with
  | Some (y, _, _) => Num y
  | None => NaN
  end.

(** Code-unit order, standing for [localeCompare] in the scenarios. *)
Definition localeCompare (a b : string) : Z :=
  match String.compare a b with
  | Lt => -1
  | Eq => 0
  | Gt => 1
  end.

End IsoDate.

(** ** Trimming and integer reading, on ASCII text

    [String.prototype.trim] and [parseInt] belong to the runtime as well.
    This is their reading on ASCII text without a hexadecimal prefix; it
    instantiates them in the scenarios. *)

Module AsciiText.

Definition is_space (c : ascii) : bool :=
  let n := nat_of_ascii c in
  ((9 <=? n) && (n <=? 13))%nat || (n =? 32)%nat.

Fixpoint drop_spaces (cs : list ascii) : list ascii :=
  match cs with
  | c :: rest => if is_space c then drop_spaces rest else cs
  | [] => []
  end.

Definition trim (s : string) : string :=
  string_of_list_ascii
    (rev (drop_spaces (rev (drop_spaces (list_ascii_of_string s))))).

(** The value of the longest prefix of decimal digits, if there is one. *)
Fixpoint digits_prefix (cs : list ascii) (acc : option Z) : option Z :=
  match cs with
  | c :: rest =>
      match IsoDate.digit c with
      | Some d =>
          digits_prefix rest
            (Some (10 * match acc with Some a => a | None => 0 end + d))
      | None => acc
      end
  | [] => acc
  end.

Definition parseInt (s : string) : number Z :=
  let cs := drop_spaces (list_ascii_of_string s) in
  let (negative, body) :=
    match cs with
    | "-"%char :: rest => (true, rest)
    | "+"%char :: rest => (false, rest)
    | _ => (false, cs)
    end in
  match digits_prefix body None with
  | Some n => Num (if negative then - n else n)
  | None => NaN
  end.

End AsciiText.

(** ** Arrays *)

(** *** [Array.prototype.sort]

    The sort belongs to the runtime.  The language fixes what it returns
    for a consistent comparator: the array in the order of the comparator,
    elements that compare equal in the order they had (ECMAScript,
    [Array.prototype.sort]).  For any other comparator the result is the
    same elements in an order that the engine chooses. *)

(** The result of a comparator call as the sort reads it: [NaN] counts as
    [+0] (the abstract operation [SortCompare] of the language). *)
Definition SortCompare {A : Type} (comparefn : A -> A -> number Q) (x y : A)
  : Q :=
  match comparefn x y with
  | Num v => v
  | NaN => 0%Q
  end.

(** The sign of that result: [Lt] is [a <CF b], [Eq] is [a =CF b] and [Gt]
    is [a >CF b]. *)
Definition order {A : Type} (comparefn : A -> A -> number Q) (a b : A)
  : comparison :=
  (SortCompare comparefn a b ?= 0)%Q.

(** [a =CF b] *)
Definition tied {A : Type} (comparefn : A -> A -> number Q) (a b : A)
  : bool :=
  match order comparefn a b with
  | Eq => true
  | _ => false
  end.

(** A consistent comparator for the values of a set [S]. *)
Record consistent {A : Type} (comparefn : A -> A -> number Q)
  (S : A -> Prop) : Prop := {
  consistent_refl :
    forall a, S a -> order comparefn a a = Eq;
  consistent_sym :
    forall a b, S a -> S b ->
      order comparefn a b = Eq -> order comparefn b a = Eq;
  consistent_lt_gt :
    forall a b, S a -> S b ->
      order comparefn a b = Lt -> order comparefn b a = Gt;
  consistent_eq_trans :
    forall a b c, S a -> S b -> S c ->
      order comparefn a b = Eq -> order comparefn b c = Eq ->
      order comparefn a c = Eq;
  consistent_lt_trans :
    forall a b c, S a -> S b -> S c ->
      order comparefn a b = Lt -> order comparefn b c = Lt ->
      order comparefn a c = Lt;
  consistent_gt_trans :
    forall a b c, S a -> S b -> S c ->
      order comparefn a b = Gt -> order comparefn b c = Gt ->
      order comparefn a c = Gt
}.

(** No element stands after one that the comparator puts strictly after
    it. *)
Definition in_sort_order {A : Type} (comparefn : A -> A -> number Q)
  (l : list A) : Prop :=
  StronglySorted (fun a b => order comparefn b a <> Lt) l.

(** What the language requires of [[...l].sort(comparefn)]: the result
    holds the elements of [l], each as often as [l] does; and when the
    comparator is consistent for them, the result is in the order of the
    comparator and the elements that compare equal keep the order they
    have in [l]. *)
Definition conforming
  (sort : forall A : Type, (A -> A -> number Q) -> list A -> list A)
  : Prop :=
  forall (A : Type) (comparefn : A -> A -> number Q) (l : list A),
    Permutation (sort A comparefn l) l /\
    (consistent comparefn (fun x => In x l) ->
     in_sort_order comparefn (sort A comparefn l) /\
     forall x, In x l ->
       filter (tied comparefn x) (sort A comparefn l)
       = filter (tied comparefn x) l).

(** Insertion of [x] in front of an already ordered array: [x] moves past
    the elements that the comparator puts strictly before it, and no
    further. *)
Fixpoint insert {A : Type} (before : A -> A -> bool) (x : A) (sorted : list A)
  : list A :=
  match sorted with
  | [] => [x]
  | y :: rest => if before y x then y :: insert before x rest else x :: sorted
  end.

(** The stable arrangement of an array by straight insertion.  It is the
    array that every conforming sort returns for a consistent comparator
    (lemma [Array_sort_stable_sort]), and serves to compute with it. *)
Definition stable_sort {A : Type} (comparefn : A -> A -> number Q)
  (l : list A) : list A :=
  fold_right (insert (fun y x => Number.negative (comparefn y x))) [] l.

(** *** The sort of the V8 engine on a short array

    Node.js and Chrome sort with V8.  On an array of fewer than 64
    elements its sort ([third_party/v8/builtins/array-sort.tq]) finds the
    run that starts the array and inserts the other elements into it, one
    by one, at the place that a binary search gives.  This instantiates the
    sort in the scenarios, all of which are short. *)

Module V8.

Section Sorting.

Context {A : Type}.

Variable comparefn : A -> A -> number Q.

(** [order < 0], for [order] the result of the comparator call on [x] and
    [y]. *)
Definition before (x y : A) : bool := Number.negative (comparefn x y).

(** The loop of [CountAndMakeRun]: the run goes on while each element
    compares with the previous one as the first pair does. *)
Fixpoint run_from (descending : bool) (previous : A) (l : list A)
  : list A * list A :=
  match l with
  | [] => ([], [])
  | current :: rest =>
      if Bool.eqb (before current previous) descending then
        let (run, others) := run_from descending current rest in
        (current :: run, others)
      else ([], l)
  end.

(** [CountAndMakeRun]: the run at the start of the array, reversed in
    place when it is strictly descending, and the elements after it. *)
Definition CountAndMakeRun (l : list A) : list A * list A :=
  match l with
  | first :: second :: rest =>
      let descending := before second first in
      let (run, others) := run_from descending second rest in
      let whole := first :: second :: run in
      (if descending then rev whole else whole, others)
  | _ => (l, [])
  end.

(** The binary search of [BinaryInsertionSort] for the place of [pivot] in
    [work], between the indices [left] and [right]. *)
Fixpoint search (fuel : nat) (pivot : A) (work : list A) (left right : nat)
  : nat :=
  match fuel with
  | O => left
  | S fuel' =>
      if (left <? right)%nat then
        let mid := (left + (right - left) / 2)%nat in
        match nth_error work mid with
        | Some element =>
            if before pivot element
            then search fuel' pivot work left mid
            else search fuel' pivot work (S mid) right
        | None => left
        end
      else left
  end.

(** One round of [BinaryInsertionSort]: [pivot] goes to the place found,
    and the elements from there on move up by one. *)
Definition insert_pivot (work : list A) (pivot : A) : list A :=
  let left := search (List.length work) pivot work 0 (List.length work) in
  firstn left work ++ pivot :: skipn left work.

Definition BinaryInsertionSort (run others : list A) : list A :=
  fold_left insert_pivot others run.

Definition Array_sort (l : list A) : list A :=
  let (run, others) := CountAndMakeRun l in
  BinaryInsertionSort run others.

End Sorting.

Arguments Array_sort : clear implicits.

End V8.

(** [l.slice(0, n)]: a negative [n] counts from the end of the array. *)
Definition Array_slice0 {A : Type} (l : list A) (n : Z) : list A :=
  let len := Z.of_nat (List.length l) in
  let final := if n <? 0 then Z.max (len + n) 0 else Z.min n len in
  firstn (Z.to_nat final) l.

(** [l.length] *)
Definition Array_length {A : Type} (l : list A) : Z := Z.of_nat (List.length l).

(** [l.reduce(f, init)] with the three-argument callback [f(acc, x, index)]. *)
Fixpoint reduce_from {A B : Type} (f : B -> A -> nat -> B) (l : list A)
  (index : nat) (acc : B) : B :=
  match l with
  | [] => acc
  | x :: rest => reduce_from f rest (S index) (f acc x index)
  end.

Definition Array_reduce {A B : Type} (f : B -> A -> nat -> B) (init : B)
  (l : list A) : B :=
  reduce_from f l 0%nat init.

(** ** Data model (the types of [types.ts]) *)

(** ["професор" | "доцент"] *)
Inductive ProfessorTitle : Type :=
| Profesor
| Docent.

(** ["доктор" | "доцент" | "ДН" | "професор"] *)
Inductive ProcedureType : Type :=
| ForDoktor
| ForDocent
| ForDN
| ForProfesor.

Record Professor : Type := {
  id : Z;
  title : ProfessorTitle;
  names : string;
  science : Q;
  university : string;
  km : Q;
  count : Z;
  preLastDate : option string;
  lastDate : option string
}.

(** The member slots hold a professor id or [null]. *)
Record Procedure : Type := {
  proc_id : Z;
  date : string;
  procedure : ProcedureType;
  m1 : option Z;
  m2 : option Z;
  m3 : option Z;
  m4 : option Z;
  m5 : option Z;
  m6 : option Z;
  m7 : option Z
}.

Record ProfessorAvailability : Type := {
  professor : Professor;
  isAvailable : bool;
  reason : option string;
  lastParticipationDate : option string;
  consecutiveCount : option Z
}.

Record JuryRequirements : Type := {
  professorCount : Z;
  associateProfessorCount : Z;
  maxConsecutiveParticipations : Z;
  minDaysBetweenParticipations : Z;
  maxDistanceForExternal : Z
}.

Record JuryComposition : Type := {
  professors : list Professor;
  associateProfessors : list Professor;
  externalMembers : list Professor;
  internalMembers : list Professor;
  allMembers : list Professor;
  errors : list string;
  warnings : list string
}.

Inductive ProfessorSortCriteria : Type :=
| distance
| lastParticipation
| participationCount
| scienceRating
| name.

Record ProfessorFilter : Type := {
  filter_minScienceRating : option Q;
  filter_maxScienceRating : option Q;
  filter_university : option string;
  filter_excludeIds : option (list Z);
  filter_maxDistance : option Q;
  filter_title : option ProfessorTitle
}.

(** The result of [calculateProfessorWorkload]. *)
Record Workload : Type := {
  totalParticipations : Z;
  participationsThisYear : Z;
  averageDaysBetweenParticipations : number Q;
  workload_lastParticipationDate : option string
}.

Definition DEFAULT_JURY_REQUIREMENTS : JuryRequirements :=
  {| professorCount := 3;
     associateProfessorCount := 2;
     maxConsecutiveParticipations := 3;
     minDaysBetweenParticipations := 30;
     maxDistanceForExternal := 100 |}.

Definition ProfessorTitle_eqb (a b : ProfessorTitle) : bool :=
  match a, b with
  | Profesor, Profesor | Docent, Docent => true
  | _, _ => false
  end.

(** [slot === id] for a slot that may be [null]. *)
Definition slot_is (slot : option Z) (i : Z) : bool :=
  match slot with
  | Some m => m =? i
  | None => false
  end.

(** Truthiness of a string: the empty string is falsy. *)
Definition truthy_string (s : string) : bool := negb (s =? "")%string.

(** How a JavaScript function call ends: it returns a value or throws. *)
Inductive DateError : Type :=
| InvalidDate.

Inductive completion (A : Type) : Type :=
| Returned (a : A)
| Thrown (e : DateError).

Arguments Returned {A} a.
Arguments Thrown {A} e.

(** [s] occurs in [r]. *)
Definition Contains (r s : string) : Prop :=
  exists before after : string, r = (before ++ s ++ after)%string.

(** Two professor records that differ at most in the lifetime counter
    [count]. *)
Definition same_except_count (a b : Professor) : Prop :=
  a.(id) = b.(id) /\ a.(title) = b.(title) /\ a.(names) = b.(names) /\
  a.(science) = b.(science) /\ a.(university) = b.(university) /\
  a.(km) = b.(km) /\ a.(preLastDate) = b.(preLastDate) /\
  a.(lastDate) = b.(lastDate).

(** The result of a parser: the rows with the errors and the warnings. *)
Record CsvParseResult (T : Type) : Type := {
  data : list T;
  csv_errors : list string;
  csv_warnings : list string
}.

Arguments data {T} _.
Arguments csv_errors {T} _.
Arguments csv_warnings {T} _.

(** ** Sample data (after [sampleProfessors] and [sampleProcedures], lines 18
    to 140 of [layout.tsx]; names transliterated) *)

Module Scenario.

Definition ivan : Professor :=
  {| id := 1; title := Profesor; names := "Ivan Petrov";
     science := 4.7; university := "Sofia University"; km := 0;
     count := 5; preLastDate := Some "2023-01-15";
     lastDate := Some "2023-06-20" |}.

Definition maria : Professor :=
  {| id := 2; title := Docent; names := "Maria Georgieva";
     science := 4.8; university := "Plovdiv University"; km := 120;
     count := 3; preLastDate := Some "2023-02-10";
     lastDate := Some "2023-05-15" |}.

Definition petar : Professor :=
  {| id := 3; title := Profesor; names := "Petar Stoyanov";
     science := 4.6; university := "Varna Free University"; km := 350;
     count := 7; preLastDate := Some "2023-01-20";
     lastDate := Some "2023-07-10" |}.

Definition anna : Professor :=
  {| id := 4; title := Docent; names := "Anna Dimitrova";
     science := 4.9; university := "Technical University Sofia"; km := 5;
     count := 2; preLastDate := Some "2023-03-05";
     lastDate := Some "2023-08-12" |}.

Definition georgi : Professor :=
  {| id := 5; title := Profesor; names := "Georgi Ivanov";
     science := 4.7; university := "UNWE"; km := 10;
     count := 4; preLastDate := Some "2023-02-28";
     lastDate := Some "2023-06-30" |}.

Definition sampleProfessors : list Professor :=
  [ivan; maria; petar; anna; georgi].

Definition procedure1 : Procedure :=
  {| proc_id := 1; date := "2023-12-15"; procedure := ForDoktor;
     m1 := Some 1; m2 := Some 2; m3 := Some 3; m4 := Some 4; m5 := Some 5;
     m6 := None; m7 := None |}.

Definition procedure2 : Procedure :=
  {| proc_id := 2; date := "2023-12-20"; procedure := ForDocent;
     m1 := Some 2; m2 := Some 3; m3 := Some 4; m4 := Some 5; m5 := Some 1;
     m6 := None; m7 := None |}.

Definition sampleProcedures : list Procedure := [procedure1; procedure2].

(** Two procedures of the summer on which [ivan] sits, 15 days apart, and
    one of December on which he does not. *)
Definition procedure3 : Procedure :=
  {| proc_id := 3; date := "2023-06-20"; procedure := ForDN;
     m1 := Some 1; m2 := Some 2; m3 := None; m4 := None; m5 := None;
     m6 := None; m7 := None |}.



(** A second procedure of 20 June on which [ivan] sits. *)
Definition procedure6 : Procedure :=
  {| proc_id := 6; date := "2023-06-20"; procedure := ForDocent;
     m1 := Some 4; m2 := Some 1; m3 := None; m4 := None; m5 := None;
     m6 := None; m7 := None |}.


(** Procedures with two of the same day, not in the order of their
    dates. *)
Definition sameDayProcedures : list Procedure :=
  [procedure2; procedure3; procedure1; procedure6].

(** [ivan] with another lifetime counter. *)
Definition ivan_recounted : Professor :=
  {| id := 1; title := Profesor; names := "Ivan Petrov";
     science := 4.7; university := "Sofia University"; km := 0;
     count := 99; preLastDate := Some "2023-01-15";
     lastDate := Some "2023-06-20" |}.

(** A professor who travels as far as [maria]. *)
Definition elena : Professor :=
  {| id := 6; title := Profesor; names := "Elena Nikolova";
     science := 4.8; university := "Plovdiv University"; km := 120;
     count := 6; preLastDate := None; lastDate := None |}.



(** Requirements that are looser than the default ones. *)
Definition relaxedRequirements : JuryRequirements :=
  {| professorCount := 3;
     associateProfessorCount := 2;
     maxConsecutiveParticipations := 5;
     minDaysBetweenParticipations := 10;
     maxDistanceForExternal := 100 |}.

(** A filter that excludes one professor and keeps the others. *)
Definition withoutIvan : ProfessorFilter :=
  {| filter_minScienceRating := None;
     filter_maxScienceRating := None;
     filter_university := Some "";
     filter_excludeIds := Some [1];
     filter_maxDistance := None;
     filter_title := None |}.

Definition line_break : string := String (ascii_of_nat 10) EmptyString.

(** The first rows of [exampleProceduresCsv] (lines 23 to 28 of
    [jury-system-example.ts]). *)
Definition exampleProceduresCsv : string :=
  "ID,Date,Procedure,M1,M2,M3,M4,M5,M6,M7" ++ line_break
  ++ "1,2023-06-20,доктор,1,2,3,4,5,null,null" ++ line_break
  ++ "2,2023-05-15,доцент,2,3,4,5,1,null,null" ++ line_break
  ++ "4,2023-08-12,ДН,4,5,1,2,3,null,null".

(** A content with a short row, a row without a number, a row of an
    unknown type, a blank line and a row whose date is no date. *)
Definition faultyProceduresCsv : string :=
  "ID,Date,Procedure,M1,M2,M3,M4,M5,M6,M7" ++ line_break
  ++ "1,2023-06-20,доктор,1,2" ++ line_break
  ++ "x,2023-05-15,доцент,2,3,4,5,1,null,null" ++ line_break
  ++ "3,2023-07-10,master,3,4,5,1,2,null,null" ++ line_break
  ++ "  " ++ line_break
  ++ "5,someday,доктор,5,1,2,3,4,6".

(** A row of nine columns. *)
Definition nineColumns : string := "1,2023-06-20,доктор,1,2,3,4,5,7".

(** A professors parser that finds nothing, to run the loader with. *)
Definition noProfessors (csvContent : string) : CsvParseResult Professor :=
  {| data := []; csv_errors := []; csv_warnings := [] |}.

End Scenario.

(** ** The engine *)

Section Engine.

Set Default Proof Using "Type".

(** [[...l].sort(comparefn)] *)
Variable Array_sort :
  forall A : Type, (A -> A -> number Q) -> list A -> list A.

(** The sort is the sort of an engine that conforms to the language. *)
Hypothesis Array_sort_conforming : conforming Array_sort.

Arguments Array_sort {A} _ _.

(** [new Date(s).getTime()]: the time value in milliseconds, [NaN] for an
    invalid date. *)
Variable getTime : string -> number Z.

(** [new Date(s).getFullYear()]: the year in the local time zone. *)
Variable getFullYear : string -> number Z.

(** [a.localeCompare(b)] *)
Variable localeCompare : string -> string -> Z.

(** [daysBetween], lines 382 to 387. *)
Definition daysBetween (date1 date2 : string) : number Z :=
  let d1 := getTime date1 in
  let d2 := getTime date2 in
  let diffTime := Number.Math_abs (Number.sub d2 d1) in
  Number.Math_ceil_div diffTime (1000 * 60 * 60 * 24).

(** The function has no [throw]: its call always returns. *)
Definition daysBetween_call (date1 date2 : string) : completion (number Z) :=
  Returned (daysBetween date1 date2).

(** The predicate of the two [filter] calls on the member slots. *)
Definition participates (p : Professor) (proc : Procedure) : bool :=
  slot_is proc.(m1) p.(id) || slot_is proc.(m2) p.(id) ||
  slot_is proc.(m3) p.(id) || slot_is proc.(m4) p.(id) ||
  slot_is proc.(m5) p.(id) || slot_is proc.(m6) p.(id) ||
  slot_is proc.(m7) p.(id).

(** [(a, b) => new Date(a.date).getTime() - new Date(b.date).getTime()] *)
Definition compareByDate (a b : Procedure) : number Q :=
  Number.of_int (Number.sub (getTime a.(date)) (getTime b.(date))).

(** [getProfessorParticipationHistory], lines 612 to 627. *)
Definition getProfessorParticipationHistory (p : Professor)
  (procedures : list Procedure) : list Procedure :=
  Array_sort compareByDate (filter (participates p) procedures).

(** The [for] loop of the streak counter, entered at index [i] with the
    running count: it compares the entries [i - 1] and [i] and goes down. *)
Fixpoint streak_loop (participations : list Procedure) (i : nat)
  (consecutiveCount : Z) : Z :=
  match i with
  | O => consecutiveCount
  | S i' =>
      match nth_error participations i', nth_error participations i with
      | Some previous, Some current =>
          let daysDiff := daysBetween previous.(date) current.(date) in
          if Number.gt daysDiff 30 then consecutiveCount
          else streak_loop participations i' (consecutiveCount + 1)
      | _, _ => consecutiveCount
      end
  end.

(** [calculateConsecutiveParticipations], lines 439 to 470. *)
Definition calculateConsecutiveParticipations (p : Professor)
  (procedures : list Procedure) : Z :=
  let participations :=
    Array_sort compareByDate (filter (participates p) procedures) in
  if Array_length participations =? 0 then 0
  else streak_loop participations (List.length participations - 1) 1.

(** The first rule of [isProfessorAvailable]: the early [return] of the
    cooldown test, when it is taken. *)
Definition cooldown_rejection (p : Professor) (targetDate : string)
  (requirements : JuryRequirements) : option ProfessorAvailability :=
  match p.(lastDate) with
  | Some last =>
      if truthy_string last then
        let daysSinceLastParticipation := daysBetween last targetDate in
        if Number.lt daysSinceLastParticipation
             requirements.(minDaysBetweenParticipations)
        then
          Some {| professor := p;
                  isAvailable := false;
                  reason := Some ("Last participation was "
                    ++ Number.toString daysSinceLastParticipation
                    ++ " days ago (minimum: "
                    ++ Number.string_of_Z
                         requirements.(minDaysBetweenParticipations)
                    ++ ")")%string;
                  lastParticipationDate := p.(lastDate);
                  consecutiveCount := Some 0 |}
        else None
      else None
  | None => None
  end.

(** [isProfessorAvailable], lines 392 to 434. *)
Definition isProfessorAvailable (p : Professor) (targetDate : string)
  (requirements : JuryRequirements) (procedures : list Procedure)
  : ProfessorAvailability :=
  match cooldown_rejection p targetDate requirements with
  | Some rejected => rejected
  | None =>
      let streak := calculateConsecutiveParticipations p procedures in
      if requirements.(maxConsecutiveParticipations) <=? streak then
        {| professor := p;
           isAvailable := false;
           reason := Some ("Maximum consecutive participations reached ("
             ++ Number.string_of_Z streak ++ "/"
             ++ Number.string_of_Z requirements.(maxConsecutiveParticipations)
             ++ ")")%string;
           lastParticipationDate := p.(lastDate);
           consecutiveCount := Some streak |}
      else
        {| professor := p;
           isAvailable := true;
           reason := None;
           lastParticipationDate := p.(lastDate);
           consecutiveCount := Some streak |}
  end.

(** The function has no [throw] and calls none that has one. *)
Definition isProfessorAvailable_call (p : Professor) (targetDate : string)
  (requirements : JuryRequirements) (procedures : list Procedure)
  : completion ProfessorAvailability :=
  Returned (isProfessorAvailable p targetDate requirements procedures).

(** One optional criterion of the filter: absent, it keeps the array. *)
Definition filter_when {C : Type} (criterion : option C)
  (keep : C -> Professor -> bool) (l : list Professor) : list Professor :=
  match criterion with
  | Some c => filter (keep c) l
  | None => l
  end.

Definition Qleb (a b : Q) : bool :=
  match (a ?= b)%Q with Gt => false | _ => true end.

Definition apply_filter (f : ProfessorFilter) (l : list Professor)
  : list Professor :=
  let l1 := filter_when f.(filter_title)
              (fun t p => ProfessorTitle_eqb p.(title) t) l in
  let l2 := filter_when
              (match f.(filter_university) with
               | Some u => if truthy_string u then Some u else None
               | None => None
               end)
              (fun u p => (p.(university) =? u)%string) l1 in
  let l3 := filter_when f.(filter_minScienceRating)
              (fun r p => Qleb r p.(science)) l2 in
  let l4 := filter_when f.(filter_maxScienceRating)
              (fun r p => Qleb p.(science) r) l3 in
  let l5 := filter_when f.(filter_maxDistance)
              (fun d p => Qleb p.(km) d) l4 in
  filter_when f.(filter_excludeIds)
    (fun ids p => negb (existsb (Z.eqb p.(id)) ids)) l5.

(** [getAvailableProfessors], lines 475 to 509. *)
Definition getAvailableProfessors (profs : list Professor)
  (targetDate : string) (requirements : JuryRequirements)
  (procedures : list Procedure) (f : option ProfessorFilter)
  : list ProfessorAvailability :=
  let filteredProfessors :=
    match f with
    | Some criteria => apply_filter criteria profs
    | None => profs
    end in
  map (fun p => isProfessorAvailable p targetDate requirements procedures)
    filteredProfessors.

(** The sort key that is a date: a missing date counts as time zero. *)
Definition lastDate_time (p : Professor) : number Z :=
  match p.(lastDate) with
  | Some d => if truthy_string d then getTime d else Num 0
  | None => Num 0
  end.

(** The body of the comparator of [sortProfessors]. *)
Definition compareProfessors (criteria : ProfessorSortCriteria)
  (ascending : bool) (a b : Professor) : number Q :=
  let comparison :=
    match criteria with
    | distance => Num (a.(km) - b.(km))%Q
    | lastParticipation =>
        let aDate := lastDate_time a in
        let bDate := lastDate_time b in
        Number.of_int (Number.sub aDate bDate)
    | participationCount => Num (inject_Z (a.(count) - b.(count)))
    | scienceRating => Num (a.(science) - b.(science))%Q
    | name => Num (inject_Z (localeCompare a.(names) b.(names)))
    end in
  if ascending then comparison else Number.neg comparison.

(** [sortProfessors], lines 514 to 544. *)
Definition sortProfessors (profs : list Professor)
  (criteria : ProfessorSortCriteria) (ascending : bool) : list Professor :=
  Array_sort (compareProfessors criteria ascending) profs.

(** [p.km > maxDistance] *)
Definition exceeds_distance (maxDistance : Z) (p : Professor) : bool :=
  match (p.(km) ?= inject_Z maxDistance)%Q with Gt => true | _ => false end.

(** The eligible pool of [createJuryComposition]. *)
Definition availableProfessors (profs : list Professor)
  (procedures : list Procedure) (targetDate : string)
  (requirements : JuryRequirements) : list Professor :=
  map professor
    (filter isAvailable
       (getAvailableProfessors profs targetDate requirements procedures None)).

Definition professorsList (available : list Professor) : list Professor :=
  filter (fun p => ProfessorTitle_eqb p.(title) Profesor) available.

Definition associateProfessorsList (available : list Professor)
  : list Professor :=
  filter (fun p => ProfessorTitle_eqb p.(title) Docent) available.

Definition insufficient_professors (available required : Z) : string :=
  ("Insufficient professors available: "
   ++ Number.string_of_Z available ++ "/" ++ Number.string_of_Z required)%string.

Definition insufficient_associates (available required : Z) : string :=
  ("Insufficient associate professors available: "
   ++ Number.string_of_Z available ++ "/" ++ Number.string_of_Z required)%string.

(** [createJuryComposition], lines 549 to 607. *)
Definition createJuryComposition (profs : list Professor)
  (procedures : list Procedure) (targetDate : string)
  (requirements : JuryRequirements) (homeUniversity : string)
  : JuryComposition :=
  let errors0 : list string := [] in
  let warnings0 : list string := [] in
  let available :=
    availableProfessors profs procedures targetDate requirements in
  let pList := professorsList available in
  let aList := associateProfessorsList available in
  let errors1 :=
    if Array_length pList <? requirements.(professorCount)
    then errors0 ++ [insufficient_professors (Array_length pList)
                       requirements.(professorCount)]
    else errors0 in
  let errors2 :=
    if Array_length aList <? requirements.(associateProfessorCount)
    then errors1 ++ [insufficient_associates (Array_length aList)
                       requirements.(associateProfessorCount)]
    else errors1 in
  let selectedProfessors :=
    Array_slice0 (sortProfessors pList distance true)
      requirements.(professorCount) in
  let selectedAssociateProfessors :=
    Array_slice0 (sortProfessors aList distance true)
      requirements.(associateProfessorCount) in
  let all := selectedProfessors ++ selectedAssociateProfessors in
  let internal :=
    filter (fun p => (p.(university) =? homeUniversity)%string) all in
  let external :=
    filter (fun p => negb (p.(university) =? homeUniversity)%string) all in
  let distantExternalMembers :=
    filter (exceeds_distance requirements.(maxDistanceForExternal)) external in
  let warnings1 :=
    if 0 <? Array_length distantExternalMembers
    then warnings0 ++
         [(Number.string_of_Z (Array_length distantExternalMembers)
           ++ " external members exceed maximum distance ("
           ++ Number.string_of_Z requirements.(maxDistanceForExternal)
           ++ "km)")%string]
    else warnings0 in
  {| professors := selectedProfessors;
     associateProfessors := selectedAssociateProfessors;
     externalMembers := external;
     internalMembers := internal;
     allMembers := all;
     errors := errors2;
     warnings := warnings1 |}.

(** The callback of [reduce] in the workload statistics. *)
Definition add_gap (history : list Procedure) (sum : number Z)
  (proc : Procedure) (index : nat) : number Z :=
  match index with
  | O => Num 0
  | S i =>
      match nth_error history i with
      | Some previous =>
          Number.add sum (daysBetween previous.(date) proc.(date))
      | None => sum
      end
  end.

(** [if (year)]: a year that is absent or zero is falsy. *)
Definition truthy_year (year : option Z) : option Z :=
  match year with
  | Some y => if y =? 0 then None else Some y
  | None => None
  end.

(** [calculateProfessorWorkload], lines 632 to 666. *)
Definition calculateProfessorWorkload (p : Professor)
  (procedures : list Procedure) (year : option Z) : Workload :=
  let history := getProfessorParticipationHistory p procedures in
  let thisYear :=
    match truthy_year year with
    | Some y =>
        Array_length
          (filter (fun proc => Number.strict_eq (getFullYear proc.(date)) y)
             history)
    | None => Array_length history
    end in
  let averageDaysBetween :=
    if 1 <? Array_length history then
      let totalDays := Array_reduce (add_gap history) (Num 0) history in
      Number.div totalDays (Array_length history - 1)
    else Num 0%Q in
  {| totalParticipations := Array_length history;
     participationsThisYear := thisYear;
     averageDaysBetweenParticipations := averageDaysBetween;
     workload_lastParticipationDate :=
       match history with
       | [] => None
       | _ => option_map date (nth_error history (List.length history - 1))
       end |}.

(** The function has no [throw] and calls none that has one. *)
Definition createJuryComposition_call (profs : list Professor)
  (procedures : list Procedure) (targetDate : string)
  (requirements : JuryRequirements) (homeUniversity : string)
  : completion JuryComposition :=
  Returned (createJuryComposition profs procedures targetDate requirements
              homeUniversity).

(** The record that the second and third rules of [isProfessorAvailable]
    build from the streak. *)
Definition streak_verdict (p : Professor) (requirements : JuryRequirements)
  (streak : Z) : ProfessorAvailability :=
  if requirements.(maxConsecutiveParticipations) <=? streak then
    {| professor := p;
       isAvailable := false;
       reason := Some ("Maximum consecutive participations reached ("
         ++ Number.string_of_Z streak ++ "/"
         ++ Number.string_of_Z requirements.(maxConsecutiveParticipations)
         ++ ")")%string;
       lastParticipationDate := p.(lastDate);
       consecutiveCount := Some streak |}
  else
    {| professor := p;
       isAvailable := true;
       reason := None;
       lastParticipationDate := p.(lastDate);
       consecutiveCount := Some streak |}.





(** The time value of a procedure whose date parses. *)
Definition has_time (proc : Procedure) (t : Z) : Prop :=
  getTime proc.(date) = Num t.

Definition not_later (a b : Procedure) : Prop :=
  exists ta tb, has_time a ta /\ has_time b tb /\ ta <= tb.

Definition parses (proc : Procedure) : Prop := exists t, has_time proc t.

(** The test that keeps the loop of the streak counter going: the gap
    between two entries does not exceed the fixed 30 days. *)
Definition within30 (previous current : Procedure) : bool :=
  negb (Number.gt (daysBetween previous.(date) current.(date)) 30).

(** Every adjacent pair of an oldest-first list passes [within30]. *)
Fixpoint is_chain (l : list Procedure) : bool :=
  match l with
  | a :: (b :: _) as rest => within30 a b && is_chain rest
  | _ => true
  end.

(** A professor passes every criterion that a filter holds. *)
Definition filter_accepts (f : ProfessorFilter) (p : Professor) : bool :=
  match f.(filter_title) with
  | Some t => ProfessorTitle_eqb p.(title) t
  | None => true
  end &&
  match f.(filter_university) with
  | Some u => if truthy_string u then (p.(university) =? u)%string else true
  | None => true
  end &&
  match f.(filter_minScienceRating) with
  | Some r => Qleb r p.(science)
  | None => true
  end &&
  match f.(filter_maxScienceRating) with
  | Some r => Qleb p.(science) r
  | None => true
  end &&
  match f.(filter_maxDistance) with
  | Some d => Qleb p.(km) d
  | None => true
  end &&
  match f.(filter_excludeIds) with
  | Some ids => negb (existsb (Z.eqb p.(id)) ids)
  | None => true
  end.




(** *** The statistics of the home page ([src/app/(dashboard)/page.tsx],
    lines 20 to 55) *)

(** The requirements that the page and the calendar write out. *)
Definition page_requirements : JuryRequirements :=
  {| professorCount := 3;
     associateProfessorCount := 2;
     maxConsecutiveParticipations := 3;
     minDaysBetweenParticipations := 30;
     maxDistanceForExternal := 100 |}.

(** The number of members of the jury composed for the date of [p]. *)
Definition jury_size (profs : list Professor) (procedures : list Procedure)
  (homeUniversity : string) (p : Procedure) : Z :=
  let composition :=
    createJuryComposition profs procedures p.(date) page_requirements
      homeUniversity in
  Array_length (allMembers composition).

Definition completeJuries (profs : list Professor)
  (procedures : list Procedure) (homeUniversity : string) : Z :=
  Array_length
    (filter (fun p => 5 <=? jury_size profs procedures homeUniversity p)
       procedures).

Definition partialJuries (profs : list Professor)
  (procedures : list Procedure) (homeUniversity : string) : Z :=
  Array_length
    (filter (fun p => (0 <? jury_size profs procedures homeUniversity p)
                      && (jury_size profs procedures homeUniversity p <? 5))
       procedures).

(** *** The events of the calendar (component [JuryCalendar], lines 85 to
    127 of its file) *)

Inductive EventStatus : Type :=
| StatusComplete
| StatusPartial
| StatusIncomplete
| StatusError.

Record CalendarEvent : Type := {
  event_id : string;
  event_title : string;
  event_start : number Z;
  event_end : number Z;
  event_procedure : Procedure;
  event_composition : JuryComposition;
  event_status : EventStatus;
  assignedMembers : Z;
  requiredMembers : Z
}.

(** The labels of [procedureTypeConfig]. *)
Definition procedureTypeLabel (t : ProcedureType) : string :=
  match t with
  | ForDoktor => "PhD Defense"
  | ForDocent => "Associate Professor"
  | ForDN => "Doctor of Science"
  | ForProfesor => "Professor"
  end.

(** The callback of [procedures.map] that builds an event; the two dates of
    an event are kept as their time values. *)
Definition calendar_event (profs : list Professor)
  (procedures : list Procedure) (homeUniversity : string) (p : Procedure)
  : CalendarEvent :=
  let composition :=
    createJuryComposition profs procedures p.(date) page_requirements
      homeUniversity in
  let assigned := Array_length (allMembers composition) in
  let required := Array_length (professors composition)
                  + Array_length (associateProfessors composition) in
  let status :=
    if 0 <? Array_length (errors composition) then StatusError
    else if required <=? assigned then StatusComplete
    else if 0 <? assigned then StatusPartial
    else StatusIncomplete in
  {| event_id := Number.string_of_Z p.(proc_id);
     event_title := (procedureTypeLabel p.(procedure) ++ " ("
                     ++ Number.string_of_Z assigned ++ "/"
                     ++ Number.string_of_Z required ++ ")")%string;
     event_start := getTime p.(date);
     event_end := getTime p.(date);
     event_procedure := p;
     event_composition := composition;
     event_status := status;
     assignedMembers := assigned;
     requiredMembers := required |}.

Definition calendar_events (profs : list Professor)
  (procedures : list Procedure) (homeUniversity : string)
  : list CalendarEvent :=
  map (calendar_event profs procedures homeUniversity) procedures.

(** The sum that the [reduce] of the workload statistics builds: the gaps
    between each entry and the one before it, [previous] being the entry
    before the first of [l]. *)
Fixpoint gaps_sum (previous : Procedure) (l : list Procedure)
  (sum : number Z) : number Z :=
  match l with
  | [] => sum
  | proc :: rest =>
      gaps_sum proc rest
        (Number.add sum (daysBetween previous.(date) proc.(date)))
  end.

(** The date of a procedure is a whole number of days after the epoch. *)
Definition whole_day (proc : Procedure) : Prop :=
  exists k, getTime proc.(date) = Num (k * 86400000).

(** *** The procedures parser ([parseProceduresCsv] and [isValidDate],
    lines 314 to 377 of [layout.tsx]) *)

(** [s.trim()] *)
Variable trim : string -> string.

(** [parseInt(s)] *)
Variable parseInt : string -> number Z.

(** [s.split(sep)] for a separator of one character. *)
Fixpoint split (sep : ascii) (s : string) : list string :=
  match s with
  | EmptyString => [EmptyString]
  | String c rest =>
      if Ascii.eqb c sep then EmptyString :: split sep rest
      else match split sep rest with
           | w :: ws => String c w :: ws
           | [] => [String c EmptyString]
           end
  end.

Definition newline : ascii := ascii_of_nat 10.

Definition comma : ascii := ascii_of_nat 44.

(** The text of one double quote. *)
Definition quote : string := String (ascii_of_nat 34) EmptyString.

(** A procedure as the parser builds it: the identifier is a number and the
    type is one of the four; a member slot is [null] or what [parseInt]
    gives, which is [NaN] for text that is no number. *)
Record ProcedureRow : Type := {
  row_id : Z;
  row_date : string;
  row_procedure : ProcedureType;
  row_m1 : option (number Z);
  row_m2 : option (number Z);
  row_m3 : option (number Z);
  row_m4 : option (number Z);
  row_m5 : option (number Z);
  row_m6 : option (number Z);
  row_m7 : option (number Z)
}.

(** The test [['доктор', 'доцент', 'ДН', 'професор'].includes(s)], with the
    type that [s] names. *)
Definition ProcedureType_of_string (s : string) : option ProcedureType :=
  if (s =? "доктор")%string then Some ForDoktor
  else if (s =? "доцент")%string then Some ForDocent
  else if (s =? "ДН")%string then Some ForDN
  else if (s =? "професор")%string then Some ForProfesor
  else None.

(** [columns[k] && columns[k] !== 'null' ? parseInt(columns[k]) : null];
    a column that the line does not have is [undefined]. *)
Definition member_slot (columns : list string) (k : nat)
  : option (number Z) :=
  match nth_error columns k with
  | Some text =>
      if truthy_string text && negb (text =? "null")%string
      then Some (parseInt text) else None
  | None => None
  end.

Definition isValidDate (dateString : string) : bool :=
  match getTime dateString with
  | Num _ => true
  | NaN => false
  end.

Definition push_error {T : Type} (r : CsvParseResult T) (message : string)
  : CsvParseResult T :=
  {| data := data r;
     csv_errors := csv_errors r ++ [message];
     csv_warnings := csv_warnings r |}.

Definition push_warning {T : Type} (r : CsvParseResult T) (message : string)
  : CsvParseResult T :=
  {| data := data r;
     csv_errors := csv_errors r;
     csv_warnings := csv_warnings r ++ [message] |}.

Definition push_data {T : Type} (r : CsvParseResult T) (x : T)
  : CsvParseResult T :=
  {| data := data r ++ [x];
     csv_errors := csv_errors r;
     csv_warnings := csv_warnings r |}.

(** The columns of a line: [line.split(',').map(col => col.trim())]. *)
Definition columns_of (line : string) : list string :=
  map trim (split comma line).

(** The body of the [for] loop of [parseProceduresCsv] at index [i]. *)
Definition parseProcedureLine (i : nat) (raw : string)
  (r : CsvParseResult ProcedureRow) : CsvParseResult ProcedureRow :=
  let line := trim raw in
  if negb (truthy_string line) then r
  else
    let columns := columns_of line in
    let lineNo := Number.string_of_Z (Z.of_nat i + 1) in
    if Array_length columns <? 9 then
      push_error r
        ("Line " ++ lineNo ++ ": Insufficient columns (expected 9, got "
         ++ Number.string_of_Z (Array_length columns) ++ ")")%string
    else
      let id_number := parseInt (nth 0 columns "") in
      let date_text := nth 1 columns "" in
      let procedure_text := nth 2 columns "" in
      match id_number with
      | NaN => push_error r ("Line " ++ lineNo ++ ": Invalid ID")%string
      | Num id_value =>
          match ProcedureType_of_string procedure_text with
          | None =>
              push_error r
                ("Line " ++ lineNo ++ ": Invalid procedure type "
                 ++ quote ++ procedure_text ++ quote)%string
          | Some type =>
              let r' :=
                if isValidDate date_text then r
                else push_warning r
                       ("Line " ++ lineNo ++ ": Invalid date format "
                        ++ quote ++ date_text ++ quote)%string in
              push_data r'
                {| row_id := id_value;
                   row_date := date_text;
                   row_procedure := type;
                   row_m1 := member_slot columns 3;
                   row_m2 := member_slot columns 4;
                   row_m3 := member_slot columns 5;
                   row_m4 := member_slot columns 6;
                   row_m5 := member_slot columns 7;
                   row_m6 := member_slot columns 8;
                   row_m7 := member_slot columns 9 |}
          end
      end.

(** The loop over the lines from index [i] on. *)
Fixpoint parse_from (lines : list string) (i : nat)
  (r : CsvParseResult ProcedureRow) : CsvParseResult ProcedureRow :=
  match lines with
  | [] => r
  | raw :: rest => parse_from rest (S i) (parseProcedureLine i raw r)
  end.

Definition no_rows : CsvParseResult ProcedureRow :=
  {| data := []; csv_errors := []; csv_warnings := [] |}.

(** [parseProceduresCsv]: the loop starts at index 1, after the header. *)
Definition parseProceduresCsv (csvContent : string)
  : CsvParseResult ProcedureRow :=
  let lines := split newline (trim csvContent) in
  parse_from (tl lines) 1 no_rows.

(** A line that the loop does not skip. *)
Definition nonblank (raw : string) : bool := truthy_string (trim raw).

(** *** The data loader (class [JuryDataLoader], lines 541 to 722 of
    [jury-system-example.ts]) *)

(** [parseProfessorsCsv]: it reads two columns as floating-point numbers,
    so its result is taken as it comes. *)
Variable parseProfessorsCsv : string -> CsvParseResult Professor.

Record JuryDataLoader : Type := {
  loader_professors : list Professor;
  loader_procedures : list ProcedureRow;
  loadErrors : list string;
  loadWarnings : list string
}.

(** [new JuryDataLoader()] *)
Definition new_JuryDataLoader : JuryDataLoader :=
  {| loader_professors := [];
     loader_procedures := [];
     loadErrors := [];
     loadWarnings := [] |}.

Definition loadProfessorsFromCsv (this : JuryDataLoader) (csvContent : string)
  : CsvParseResult Professor * JuryDataLoader :=
  let result := parseProfessorsCsv csvContent in
  (result,
   {| loader_professors :=
        if Array_length (csv_errors result) =? 0 then data result
        else loader_professors this;
      loader_procedures := loader_procedures this;
      loadErrors := loadErrors this ++ csv_errors result;
      loadWarnings := loadWarnings this ++ csv_warnings result |}).

Definition loadProceduresFromCsv (this : JuryDataLoader) (csvContent : string)
  : CsvParseResult ProcedureRow * JuryDataLoader :=
  let result := parseProceduresCsv csvContent in
  (result,
   {| loader_professors := loader_professors this;
      loader_procedures :=
        if Array_length (csv_errors result) =? 0 then data result
        else loader_procedures this;
      loadErrors := loadErrors this ++ csv_errors result;
      loadWarnings := loadWarnings this ++ csv_warnings result |}).

Definition clear (this : JuryDataLoader) : JuryDataLoader :=
  new_JuryDataLoader.

Definition isDataLoaded (this : JuryDataLoader) : bool :=
  (0 <? Array_length (loader_professors this))
  || (0 <? Array_length (loader_procedures this)).

Record DataSummary : Type := {
  summary_professorCount : Z;
  summary_procedureCount : Z;
  summary_errorCount : Z;
  summary_warningCount : Z
}.

Definition getDataSummary (this : JuryDataLoader) : DataSummary :=
  {| summary_professorCount := Array_length (loader_professors this);
     summary_procedureCount := Array_length (loader_procedures this);
     summary_errorCount := Array_length (loadErrors this);
     summary_warningCount := Array_length (loadWarnings this) |}.

(** A call of a method that changes the loader. *)
Inductive LoaderCall : Type :=
| CallLoadProfessors (csvContent : string)
| CallLoadProcedures (csvContent : string)
| CallClear.

Definition call (this : JuryDataLoader) (c : LoaderCall) : JuryDataLoader :=
  match c with
  | CallLoadProfessors csv => snd (loadProfessorsFromCsv this csv)
  | CallLoadProcedures csv => snd (loadProceduresFromCsv this csv)
  | CallClear => clear this
  end.

(** The loader after a sequence of calls on a new loader. *)
Definition after_calls (calls : list LoaderCall) : JuryDataLoader :=
  fold_left call calls new_JuryDataLoader.

(** The errors that a call adds to the log. *)
Definition call_errors (c : LoaderCall) : list string :=
  match c with
  | CallLoadProfessors csv => csv_errors (parseProfessorsCsv csv)
  | CallLoadProcedures csv => csv_errors (parseProceduresCsv csv)
  | CallClear => []
  end.

(** The calls that follow the last [clear]. *)
Fixpoint since_clear (calls : list LoaderCall) : list LoaderCall :=
  match calls with
  | [] => []
  | c :: rest =>
      if existsb (fun c' => match c' with CallClear => true | _ => false end)
           calls
      then since_clear rest
      else calls
  end.

(** The rows whose date does not parse. *)
Definition invalid_dates (rows : list ProcedureRow) : Z :=
  Array_length (filter (fun row => negb (isValidDate (row_date row))) rows).

(** The call is a [clear]. *)
Definition is_clear (c : LoaderCall) : bool :=
  match c with
  | CallClear => true
  | _ => false
  end.

(** ** Facts on arrays *)

Section ArrayFacts.

Context {A : Type}.

Lemma insert_Permutation (before : A -> A -> bool) (x : A) (l : list A) :
  Permutation (insert before x l) (x :: l).
Proof.
  induction l as [|y l IH]; simpl.
  - apply Permutation_refl.
  - destruct (before y x).
    + eapply perm_trans; [apply perm_skip, IH | apply perm_swap].
    + apply Permutation_refl.
Qed.

Lemma stable_sort_Permutation (comparefn : A -> A -> number Q) (l : list A) :
  Permutation (stable_sort comparefn l) l.
Proof.
  unfold stable_sort.
  induction l as [|x l IH]; simpl.
  - constructor.
  - eapply perm_trans; [apply insert_Permutation | apply perm_skip, IH].
Qed.

Lemma stable_sort_In (comparefn : A -> A -> number Q) (l : list A) (x : A) :
  In x (stable_sort comparefn l) <-> In x l.
Proof.
  split; apply Permutation_in;
    [| apply Permutation_sym]; apply stable_sort_Permutation.
Qed.

(** Stability, in the form used below: a class [P] of elements none of
    which the comparator puts strictly before another keeps its order. *)
Lemma filter_insert (before : A -> A -> bool) (P : A -> bool) (x : A)
  (l : list A) :
  (forall b, In b l -> P x = true -> P b = true -> before b x = false) ->
  filter P (insert before x l) = filter P (x :: l).
Proof.
  intros Htie.
  induction l as [|y l IH]; [reflexivity|].
  cbn [insert].
  destruct (before y x) eqn:Hyx; [|reflexivity].
  cbn [filter] in *.
  rewrite IH by (intros b Hb; apply Htie; now right).
  destruct (P x) eqn:Hx, (P y) eqn:Hy; try reflexivity.
  rewrite (Htie y (or_introl eq_refl) eq_refl Hy) in Hyx; discriminate.
Qed.

Lemma filter_stable_sort (comparefn : A -> A -> number Q) (P : A -> bool)
  (l : list A) :
  (forall a b, In a l -> In b l -> P a = true -> P b = true ->
               Number.negative (comparefn b a) = false) ->
  filter P (stable_sort comparefn l) = filter P l.
Proof.
  intros Htie. unfold stable_sort.
  induction l as [|x l IH]; [reflexivity|].
  cbn [fold_right].
  rewrite filter_insert.
  - cbn [filter]. rewrite IH; [reflexivity|].
    intros a b Ha Hb. apply Htie; now right.
  - intros b Hb Hx Hpb. apply Htie; try assumption; [now left|].
    right. now apply (stable_sort_In comparefn l b).
Qed.

(** *** Consistent comparators *)

Lemma negative_order (comparefn : A -> A -> number Q) (a b : A) :
  Number.negative (comparefn a b) = true <-> order comparefn a b = Lt.
Proof.
  unfold order, SortCompare, Number.negative.
  destruct (comparefn a b) as [|q].
  - cbn. split; discriminate.
  - destruct (q ?= 0)%Q; split; congruence.
Qed.

Lemma negative_false_order (comparefn : A -> A -> number Q) (a b : A) :
  Number.negative (comparefn a b) = false <-> order comparefn a b <> Lt.
Proof.
  rewrite <- negative_order.
  destruct (Number.negative (comparefn a b)); split; congruence.
Qed.

Lemma tied_true_iff (comparefn : A -> A -> number Q) (a b : A) :
  tied comparefn a b = true <-> order comparefn a b = Eq.
Proof.
  unfold tied. destruct (order comparefn a b); split; congruence.
Qed.

Lemma consistent_incl (comparefn : A -> A -> number Q) (S S' : A -> Prop) :
  (forall x, S' x -> S x) ->
  consistent comparefn S -> consistent comparefn S'.
Proof.
  intros Hincl [H1 H2 H3 H4 H5 H6].
  constructor; eauto 10.
Qed.

Lemma consistent_gt_lt (comparefn : A -> A -> number Q) (S : A -> Prop)
  (a b : A) :
  consistent comparefn S -> S a -> S b ->
  order comparefn a b = Gt -> order comparefn b a = Lt.
Proof.
  intros HS Ha Hb Hab.
  destruct (order comparefn b a) eqn:Hba; [| reflexivity |].
  - rewrite (consistent_sym _ _ HS b a Hb Ha Hba) in Hab. discriminate.
  - pose proof (consistent_gt_trans _ _ HS a b a Ha Hb Ha Hab Hba) as H.
    rewrite (consistent_refl _ _ HS a Ha) in H. discriminate.
Qed.

Lemma consistent_asym (comparefn : A -> A -> number Q) (S : A -> Prop)
  (a b : A) :
  consistent comparefn S -> S a -> S b ->
  order comparefn a b = Lt -> order comparefn b a <> Lt.
Proof.
  intros HS Ha Hb Hab.
  rewrite (consistent_lt_gt _ _ HS a b Ha Hb Hab). discriminate.
Qed.

(** Not being strictly before is transitive. *)
Lemma consistent_not_lt_trans (comparefn : A -> A -> number Q)
  (S : A -> Prop) (a b c : A) :
  consistent comparefn S -> S a -> S b -> S c ->
  order comparefn a b <> Lt -> order comparefn b c <> Lt ->
  order comparefn a c <> Lt.
Proof.
  intros HS Ha Hb Hc Hab Hbc Hac.
  destruct (order comparefn a b) eqn:Eab; [| congruence |];
    destruct (order comparefn b c) eqn:Ebc; try congruence.
  - rewrite (consistent_eq_trans _ _ HS a b c Ha Hb Hc Eab Ebc) in Hac.
    discriminate.
  - pose proof (consistent_lt_gt _ _ HS a c Ha Hc Hac) as Hca.
    pose proof (consistent_gt_trans _ _ HS b c a Hb Hc Ha Ebc Hca) as Hba.
    rewrite (consistent_sym _ _ HS a b Ha Hb Eab) in Hba. discriminate.
  - pose proof (consistent_gt_lt _ _ a b HS Ha Hb Eab) as Hba.
    pose proof (consistent_lt_trans _ _ HS b a c Hb Ha Hc Hba Hac) as H.
    congruence.
  - rewrite (consistent_gt_trans _ _ HS a b c Ha Hb Hc Eab Ebc) in Hac.
    discriminate.
Qed.

(** Two elements none of which is strictly before the other compare
    equal. *)
Lemma consistent_not_lt_tied (comparefn : A -> A -> number Q)
  (S : A -> Prop) (a b : A) :
  consistent comparefn S -> S a -> S b ->
  order comparefn a b <> Lt -> order comparefn b a <> Lt ->
  order comparefn a b = Eq.
Proof.
  intros HS Ha Hb Hab Hba.
  destruct (order comparefn a b) eqn:E; [reflexivity | congruence |].
  now rewrite (consistent_gt_lt _ _ a b HS Ha Hb E) in Hba.
Qed.

(** Two elements that compare equal with a third compare equal. *)
Lemma consistent_tied_tied (comparefn : A -> A -> number Q) (S : A -> Prop)
  (x a b : A) :
  consistent comparefn S -> S x -> S a -> S b ->
  tied comparefn x a = true -> tied comparefn x b = true ->
  order comparefn a b = Eq.
Proof.
  intros HS Hx Ha Hb Hxa Hxb.
  apply tied_true_iff in Hxa, Hxb.
  apply (consistent_eq_trans _ _ HS a x b); try assumption.
  now apply (consistent_sym _ _ HS x a).
Qed.

(** A comparator that follows a total preorder is consistent. *)
Lemma consistent_of_total_preorder (le : A -> A -> Prop)
  (comparefn : A -> A -> number Q) (S : A -> Prop) :
  (forall a b, S a -> S b -> le a b \/ le b a) ->
  (forall a b c, S a -> S b -> S c -> le a b -> le b c -> le a c) ->
  (forall a b, S a -> S b ->
     match order comparefn a b with
     | Lt => ~ le b a
     | Eq => le a b /\ le b a
     | Gt => ~ le a b
     end) ->
  consistent comparefn S.
Proof.
  intros Htotal Htrans Hcmp.
  assert (Hlt : forall a b, S a -> S b -> ~ le b a ->
                            order comparefn a b = Lt).
  { intros a b Ha Hb Hn. pose proof (Hcmp a b Ha Hb) as H.
    destruct (order comparefn a b); [tauto | reflexivity |].
    destruct (Htotal a b Ha Hb); tauto. }
  assert (Hgt : forall a b, S a -> S b -> ~ le a b ->
                            order comparefn a b = Gt).
  { intros a b Ha Hb Hn. pose proof (Hcmp a b Ha Hb) as H.
    destruct (order comparefn a b); [tauto | | reflexivity].
    destruct (Htotal a b Ha Hb); tauto. }
  assert (Heq : forall a b, S a -> S b -> le a b -> le b a ->
                            order comparefn a b = Eq).
  { intros a b Ha Hb H1 H2. pose proof (Hcmp a b Ha Hb) as H.
    destruct (order comparefn a b); [reflexivity | tauto | tauto]. }
  assert (Hof : forall a b c, S a -> S b -> order comparefn a b = c ->
            match c with
            | Lt => ~ le b a
            | Eq => le a b /\ le b a
            | Gt => ~ le a b
            end).
  { intros a b c Ha Hb <-. now apply Hcmp. }
  constructor.
  - intros a Ha. apply Heq; try assumption;
      destruct (Htotal a a Ha Ha); assumption.
  - intros a b Ha Hb E. apply (Hof a b Eq Ha Hb) in E as [H1 H2].
    now apply Heq.
  - intros a b Ha Hb E. apply (Hof a b Lt Ha Hb) in E.
    now apply Hgt.
  - intros a b c Ha Hb Hc E1 E2.
    apply (Hof a b Eq Ha Hb) in E1 as [H1 H2].
    apply (Hof b c Eq Hb Hc) in E2 as [H3 H4].
    apply Heq; try assumption; [now apply (Htrans a b c) |
                                now apply (Htrans c b a)].
  - intros a b c Ha Hb Hc E1 E2.
    apply (Hof a b Lt Ha Hb) in E1. apply (Hof b c Lt Hb Hc) in E2.
    apply Hlt; try assumption. intros Hca.
    destruct (Htotal a b Ha Hb) as [Hab|Hba]; [|contradiction].
    apply E2. now apply (Htrans c a b).
  - intros a b c Ha Hb Hc E1 E2.
    apply (Hof a b Gt Ha Hb) in E1. apply (Hof b c Gt Hb Hc) in E2.
    apply Hgt; try assumption. intros Hac.
    destruct (Htotal a b Ha Hb) as [Hab|Hba]; [contradiction|].
    apply E2. now apply (Htrans b a c).
Qed.

(** A comparator whose sign is that of the difference of two keys is
    consistent. *)
Lemma consistent_by_key (key : A -> Q) (comparefn : A -> A -> number Q)
  (S : A -> Prop) :
  (forall a b, S a -> S b ->
     order comparefn a b = (key a ?= key b)%Q) ->
  consistent comparefn S.
Proof.
  intros Hkey.
  apply (consistent_of_total_preorder (fun a b => (key a <= key b)%Q)).
  - intros a b _ _. destruct (Qlt_le_dec (key b) (key a)) as [H|H];
      [right; lra | now left].
  - intros a b c _ _ _ H1 H2. lra.
  - intros a b Ha Hb. rewrite (Hkey a b Ha Hb).
    destruct (key a ?= key b)%Q eqn:E.
    + apply Qeq_alt in E. lra.
    + apply Qlt_alt in E. lra.
    + apply Qgt_alt in E. lra.
Qed.

(** *** The stable arrangement *)

Lemma insert_in_sort_order (comparefn : A -> A -> number Q) (x : A)
  (l : list A) :
  consistent comparefn (fun y => In y (x :: l)) ->
  in_sort_order comparefn l ->
  in_sort_order comparefn
    (insert (fun y x => Number.negative (comparefn y x)) x l).
Proof.
  unfold in_sort_order. intros HS Hl.
  induction l as [|y l IH]; cbn [insert].
  - repeat constructor.
  - inversion Hl as [|? ? Hl' Hy]; subst.
    destruct (Number.negative (comparefn y x)) eqn:Hyx.
    + apply negative_order in Hyx.
      constructor.
      * apply IH; [|exact Hl'].
        apply (consistent_incl comparefn (fun z => In z (x :: y :: l)));
          [|exact HS].
        intros z [<-|Hz]; [now left | right; now right].
      * apply Forall_forall. intros z Hz.
        apply (Permutation_in _ (insert_Permutation _ x l)) in Hz.
        destruct Hz as [<-|Hz].
        -- apply (consistent_asym _ _ y x HS); cbn; auto.
        -- now apply (proj1 (Forall_forall _ _) Hy).
    + apply negative_false_order in Hyx.
      constructor; [exact Hl|].
      constructor; [exact Hyx|].
      apply Forall_forall. intros z Hz.
      pose proof (proj1 (Forall_forall _ _) Hy z Hz) as Hzy.
      apply (consistent_not_lt_trans _ _ z y x HS); cbn; auto.
Qed.

Lemma stable_sort_in_sort_order (comparefn : A -> A -> number Q)
  (l : list A) :
  consistent comparefn (fun x => In x l) ->
  in_sort_order comparefn (stable_sort comparefn l).
Proof.
  intros HS. unfold stable_sort.
  induction l as [|x l IH]; cbn [fold_right]; [constructor|].
  apply insert_in_sort_order.
  - apply (consistent_incl comparefn (fun y => In y (x :: l))); [|exact HS].
    intros y [<-|Hy]; [now left | right].
    now apply (stable_sort_In comparefn l y).
  - apply IH. apply (consistent_incl comparefn (fun y => In y (x :: l)));
      [intros y Hy; now right | exact HS].
Qed.

Lemma stable_sort_tied (comparefn : A -> A -> number Q) (l : list A)
  (x : A) :
  consistent comparefn (fun y => In y l) -> In x l ->
  filter (tied comparefn x) (stable_sort comparefn l)
  = filter (tied comparefn x) l.
Proof.
  intros HS Hx. apply filter_stable_sort.
  intros a b Ha Hb Hxa Hxb.
  apply negative_false_order.
  rewrite (consistent_tied_tied _ _ x b a HS); try assumption.
  discriminate.
Qed.

(** There is one arrangement of an array that is in the order of a
    consistent comparator and keeps the order of the elements that compare
    equal. *)
Lemma stable_arrangement_unique (comparefn : A -> A -> number Q)
  (l1 l2 : list A) :
  consistent comparefn (fun x => In x l1) ->
  Permutation l1 l2 ->
  in_sort_order comparefn l1 -> in_sort_order comparefn l2 ->
  (forall x, In x l1 ->
     filter (tied comparefn x) l1 = filter (tied comparefn x) l2) ->
  l1 = l2.
Proof.
  unfold in_sort_order.
  revert l2. induction l1 as [|a t1 IH]; intros l2 HS Hperm H1 H2 Hst.
  - now apply Permutation_nil in Hperm.
  - destruct l2 as [|b t2];
      [apply Permutation_sym, Permutation_nil in Hperm; discriminate|].
    inversion H1 as [|? ? H1' Ha]; subst.
    inversion H2 as [|? ? H2' Hb]; subst.
    assert (Sa : In a (a :: t1)) by now left.
    assert (Sb : In b (a :: t1)).
    { apply (Permutation_in _ (Permutation_sym Hperm)). now left. }
    assert (Hab : order comparefn a b = Eq).
    { apply (consistent_not_lt_tied _ _ a b HS Sa Sb).
      - assert (Hin : In a (b :: t2))
          by (apply (Permutation_in _ Hperm); now left).
        destruct Hin as [->|Hin].
        + rewrite (consistent_refl _ _ HS a Sa). discriminate.
        + now apply (proj1 (Forall_forall _ _) Hb).
      - destruct Sb as [->|Hin].
        + rewrite (consistent_refl _ _ HS b (or_introl eq_refl)).
          discriminate.
        + now apply (proj1 (Forall_forall _ _) Ha). }
    pose proof (Hst a Sa) as Hhead. cbn [filter] in Hhead.
    assert (Haa : tied comparefn a a = true)
      by (apply tied_true_iff, (consistent_refl _ _ HS a Sa)).
    assert (Hab' : tied comparefn a b = true) by now apply tied_true_iff.
    rewrite Haa, Hab' in Hhead. injection Hhead as <- Hrest.
    f_equal. apply IH.
    + apply (consistent_incl comparefn (fun y => In y (a :: t1)));
        [intros y Hy; now right | exact HS].
    + now apply Permutation_cons_inv in Hperm.
    + exact H1'.
    + exact H2'.
    + intros x Hx. pose proof (Hst x (or_intror Hx)) as H.
      cbn [filter] in H. destruct (tied comparefn x a); [|exact H].
      now injection H.
Qed.

(** *** The sort of a conforming engine *)

Lemma Array_sort_Permutation (comparefn : A -> A -> number Q) (l : list A) :
  Permutation (Array_sort comparefn l) l.
Proof using Array_sort_conforming.
  apply (Array_sort_conforming A comparefn l).
Qed.

Lemma Array_sort_length (comparefn : A -> A -> number Q) (l : list A) :
  List.length (Array_sort comparefn l) = List.length l.
Proof using Array_sort_conforming.
  apply Permutation_length, Array_sort_Permutation.
Qed.

Lemma Array_sort_In (comparefn : A -> A -> number Q) (l : list A) (x : A) :
  In x (Array_sort comparefn l) <-> In x l.
Proof using Array_sort_conforming.
  split; apply Permutation_in;
    [| apply Permutation_sym]; apply Array_sort_Permutation.
Qed.

Lemma Array_sort_nil (comparefn : A -> A -> number Q) :
  Array_sort comparefn [] = [].
Proof using Array_sort_conforming.
  apply Permutation_nil, Permutation_sym, Array_sort_Permutation.
Qed.

(** For a consistent comparator the sort returns the stable arrangement. *)
Lemma Array_sort_stable_sort (comparefn : A -> A -> number Q) (l : list A) :
  consistent comparefn (fun x => In x l) ->
  Array_sort comparefn l = stable_sort comparefn l.
Proof using Array_sort_conforming.
  intros HS.
  destruct (Array_sort_conforming A comparefn l) as [Hperm Hspec].
  destruct (Hspec HS) as [Hsorted Hstable].
  apply (stable_arrangement_unique comparefn).
  - apply (consistent_incl comparefn (fun x => In x l)); [|exact HS].
    intros x. apply Array_sort_In.
  - eapply perm_trans; [exact Hperm|].
    apply Permutation_sym, stable_sort_Permutation.
  - exact Hsorted.
  - now apply stable_sort_in_sort_order.
  - intros x Hx. apply Array_sort_In in Hx.
    rewrite (Hstable x Hx). symmetry. now apply stable_sort_tied.
Qed.

Lemma Array_slice0_length (l : list A) (n : Z) :
  0 <= n ->
  Array_length (Array_slice0 l n) = Z.min n (Array_length l).
Proof.
  intros Hn. unfold Array_slice0, Array_length.
  destruct (n <? 0) eqn:Hneg; [lia|].
  rewrite length_firstn. lia.
Qed.

Lemma Array_slice0_length_le (l : list A) (n : Z) :
  Array_length (Array_slice0 l n) <= Array_length l.
Proof.
  unfold Array_slice0, Array_length. rewrite length_firstn. lia.
Qed.

Lemma Array_slice0_all (l : list A) (n : Z) :
  Array_length l <= n -> Array_slice0 l n = l.
Proof.
  unfold Array_slice0, Array_length. intros Hn.
  destruct (n <? 0) eqn:Hneg; [lia|].
  apply firstn_all2. lia.
Qed.

Lemma Array_slice0_incl (l : list A) (n : Z) (x : A) :
  In x (Array_slice0 l n) -> In x l.
Proof.
  unfold Array_slice0. intros Hx.
  match type of Hx with In _ (firstn ?k _) =>
    rewrite <- (firstn_skipn k l) end.
  apply in_or_app. now left.
Qed.

End ArrayFacts.

(** ** Date arithmetic *)

Lemma ceil_div_bounds (x d : Z) :
  0 < d -> (- ((- x) / d) - 1) * d < x <= - ((- x) / d) * d.
Proof.
  intros Hd.
  pose proof (Z.mul_div_le (- x) d Hd).
  pose proof (Z.mul_succ_div_gt (- x) d Hd).
  lia.
Qed.

Lemma daysBetween_NaN (date1 date2 : string) :
  getTime date1 = NaN \/ getTime date2 = NaN ->
  daysBetween date1 date2 = NaN.
Proof.
  unfold daysBetween. intros [H|H]; rewrite H.
  - now destruct (getTime date2).
  - reflexivity.
Qed.

Lemma daysBetween_Num (date1 date2 : string) (t1 t2 : Z) :
  getTime date1 = Num t1 -> getTime date2 = Num t2 ->
  daysBetween date1 date2
  = Num (- ((- Z.abs (t2 - t1)) / (1000 * 60 * 60 * 24))).
Proof. unfold daysBetween. now intros -> ->. Qed.

Lemma daysBetween_nonneg (date1 date2 : string) (n : Z) :
  daysBetween date1 date2 = Num n -> 0 <= n.
Proof.
  unfold daysBetween.
  destruct (getTime date1) as [|t1], (getTime date2) as [|t2];
    cbn [Number.sub Number.Math_abs Number.Math_ceil_div];
    try discriminate.
  intros [= <-].
  pose proof (ceil_div_bounds (Z.abs (t2 - t1)) (1000 * 60 * 60 * 24)
                ltac:(lia)) as Hb.
  change (1000 * 60 * 60 * 24) with 86400000 in *.
  lia.
Qed.

(** The gap is symmetric in its two dates. *)
Lemma daysBetween_sym (date1 date2 : string) :
  daysBetween date1 date2 = daysBetween date2 date1.
Proof.
  unfold daysBetween.
  destruct (getTime date1) as [|t1], (getTime date2) as [|t2];
    cbn [Number.sub Number.Math_abs Number.Math_ceil_div];
    try reflexivity.
  now replace (Z.abs (t1 - t2)) with (Z.abs (t2 - t1)) by lia.
Qed.

(** ** The availability evaluator *)

(** [new Date("")] is an invalid date. *)
Hypothesis getTime_empty : getTime "" = NaN.

Lemma truthy_string_false (s : string) :
  truthy_string s = false -> s = "".
Proof.
  unfold truthy_string. intros H.
  apply String.eqb_eq. now destruct (s =? "")%string.
Qed.

(** When the first rule fires. *)
Lemma cooldown_rejection_fires (p : Professor) (targetDate : string)
  (requirements : JuryRequirements) (d : string) :
  p.(lastDate) = Some d ->
  Number.lt (daysBetween d targetDate)
    requirements.(minDaysBetweenParticipations) = true ->
  exists gap : Z,
    daysBetween d targetDate = Num gap /\
    cooldown_rejection p targetDate requirements =
    Some {| professor := p;
            isAvailable := false;
            reason := Some ("Last participation was "
              ++ Number.string_of_Z gap ++ " days ago (minimum: "
              ++ Number.string_of_Z
                   requirements.(minDaysBetweenParticipations)
              ++ ")")%string;
            lastParticipationDate := Some d;
            consecutiveCount := Some 0 |}.
Proof using getTime_empty.
  intros Hd Hlt. unfold cooldown_rejection. rewrite Hd.
  destruct (truthy_string d) eqn:Ht.
  - rewrite Hlt.
    destruct (daysBetween d targetDate) as [|gap] eqn:Hgap;
      [discriminate|].
    exists gap. split; reflexivity.
  - apply truthy_string_false in Ht. subst d.
    rewrite (daysBetween_NaN "" targetDate) in Hlt by now left.
    discriminate.
Qed.

(** When the first rule does not fire. *)
Lemma cooldown_rejection_passes (p : Professor) (targetDate : string)
  (requirements : JuryRequirements) :
  (forall d, p.(lastDate) = Some d ->
             Number.lt (daysBetween d targetDate)
               requirements.(minDaysBetweenParticipations) = false) ->
  cooldown_rejection p targetDate requirements = None.
Proof.
  intros Hno. unfold cooldown_rejection.
  destruct (lastDate p) as [d|]; [|reflexivity].
  rewrite (Hno d eq_refl). now destruct (truthy_string d).
Qed.

(** The first rule fires or it does not, and when it does the whole
    record is known. *)
Lemma cooldown_rejection_cases (p : Professor) (targetDate : string)
  (requirements : JuryRequirements) :
  (exists d, p.(lastDate) = Some d /\
             Number.lt (daysBetween d targetDate)
               requirements.(minDaysBetweenParticipations) = true) \/
  (forall d, p.(lastDate) = Some d ->
             Number.lt (daysBetween d targetDate)
               requirements.(minDaysBetweenParticipations) = false).
Proof.
  destruct (lastDate p) as [d|].
  - destruct (Number.lt (daysBetween d targetDate)
                (minDaysBetweenParticipations requirements)) eqn:H.
    + left. now exists d.
    + right. now intros d' [= <-].
  - right. discriminate.
Qed.

Lemma Contains_intro (before s after : string) :
  Contains (before ++ s ++ after)%string s.
Proof. now exists before, after. Qed.

Lemma string_app_assoc (a b c : string) :
  ((a ++ b) ++ c = a ++ (b ++ c))%string.
Proof. induction a as [|ch a IH]; cbn; [reflexivity | now rewrite IH]. Qed.

Lemma string_app_nil_r (a : string) : (a ++ "" = a)%string.
Proof. induction a as [|ch a IH]; cbn; [reflexivity | now rewrite IH]. Qed.

Lemma cooldown_reason_cites (gap minimum : Z) :
  let r := ("Last participation was "
            ++ Number.string_of_Z gap ++ " days ago (minimum: "
            ++ Number.string_of_Z minimum ++ ")")%string in
  Contains r (Number.string_of_Z gap) /\
  Contains r (Number.string_of_Z minimum).
Proof.
  split.
  - apply Contains_intro.
  - exists ("Last participation was "
            ++ Number.string_of_Z gap ++ " days ago (minimum: ")%string, ")".
    now rewrite !string_app_assoc.
Qed.

Lemma streak_reason_cites (streak cap : Z) :
  let r := ("Maximum consecutive participations reached ("
            ++ Number.string_of_Z streak ++ "/"
            ++ Number.string_of_Z cap ++ ")")%string in
  Contains r (Number.string_of_Z streak) /\
  Contains r (Number.string_of_Z cap).
Proof.
  split.
  - apply Contains_intro.
  - exists ("Maximum consecutive participations reached ("
            ++ Number.string_of_Z streak ++ "/")%string, ")".
    now rewrite !string_app_assoc.
Qed.

(** ** The streak counter *)



Lemma nth_error_snoc (l : list Procedure) (x : Procedure) :
  nth_error (l ++ [x]) (List.length l) = Some x.
Proof.
  rewrite nth_error_app2 by lia. now rewrite Nat.sub_diag.
Qed.

(** The loop entered at index [i] reads the entries up to [i] only. *)
Lemma streak_loop_app (l t : list Procedure) (i : nat) (c : Z) :
  (i < List.length l)%nat ->
  streak_loop (l ++ t) i c = streak_loop l i c.
Proof.
  revert c. induction i as [|i IH]; intros c Hi; [reflexivity|].
  cbn [streak_loop].
  rewrite !nth_error_app1 by lia.
  destruct (nth_error l i) as [previous|]; [|reflexivity].
  destruct (nth_error l (S i)) as [current|]; [|reflexivity].
  destruct (Number.gt _ 30); [reflexivity|].
  apply IH. lia.
Qed.

Lemma is_chain_snoc (l : list Procedure) (y x : Procedure) :
  is_chain (l ++ [y]) = true -> within30 y x = true ->
  is_chain ((l ++ [y]) ++ [x]) = true.
Proof.
  intros Hl Hyx.
  induction l as [|a l IH].
  - cbn. now rewrite Hyx.
  - destruct l as [|b l].
    + cbn [app is_chain] in *.
      apply andb_true_iff in Hl as [Hay _].
      now rewrite Hay, Hyx.
    + cbn [app is_chain] in *.
      apply andb_true_iff in Hl as [Hab Hrest].
      rewrite Hab. now apply IH.
Qed.

Lemma is_chain_broken (l r : list Procedure) (a b : Procedure) :
  within30 a b = false -> is_chain (l ++ a :: b :: r) = false.
Proof.
  intros Hab.
  induction l as [|c l IH].
  - cbn. now rewrite Hab.
  - destruct l as [|d l].
    + cbn [app is_chain] in *. rewrite IH. apply andb_false_r.
    + cbn [app is_chain] in *. rewrite IH. apply andb_false_r.
Qed.

(** The loop invariant, on a history [pre ++ [x]] entered at its last
    index: the loop counts a chain that ends the history and stops at the
    first pair that is more than 30 days apart. *)
Lemma streak_loop_chain (pre : list Procedure) (x : Procedure) (c : Z) :
  exists older chain : list Procedure,
    pre ++ [x] = older ++ chain /\
    (exists front, chain = front ++ [x]) /\
    streak_loop (pre ++ [x]) (List.length pre) c
    = c + Array_length chain - 1 /\
    is_chain chain = true /\
    (forall older' previous first rest,
       older = older' ++ [previous] -> chain = first :: rest ->
       within30 previous first = false).
Proof.
  revert x c.
  induction pre as [|y pre IH] using rev_ind; intros x c.
  - exists [], [x]. cbn. repeat split.
    + now exists [].
    + unfold Array_length. cbn. lia.
    + intros older' previous first rest H. now destruct older'.
  - rewrite length_app. cbn [List.length]. rewrite Nat.add_1_r.
    cbn [streak_loop].
    rewrite (nth_error_app1 (pre ++ [y]) [x])
      by (rewrite length_app; cbn; lia).
    rewrite nth_error_snoc.
    replace (S (List.length pre)) with (List.length (pre ++ [y]))
      by (rewrite length_app; cbn; lia).
    rewrite nth_error_snoc.
    destruct (Number.gt (daysBetween (date y) (date x)) 30) eqn:Hgap.
    + exists (pre ++ [y]), [x]. repeat split.
      * now exists [].
      * unfold Array_length. cbn. lia.
      * intros older' previous first rest Hold [= <- <-].
        apply app_inj_tail in Hold as [_ <-].
        unfold within30. now rewrite Hgap.
    + rewrite streak_loop_app by (rewrite length_app; cbn; lia).
      destruct (IH y (c + 1)) as
        (older & chain & Hsplit & (front & ->) & Hloop & Hchain & Hbreak).
      exists older, ((front ++ [y]) ++ [x]). repeat split.
      * rewrite Hsplit. now rewrite <- !app_assoc.
      * now exists (front ++ [y]).
      * rewrite Hloop. unfold Array_length.
        rewrite !length_app. cbn. lia.
      * apply is_chain_snoc; [assumption|].
        unfold within30. now rewrite Hgap.
      * intros older' previous first rest Hold Hfirst.
        destruct front as [|f front].
        -- cbn in Hfirst. injection Hfirst as <- <-.
           now apply (Hbreak older' previous y []).
        -- cbn in Hfirst. injection Hfirst as <- <-.
           now apply (Hbreak older' previous f (front ++ [y])).
Qed.


Lemma history_In (p : Professor) (procedures : list Procedure)
  (proc : Procedure) :
  In proc (getProfessorParticipationHistory p procedures) <->
  In proc procedures /\ participates p proc = true.
Proof using Array_sort_conforming.
  unfold getProfessorParticipationHistory.
  rewrite Array_sort_In. apply filter_In.
Qed.


(** ** The rules of the evaluator *)

Lemma isProfessorAvailable_after_cooldown (p : Professor)
  (targetDate : string) (requirements : JuryRequirements)
  (procedures : list Procedure) :
  cooldown_rejection p targetDate requirements = None ->
  isProfessorAvailable p targetDate requirements procedures
  = streak_verdict p requirements
      (calculateConsecutiveParticipations p procedures).
Proof.
  intros H. unfold isProfessorAvailable, streak_verdict. now rewrite H.
Qed.

Lemma isProfessorAvailable_professor (p : Professor) (targetDate : string)
  (requirements : JuryRequirements) (procedures : list Procedure) :
  professor (isProfessorAvailable p targetDate requirements procedures) = p.
Proof.
  unfold isProfessorAvailable, cooldown_rejection.
  destruct (lastDate p) as [d|];
    repeat match goal with
           | |- context [if ?b then _ else _] => destruct b
           end; reflexivity.
Qed.

(** C2: the rules of [isProfessorAvailable] in their order.  (1) A last
    date whose gap to the target date is below the minimum makes the
    professor unavailable, whatever the streak, with a reason that holds
    the gap and the minimum.  (2) Otherwise a streak at or above the cap
    makes the professor unavailable, with a reason that holds the streak
    and the cap.  (3) Otherwise the professor is available.  (4) With
    2023-06-20 and 2023-07-10 read as the midnights UTC of those days and
    a minimum of 30, the verdict is unavailable, the gap is 20 and the
    reason holds 20 and 30. *)
Theorem isProfessorAvailable_decision_order (p : Professor)
  (targetDate : string) (requirements : JuryRequirements)
  (procedures : list Procedure) :
  let r := isProfessorAvailable p targetDate requirements procedures in
  let streak := calculateConsecutiveParticipations p procedures in
  let minimum := requirements.(minDaysBetweenParticipations) in
  let cap := requirements.(maxConsecutiveParticipations) in
  (forall d,
     p.(lastDate) = Some d ->
     Number.lt (daysBetween d targetDate) minimum = true ->
     isAvailable r = false /\
     exists gap s,
       daysBetween d targetDate = Num gap /\ reason r = Some s /\
       Contains s (Number.string_of_Z gap) /\
       Contains s (Number.string_of_Z minimum)) /\
  ((forall d, p.(lastDate) = Some d ->
              Number.lt (daysBetween d targetDate) minimum = false) ->
   cap <= streak ->
   isAvailable r = false /\
   exists s,
     reason r = Some s /\
     Contains s (Number.string_of_Z streak) /\
     Contains s (Number.string_of_Z cap)) /\
  ((forall d, p.(lastDate) = Some d ->
              Number.lt (daysBetween d targetDate) minimum = false) ->
   streak < cap ->
   isAvailable r = true /\ reason r = None) /\
  (getTime "2023-06-20" = Num 1687219200000 ->
   getTime "2023-07-10" = Num 1688947200000 ->
   p.(lastDate) = Some "2023-06-20" -> targetDate = "2023-07-10" ->
   minimum = 30 ->
   daysBetween "2023-06-20" "2023-07-10" = Num 20 /\
   isAvailable r = false /\
   exists s, reason r = Some s /\ Contains s "20" /\ Contains s "30").
Proof using getTime_empty.
  intros r streak minimum cap. subst r.
  assert (Hfirst : forall d,
     p.(lastDate) = Some d ->
     Number.lt (daysBetween d targetDate) minimum = true ->
     isAvailable
       (isProfessorAvailable p targetDate requirements procedures) = false /\
     exists gap s,
       daysBetween d targetDate = Num gap /\
       reason (isProfessorAvailable p targetDate requirements procedures)
       = Some s /\
       Contains s (Number.string_of_Z gap) /\
       Contains s (Number.string_of_Z minimum)); [|split; [exact Hfirst|]].
  2: split; [|split].
  4: { intros H1 H2 Hlast -> Hmin.
       assert (Hgap : daysBetween "2023-06-20" "2023-07-10" = Num 20)
         by now rewrite (daysBetween_Num _ _ _ _ H1 H2).
       split; [exact Hgap|].
       destruct (Hfirst "2023-06-20" Hlast) as (Hun & gap & s & Hg & Hs & Hc1 & Hc2).
       { now rewrite Hgap, Hmin. }
       split; [exact Hun|].
       exists s. rewrite Hgap in Hg. injection Hg as <-.
       rewrite Hmin in Hc2. now repeat split. }
  - intros d Hd Hlt.
    destruct (cooldown_rejection_fires p targetDate requirements d Hd Hlt)
      as (gap & Hgap & Hrej).
    unfold isProfessorAvailable. rewrite Hrej. cbn.
    split; [reflexivity|].
    eexists gap, _. repeat split; try eassumption;
      apply (cooldown_reason_cites gap minimum).
  - intros Hno Hcap.
    rewrite isProfessorAvailable_after_cooldown
      by now apply cooldown_rejection_passes.
    unfold streak_verdict. fold streak cap.
    destruct (cap <=? streak) eqn:E; [|lia]. cbn.
    split; [reflexivity|].
    eexists. split; [reflexivity|]. apply (streak_reason_cites streak cap).
  - intros Hno Hcap.
    rewrite isProfessorAvailable_after_cooldown
      by now apply cooldown_rejection_passes.
    unfold streak_verdict. fold streak cap.
    destruct (cap <=? streak) eqn:E; [lia|]. now cbn.
Qed.

(** C7 as the code has it: the field [consecutiveCount] is the constant 0
    when the cooldown rule rejects, and the computed streak in the two
    other branches. *)
Theorem isProfessorAvailable_consecutiveCount (p : Professor)
  (targetDate : string) (requirements : JuryRequirements)
  (procedures : list Procedure) :
  let r := isProfessorAvailable p targetDate requirements procedures in
  let minimum := requirements.(minDaysBetweenParticipations) in
  ((exists d, p.(lastDate) = Some d /\
              Number.lt (daysBetween d targetDate) minimum = true) ->
   consecutiveCount r = Some 0) /\
  ((forall d, p.(lastDate) = Some d ->
              Number.lt (daysBetween d targetDate) minimum = false) ->
   consecutiveCount r
   = Some (calculateConsecutiveParticipations p procedures)).
Proof using getTime_empty.
  intros r minimum. subst r. split.
  - intros (d & Hd & Hlt).
    destruct (cooldown_rejection_fires p targetDate requirements d Hd Hlt)
      as (gap & _ & Hrej).
    unfold isProfessorAvailable. now rewrite Hrej.
  - intros Hno.
    rewrite isProfessorAvailable_after_cooldown
      by now apply cooldown_rejection_passes.
    unfold streak_verdict.
    now destruct (maxConsecutiveParticipations requirements <=? _).
Qed.

(** The eligible pool, as a filter on the input array. *)
Lemma availableProfessors_filter (profs : list Professor)
  (procedures : list Procedure) (targetDate : string)
  (requirements : JuryRequirements) :
  availableProfessors profs procedures targetDate requirements
  = filter
      (fun p => isAvailable
                  (isProfessorAvailable p targetDate requirements procedures))
      profs.
Proof.
  unfold availableProfessors, getAvailableProfessors.
  induction profs as [|p profs IH]; [reflexivity|].
  cbn [map filter].
  destruct (isAvailable _) eqn:E; cbn [map]; rewrite IH;
    [now rewrite isProfessorAvailable_professor | reflexivity].
Qed.

(** C10: with an unparseable target date, or an unparseable last date of
    the professor, the day gap is [NaN], the cooldown comparison is false,
    the first rule does not reject, and the call returns the record of the
    streak check; the allocator returns as well, and with an unparseable
    target date its eligible pool is decided by the streak alone. *)
Theorem unparseable_date_skips_cooldown (p : Professor)
  (targetDate : string) (requirements : JuryRequirements)
  (procedures : list Procedure) (profs : list Professor)
  (homeUniversity : string) :
  (getTime targetDate = NaN \/
   exists d, p.(lastDate) = Some d /\ getTime d = NaN) ->
  (forall d, p.(lastDate) = Some d ->
             daysBetween d targetDate = NaN /\
             Number.lt (daysBetween d targetDate)
               requirements.(minDaysBetweenParticipations) = false) /\
  isProfessorAvailable_call p targetDate requirements procedures
  = Returned (streak_verdict p requirements
                (calculateConsecutiveParticipations p procedures)) /\
  (exists composition,
     createJuryComposition_call profs procedures targetDate requirements
       homeUniversity = Returned composition) /\
  (getTime targetDate = NaN ->
   availableProfessors profs procedures targetDate requirements
   = filter
       (fun q => calculateConsecutiveParticipations q procedures
                 <? requirements.(maxConsecutiveParticipations))
       profs).
Proof.
  intros Hbad.
  assert (Hgap : forall d, p.(lastDate) = Some d ->
                           daysBetween d targetDate = NaN).
  { intros d Hd. apply daysBetween_NaN.
    destruct Hbad as [Ht | (d' & Hd' & Hnan)]; [now right | left].
    rewrite Hd in Hd'. now injection Hd' as <-. }
  split; [|split; [|split]].
  - intros d Hd. rewrite (Hgap d Hd). now split.
  - unfold isProfessorAvailable_call. f_equal.
    apply isProfessorAvailable_after_cooldown, cooldown_rejection_passes.
    intros d Hd. now rewrite (Hgap d Hd).
  - now eexists.
  - intros Ht. rewrite availableProfessors_filter.
    apply filter_ext. intros q.
    rewrite isProfessorAvailable_after_cooldown.
    + unfold streak_verdict. rewrite Z.ltb_antisym.
      now destruct (maxConsecutiveParticipations requirements <=? _).
    + apply cooldown_rejection_passes. intros d _.
      now rewrite (daysBetween_NaN d targetDate) by now right.
Qed.

(** ** The allocator *)

Lemma filter_split_Permutation {A : Type} (f : A -> bool) (l : list A) :
  Permutation (filter f l ++ filter (fun x => negb (f x)) l) l.
Proof.
  induction l as [|x l IH]; cbn; [constructor|].
  destruct (f x); cbn.
  - now constructor.
  - apply Permutation_sym, Permutation_cons_app, Permutation_sym, IH.
Qed.

Lemma NoDup_map_filter {A B : Type} (f : A -> B) (g : A -> bool)
  (l : list A) :
  NoDup (map f l) -> NoDup (map f (filter g l)).
Proof.
  induction l as [|x l IH]; cbn; [trivial|].
  intros H. inversion H as [|? ? Hnotin Hrest]; subst.
  destruct (g x); cbn; [|now apply IH].
  constructor; [|now apply IH].
  intros Hin. apply Hnotin.
  apply in_map_iff in Hin as (y & Hy & Hin).
  apply in_map_iff. exists y. split; [assumption|].
  now apply filter_In in Hin as [Hin _].
Qed.

Lemma NoDup_map_prefixes {A B : Type} (f : A -> B) (a b : list A)
  (i j : nat) :
  NoDup (map f (a ++ b)) -> NoDup (map f (firstn i a ++ firstn j b)).
Proof.
  intros H.
  apply (NoDup_app_remove_r _ (map f (skipn i a ++ skipn j b))).
  rewrite <- map_app.
  eapply Permutation_NoDup; [|exact H].
  apply Permutation_map.
  rewrite <- (firstn_skipn i a) at 1. rewrite <- (firstn_skipn j b) at 1.
  rewrite <- !app_assoc. apply Permutation_app_head.
  apply Permutation_app_swap_app.
Qed.

Lemma NoDup_map_inj_on {A B : Type} (f : A -> B) (l : list A) (x y : A) :
  NoDup (map f l) -> In x l -> In y l -> f x = f y -> x = y.
Proof.
  induction l as [|z l IH]; cbn; [contradiction|].
  intros H Hx Hy Hf. inversion H as [|? ? Hnotin Hrest]; subst.
  destruct Hx as [->|Hx], Hy as [->|Hy]; try reflexivity.
  - exfalso. apply Hnotin. rewrite Hf. now apply in_map.
  - exfalso. apply Hnotin. rewrite <- Hf. now apply in_map.
  - now apply IH.
Qed.

(** The two ranks split the eligible pool. *)
Lemma ranks_Permutation (available : list Professor) :
  Permutation (professorsList available ++ associateProfessorsList available)
    available.
Proof.
  unfold professorsList, associateProfessorsList.
  rewrite (filter_ext (fun p => ProfessorTitle_eqb (title p) Docent)
             (fun p => negb (ProfessorTitle_eqb (title p) Profesor))).
  - apply filter_split_Permutation.
  - intros p. now destruct (title p).
Qed.

Lemma allMembers_NoDup_ids (profs : list Professor)
  (procedures : list Procedure) (targetDate : string)
  (requirements : JuryRequirements) (homeUniversity : string) :
  NoDup (map id profs) ->
  NoDup (map id (allMembers
                   (createJuryComposition profs procedures targetDate
                      requirements homeUniversity))).
Proof using Array_sort_conforming.
  intros Hids. cbn [createJuryComposition allMembers].
  unfold Array_slice0. apply NoDup_map_prefixes.
  unfold sortProfessors.
  eapply Permutation_NoDup.
  - apply Permutation_map, Permutation_sym.
    eapply perm_trans.
    + apply Permutation_app; apply Array_sort_Permutation.
    + apply ranks_Permutation.
  - rewrite availableProfessors_filter. now apply NoDup_map_filter.
Qed.

(** C1: the member lists of a composition.  [allMembers] is the selected
    professors followed by the selected associate professors; the internal
    and the external members partition it (nobody in both, nobody left
    out, and with unique professor ids no id in both); each rank holds at
    most its quota, the quotas being non-negative as the data model has
    them. *)
Theorem createJuryComposition_invariants (profs : list Professor)
  (procedures : list Procedure) (targetDate : string)
  (requirements : JuryRequirements) (homeUniversity : string) :
  let c := createJuryComposition profs procedures targetDate requirements
             homeUniversity in
  allMembers c = professors c ++ associateProfessors c /\
  Array_length (allMembers c)
  = Array_length (professors c) + Array_length (associateProfessors c) /\
  Permutation (internalMembers c ++ externalMembers c) (allMembers c) /\
  Array_length (internalMembers c) + Array_length (externalMembers c)
  = Array_length (allMembers c) /\
  (forall q, In q (allMembers c) <->
             In q (internalMembers c) \/ In q (externalMembers c)) /\
  (forall q, In q (internalMembers c) -> In q (externalMembers c) -> False) /\
  (NoDup (map id profs) ->
   NoDup (map id (allMembers c)) /\
   forall q q', In q (internalMembers c) -> In q' (externalMembers c) ->
                id q <> id q') /\
  (0 <= requirements.(professorCount) ->
   Array_length (professors c) <= requirements.(professorCount)) /\
  (0 <= requirements.(associateProfessorCount) ->
   Array_length (associateProfessors c)
   <= requirements.(associateProfessorCount)).
Proof using Array_sort_conforming.
  intros c.
  assert (Hall : allMembers c = professors c ++ associateProfessors c)
    by reflexivity.
  assert (Hint : internalMembers c
                 = filter (fun p => (university p =? homeUniversity)%string)
                     (allMembers c)) by reflexivity.
  assert (Hext : externalMembers c
                 = filter
                     (fun p => negb (university p =? homeUniversity)%string)
                     (allMembers c)) by reflexivity.
  assert (Hperm : Permutation (internalMembers c ++ externalMembers c)
                    (allMembers c)).
  { rewrite Hint, Hext. apply filter_split_Permutation. }
  split; [exact Hall|].
  split; [rewrite Hall; unfold Array_length; rewrite length_app; lia|].
  split; [exact Hperm|].
  split.
  { apply Permutation_length in Hperm. rewrite length_app in Hperm.
    unfold Array_length. lia. }
  split.
  { intros q. rewrite <- in_app_iff. split; apply Permutation_in;
      [apply Permutation_sym|]; exact Hperm. }
  split.
  { intros q Hi He. rewrite Hint in Hi. rewrite Hext in He.
    apply filter_In in Hi as [_ Hi]. apply filter_In in He as [_ He].
    rewrite Hi in He. discriminate. }
  split.
  { intros Hids.
    pose proof (allMembers_NoDup_ids profs procedures targetDate
                  requirements homeUniversity Hids) as Hnd.
    fold c in Hnd. split; [exact Hnd|].
    intros q q' Hi He Hid.
    assert (q = q').
    { apply (NoDup_map_inj_on id (allMembers c)); try assumption.
      - rewrite Hint in Hi. now apply filter_In in Hi as [Hi _].
      - rewrite Hext in He. now apply filter_In in He as [He _]. }
    subst q'. rewrite Hint in Hi. rewrite Hext in He.
    apply filter_In in Hi as [_ Hi]. apply filter_In in He as [_ He].
    rewrite Hi in He. discriminate. }
  split.
  - intros Hq. subst c. cbn [createJuryComposition professors].
    rewrite Array_slice0_length by assumption. lia.
  - intros Hq. subst c. cbn [createJuryComposition associateProfessors].
    rewrite Array_slice0_length by assumption. lia.
Qed.

Lemma insufficient_professors_cites (available required : Z) :
  Contains (insufficient_professors available required)
    (Number.string_of_Z available) /\
  Contains (insufficient_professors available required)
    (Number.string_of_Z required).
Proof.
  unfold insufficient_professors. split.
  - apply Contains_intro.
  - exists ("Insufficient professors available: "
            ++ Number.string_of_Z available ++ "/")%string, "".
    now rewrite string_app_nil_r, !string_app_assoc.
Qed.

Lemma insufficient_associates_cites (available required : Z) :
  Contains (insufficient_associates available required)
    (Number.string_of_Z available) /\
  Contains (insufficient_associates available required)
    (Number.string_of_Z required).
Proof.
  unfold insufficient_associates. split.
  - apply Contains_intro.
  - exists ("Insufficient associate professors available: "
            ++ Number.string_of_Z available ++ "/")%string, "".
    now rewrite string_app_nil_r, !string_app_assoc.
Qed.

(** The selection of a rank is short of its quota exactly when the
    eligible pool of the rank is, and then it is the whole pool. *)
Lemma selection_shortfall (pool : list Professor) (quota : Z) :
  let selected := Array_slice0 (sortProfessors pool distance true) quota in
  (Array_length selected < quota <-> Array_length pool < quota) /\
  (Array_length pool < quota -> Array_length selected = Array_length pool).
Proof using Array_sort_conforming.
  intros selected.
  assert (Hsorted : Array_length (sortProfessors pool distance true)
                    = Array_length pool).
  { unfold Array_length, sortProfessors. now rewrite Array_sort_length. }
  pose proof (Array_slice0_length_le
                (sortProfessors pool distance true) quota) as Hle.
  fold selected in Hle. rewrite Hsorted in Hle.
  assert (Hnonneg : 0 <= Array_length selected)
    by (unfold Array_length; lia).
  destruct (Z.lt_ge_cases quota 0) as [Hneg|Hpos].
  - split; [split|]; unfold Array_length in *; lia.
  - pose proof (Array_slice0_length
                  (sortProfessors pool distance true) quota Hpos) as Hlen.
    fold selected in Hlen. rewrite Hsorted in Hlen.
    split; [split|]; lia.
Qed.

(** C4: for each rank the allocator emits an error exactly when the
    selected members of the rank are fewer than the quota, which is
    exactly when the eligible pool of the rank is smaller than the quota;
    the error cites the number available and the quota.  With one eligible
    professor and a quota of 3, one professor is selected and the error
    reads 1/3. *)
Theorem createJuryComposition_errors (profs : list Professor)
  (procedures : list Procedure) (targetDate : string)
  (requirements : JuryRequirements) (homeUniversity : string) :
  let c := createJuryComposition profs procedures targetDate requirements
             homeUniversity in
  let eligible :=
    availableProfessors profs procedures targetDate requirements in
  let selectedP := Array_length (professors c) in
  let selectedA := Array_length (associateProfessors c) in
  let quotaP := requirements.(professorCount) in
  let quotaA := requirements.(associateProfessorCount) in
  errors c
  = (if selectedP <? quotaP
     then [insufficient_professors selectedP quotaP] else [])
    ++ (if selectedA <? quotaA
        then [insufficient_associates selectedA quotaA] else []) /\
  (selectedP < quotaP <-> Array_length (professorsList eligible) < quotaP) /\
  (selectedA < quotaA <->
   Array_length (associateProfessorsList eligible) < quotaA) /\
  (forall available required,
     Contains (insufficient_professors available required)
       (Number.string_of_Z available) /\
     Contains (insufficient_professors available required)
       (Number.string_of_Z required) /\
     Contains (insufficient_associates available required)
       (Number.string_of_Z available) /\
     Contains (insufficient_associates available required)
       (Number.string_of_Z required)) /\
  (Array_length (professorsList eligible) = 1 -> quotaP = 3 ->
   selectedP = 1 /\
   In "Insufficient professors available: 1/3" (errors c)).
Proof using Array_sort_conforming.
  intros c eligible selectedP selectedA quotaP quotaA.
  destruct (selection_shortfall (professorsList eligible) quotaP)
    as [HiffP HallP].
  destruct (selection_shortfall (associateProfessorsList eligible) quotaA)
    as [HiffA HallA].
  change (Array_length
            (Array_slice0
               (sortProfessors (professorsList eligible) distance true)
               quotaP)) with selectedP in HiffP, HallP.
  change (Array_length
            (Array_slice0
               (sortProfessors (associateProfessorsList eligible) distance
                  true) quotaA)) with selectedA in HiffA, HallA.
  assert (Herr :
    errors c
    = (if selectedP <? quotaP
       then [insufficient_professors selectedP quotaP] else [])
      ++ (if selectedA <? quotaA
          then [insufficient_associates selectedA quotaA] else [])).
  { subst c. cbn [createJuryComposition errors].
    fold eligible quotaP quotaA.
    destruct (Array_length (professorsList eligible) <? quotaP) eqn:EP;
      destruct (Array_length (associateProfessorsList eligible) <? quotaA)
        eqn:EA;
      destruct (selectedP <? quotaP) eqn:SP;
      destruct (selectedA <? quotaA) eqn:SA;
      try (apply Z.ltb_lt in EP); try (apply Z.ltb_ge in EP);
      try (apply Z.ltb_lt in EA); try (apply Z.ltb_ge in EA);
      try (apply Z.ltb_lt in SP); try (apply Z.ltb_ge in SP);
      try (apply Z.ltb_lt in SA); try (apply Z.ltb_ge in SA);
      try lia;
      try rewrite (HallP EP); try rewrite (HallA EA); reflexivity. }
  split; [exact Herr|].
  split; [exact HiffP|].
  split; [exact HiffA|].
  split.
  { intros available required.
    destruct (insufficient_professors_cites available required).
    destruct (insufficient_associates_cites available required).
    now repeat split. }
  intros Hone Hquota.
  assert (HselP : selectedP = 1) by (rewrite HallP; lia).
  split; [exact HselP|].
  rewrite Herr, HselP, Hquota. cbn. now left.
Qed.

(** ** Sorting *)

(** [s.localeCompare(s)] is zero. *)
Hypothesis localeCompare_refl : forall s, localeCompare s s = 0.

(** The sign of [a.localeCompare(b)] is the opposite of the sign of
    [b.localeCompare(a)]. *)
Hypothesis localeCompare_sgn :
  forall a b, Z.sgn (localeCompare b a) = - Z.sgn (localeCompare a b).

(** [localeCompare] orders the strings: it is transitive. *)
Hypothesis localeCompare_trans :
  forall a b c,
    localeCompare a b <= 0 -> localeCompare b c <= 0 ->
    localeCompare a c <= 0.

Lemma Qcompare_inject_Z (z : Z) : (inject_Z z ?= 0)%Q = (z ?= 0).
Proof. unfold Qcompare. cbn. now rewrite Z.mul_1_r. Qed.


Lemma Qcompare_sub (x y : Q) : (x - y ?= 0)%Q = (x ?= y)%Q.
Proof.
  destruct (x ?= y)%Q eqn:E.
  - apply Qeq_alt in E. apply (proj1 (Qeq_alt _ _)). lra.
  - apply Qlt_alt in E. apply (proj1 (Qlt_alt _ _)). lra.
  - apply Qgt_alt in E. apply (proj1 (Qgt_alt _ _)). lra.
Qed.

(** The comparator by distance is consistent for all professors. *)
Lemma compare_distance_consistent (S : Professor -> Prop) :
  consistent (compareProfessors distance true) S.
Proof.
  apply (consistent_by_key km). intros a b _ _.
  unfold order, SortCompare, compareProfessors. apply Qcompare_sub.
Qed.

Lemma sort_by_distance_stable_sort (l : list Professor) :
  sortProfessors l distance true
  = stable_sort (compareProfessors distance true) l.
Proof using Array_sort_conforming.
  apply Array_sort_stable_sort, compare_distance_consistent.
Qed.













(** ** The lifetime counter is not read *)

Lemma Forall2_filter {A : Type} (R : A -> A -> Prop) (f g : A -> bool)
  (l l' : list A) :
  (forall x y, R x y -> f x = g y) ->
  Forall2 R l l' -> Forall2 R (filter f l) (filter g l').
Proof.
  intros Hfg H. induction H as [|x y l l' Hxy _ IH]; cbn; [constructor|].
  rewrite (Hfg x y Hxy). destruct (g y); [now constructor | exact IH].
Qed.

Lemma Forall2_insert {A : Type} (R : A -> A -> Prop)
  (before before' : A -> A -> bool) (x x' : A) (l l' : list A) :
  (forall a a' b b', R a a' -> R b b' -> before a b = before' a' b') ->
  R x x' -> Forall2 R l l' ->
  Forall2 R (insert before x l) (insert before' x' l').
Proof.
  intros Hb Hx H. induction H as [|y y' l l' Hy Hl IH]; cbn.
  - now repeat constructor.
  - rewrite (Hb y y' x x' Hy Hx).
    destruct (before' y' x'); now repeat constructor.
Qed.

Lemma Forall2_stable_sort {A : Type} (R : A -> A -> Prop)
  (cmp cmp' : A -> A -> number Q) (l l' : list A) :
  (forall a a' b b', R a a' -> R b b' -> cmp a b = cmp' a' b') ->
  Forall2 R l l' -> Forall2 R (stable_sort cmp l) (stable_sort cmp' l').
Proof.
  intros Hc H. unfold stable_sort.
  induction H as [|x x' l l' Hx _ IH]; cbn; [constructor|].
  apply Forall2_insert; try assumption.
  intros a a' b b' Ha Hb'. now rewrite (Hc a a' b b' Ha Hb').
Qed.

Lemma Forall2_firstn {A : Type} (R : A -> A -> Prop) (n : nat)
  (l l' : list A) :
  Forall2 R l l' -> Forall2 R (firstn n l) (firstn n l').
Proof.
  intros H. revert n.
  induction H as [|x y l l' Hxy _ IH]; intros [|n]; cbn;
    now repeat constructor.
Qed.

Lemma Forall2_Array_slice0 {A : Type} (R : A -> A -> Prop) (n : Z)
  (l l' : list A) :
  Forall2 R l l' -> Forall2 R (Array_slice0 l n) (Array_slice0 l' n).
Proof.
  intros H. unfold Array_slice0.
  rewrite (Forall2_length H). now apply Forall2_firstn.
Qed.

Lemma Forall2_same_ids (l l' : list Professor) :
  Forall2 same_except_count l l' -> map id l = map id l'.
Proof.
  intros H. induction H as [|x y l l' Hxy _ IH]; cbn; [reflexivity|].
  destruct Hxy as (-> & _). now rewrite IH.
Qed.

Lemma participates_same (a b : Professor) (proc : Procedure) :
  same_except_count a b -> participates a proc = participates b proc.
Proof. intros (Hid & _). unfold participates. now rewrite Hid. Qed.

Lemma streak_same (a b : Professor) (procedures : list Procedure) :
  same_except_count a b ->
  calculateConsecutiveParticipations a procedures
  = calculateConsecutiveParticipations b procedures.
Proof.
  intros H. unfold calculateConsecutiveParticipations.
  now rewrite (filter_ext _ _ (fun proc => participates_same a b proc H)).
Qed.

Lemma isProfessorAvailable_same (a b : Professor) (targetDate : string)
  (requirements : JuryRequirements) (procedures : list Procedure) :
  same_except_count a b ->
  let ra := isProfessorAvailable a targetDate requirements procedures in
  let rb := isProfessorAvailable b targetDate requirements procedures in
  isAvailable ra = isAvailable rb /\
  reason ra = reason rb /\
  consecutiveCount ra = consecutiveCount rb /\
  lastParticipationDate ra = lastParticipationDate rb.
Proof.
  intros H ra rb. subst ra rb.
  unfold isProfessorAvailable, cooldown_rejection.
  rewrite (streak_same a b procedures H).
  destruct H as (_ & _ & _ & _ & _ & _ & _ & Hlast). rewrite Hlast.
  destruct (lastDate b) as [d|];
    repeat match goal with
           | |- context [if ?c then _ else _] => destruct c
           end; cbn; auto.
Qed.

Lemma compare_distance_same (a a' b b' : Professor) :
  same_except_count a a' -> same_except_count b b' ->
  compareProfessors distance true a b = compareProfessors distance true a' b'.
Proof.
  intros (_ & _ & _ & _ & _ & Ha & _) (_ & _ & _ & _ & _ & Hb & _).
  cbn. now rewrite Ha, Hb.
Qed.

Lemma createJuryComposition_same (ps ps' : list Professor)
  (procedures : list Procedure) (targetDate : string)
  (requirements : JuryRequirements) (homeUniversity : string) :
  Forall2 same_except_count ps ps' ->
  let c := createJuryComposition ps procedures targetDate requirements
             homeUniversity in
  let c' := createJuryComposition ps' procedures targetDate requirements
              homeUniversity in
  Forall2 same_except_count (professors c) (professors c') /\
  Forall2 same_except_count (associateProfessors c)
    (associateProfessors c') /\
  Forall2 same_except_count (allMembers c) (allMembers c') /\
  Forall2 same_except_count (internalMembers c) (internalMembers c') /\
  Forall2 same_except_count (externalMembers c) (externalMembers c') /\
  errors c = errors c' /\
  warnings c = warnings c'.
Proof using Array_sort_conforming.
  intros H c c'.
  assert (Hav : Forall2 same_except_count
                  (availableProfessors ps procedures targetDate requirements)
                  (availableProfessors ps' procedures targetDate
                     requirements)).
  { rewrite !availableProfessors_filter.
    apply Forall2_filter; [|exact H].
    intros x y Hxy.
    apply (isProfessorAvailable_same x y targetDate requirements procedures
             Hxy). }
  assert (Htitle : forall t (x y : Professor), same_except_count x y ->
            ProfessorTitle_eqb (title x) t = ProfessorTitle_eqb (title y) t).
  { intros t x y (_ & Ht & _). now rewrite Ht. }
  assert (HpL : Forall2 same_except_count
                  (professorsList
                     (availableProfessors ps procedures targetDate
                        requirements))
                  (professorsList
                     (availableProfessors ps' procedures targetDate
                        requirements))).
  { apply Forall2_filter; [apply Htitle | exact Hav]. }
  assert (HaL : Forall2 same_except_count
                  (associateProfessorsList
                     (availableProfessors ps procedures targetDate
                        requirements))
                  (associateProfessorsList
                     (availableProfessors ps' procedures targetDate
                        requirements))).
  { apply Forall2_filter; [apply Htitle | exact Hav]. }
  assert (Hp : Forall2 same_except_count (professors c) (professors c')).
  { apply Forall2_Array_slice0.
    rewrite !sort_by_distance_stable_sort.
    apply Forall2_stable_sort; [|exact HpL].
    apply compare_distance_same. }
  assert (Ha : Forall2 same_except_count (associateProfessors c)
                 (associateProfessors c')).
  { apply Forall2_Array_slice0.
    rewrite !sort_by_distance_stable_sort.
    apply Forall2_stable_sort; [|exact HaL].
    apply compare_distance_same. }
  assert (Hall : Forall2 same_except_count (allMembers c) (allMembers c'))
    by now apply Forall2_app.
  assert (Huniv : forall (x y : Professor), same_except_count x y ->
            (university x =? homeUniversity)%string
            = (university y =? homeUniversity)%string).
  { intros x y (_ & _ & _ & _ & Hu & _). now rewrite Hu. }
  assert (Hext : Forall2 same_except_count (externalMembers c)
                   (externalMembers c')).
  { apply Forall2_filter; [|exact Hall].
    intros x y Hxy. now rewrite (Huniv x y Hxy). }
  repeat split; try assumption.
  - apply Forall2_filter; [apply Huniv | exact Hall].
  - subst c c'. cbn [createJuryComposition errors].
    unfold Array_length.
    now rewrite (Forall2_length HpL), (Forall2_length HaL).
  - assert (Hfar : Forall2 same_except_count
              (filter (exceeds_distance
                         (maxDistanceForExternal requirements))
                 (externalMembers c))
              (filter (exceeds_distance
                         (maxDistanceForExternal requirements))
                 (externalMembers c'))).
    { apply Forall2_filter; [|exact Hext].
      intros x y (_ & _ & _ & _ & _ & Hkm & _).
      unfold exceeds_distance. now rewrite Hkm. }
    apply Forall2_length in Hfar.
    subst c c'. cbn [createJuryComposition warnings externalMembers] in *.
    unfold Array_length. now rewrite Hfar.
Qed.

(** C8: the lifetime counter [count] is not read.  Two professors that
    differ at most in [count] get the same verdict, reason and
    [consecutiveCount]; two arrays of professors that differ at most in
    the [count] fields give compositions with the same ids at the same
    positions of every member list, and the same errors and warnings. *)
Theorem count_noninterference (a b : Professor) (ps ps' : list Professor)
  (procedures : list Procedure) (targetDate : string)
  (requirements : JuryRequirements) (homeUniversity : string) :
  same_except_count a b ->
  Forall2 same_except_count ps ps' ->
  let ra := isProfessorAvailable a targetDate requirements procedures in
  let rb := isProfessorAvailable b targetDate requirements procedures in
  let c := createJuryComposition ps procedures targetDate requirements
             homeUniversity in
  let c' := createJuryComposition ps' procedures targetDate requirements
              homeUniversity in
  (isAvailable ra = isAvailable rb /\
   reason ra = reason rb /\
   consecutiveCount ra = consecutiveCount rb) /\
  (map id (professors c) = map id (professors c') /\
   map id (associateProfessors c) = map id (associateProfessors c') /\
   map id (allMembers c) = map id (allMembers c') /\
   map id (internalMembers c) = map id (internalMembers c') /\
   map id (externalMembers c) = map id (externalMembers c') /\
   errors c = errors c' /\
   warnings c = warnings c').
Proof using Array_sort_conforming.
  intros Hab Hps ra rb c c'. split.
  - destruct (isProfessorAvailable_same a b targetDate requirements
                procedures Hab) as (H1 & H2 & H3 & _).
    now repeat split.
  - destruct (createJuryComposition_same ps ps' procedures targetDate
                requirements homeUniversity Hps)
      as (H1 & H2 & H3 & H4 & H5 & H6 & H7).
    repeat split; try assumption; now apply Forall2_same_ids.
Qed.

(** ** Date arithmetic, as a call *)

(** C5 as the code has it: the call of [daysBetween] always returns.  With
    an input that does not parse it returns [NaN]; with two inputs that
    parse it returns the least whole number of days that covers the
    absolute difference of the two time values. *)
Theorem daysBetween_returns (date1 date2 : string) :
  ((getTime date1 = NaN \/ getTime date2 = NaN) ->
   daysBetween_call date1 date2 = Returned NaN) /\
  (forall t1 t2,
     getTime date1 = Num t1 -> getTime date2 = Num t2 ->
     exists days,
       daysBetween_call date1 date2 = Returned (Num days) /\
       0 <= days /\
       (days - 1) * 86400000 < Z.abs (t2 - t1) <= days * 86400000).
Proof.
  unfold daysBetween_call. split.
  - intros H. now rewrite daysBetween_NaN.
  - intros t1 t2 H1 H2.
    rewrite (daysBetween_Num _ _ _ _ H1 H2).
    eexists. split; [reflexivity|].
    pose proof (ceil_div_bounds (Z.abs (t2 - t1)) (1000 * 60 * 60 * 24)
                  ltac:(lia)) as Hb.
    change (1000 * 60 * 60 * 24) with 86400000 in *.
    lia.
Qed.

(** ** Workload statistics *)

Lemma last_of_snoc (pre : list Procedure) (x : Procedure) :
  nth_error (pre ++ [x]) (List.length (pre ++ [x]) - 1) = Some x.
Proof.
  replace (List.length (pre ++ [x]) - 1)%nat with (List.length pre)
    by (rewrite length_app; cbn; lia).
  apply nth_error_snoc.
Qed.

(** The fields of the workload record.  The year filter applies to a year
    other than 0, which is the only year that [if (year)] takes for an
    absent one. *)
Lemma calculateProfessorWorkload_fields (p : Professor)
  (procedures : list Procedure) (year : option Z) :
  let history := getProfessorParticipationHistory p procedures in
  let w := calculateProfessorWorkload p procedures year in
  totalParticipations w = Array_length history /\
  (year = None -> participationsThisYear w = totalParticipations w) /\
  (forall y, year = Some y -> y <> 0 ->
     participationsThisYear w
     = Array_length
         (filter (fun proc => Number.strict_eq (getFullYear proc.(date)) y)
            history)) /\
  (Array_length history < 2 ->
   averageDaysBetweenParticipations w = Num 0%Q) /\
  (history = [] -> workload_lastParticipationDate w = None) /\
  (forall older newest,
     history = older ++ [newest] ->
     workload_lastParticipationDate w = Some newest.(date)).
Proof.
  intros history w. subst w. unfold calculateProfessorWorkload.
  fold history. cbn.
  split; [reflexivity|].
  split; [now intros ->|].
  split.
  { intros y -> Hy. cbn. apply Z.eqb_neq in Hy. now rewrite Hy. }
  split.
  { intros Hlt. destruct (1 <? Array_length history) eqn:E;
      [apply Z.ltb_lt in E; lia | reflexivity]. }
  split; [now intros ->|].
  intros older newest ->.
  rewrite last_of_snoc. now destruct older.
Qed.

(** ** The history is in date order *)

Lemma compareByDate_negative (a b : Procedure) (ta tb : Z) :
  has_time a ta -> has_time b tb ->
  Number.negative (compareByDate a b) = (ta <? tb).
Proof.
  unfold has_time, compareByDate. intros -> ->. cbn.
  unfold Qcompare. cbn. rewrite Z.mul_1_r.
  destruct (Z.compare_spec (ta - tb) 0), (Z.ltb_spec ta tb);
    try reflexivity; lia.
Qed.

Lemma insert_by_date_Sorted (x : Procedure) (l : list Procedure) :
  parses x -> Forall parses l -> Sorted not_later l ->
  Sorted not_later
    (insert (fun y x => Number.negative (compareByDate y x)) x l).
Proof.
  intros (tx & Hx) Hall Hsorted.
  induction l as [|y l IH]; cbn.
  - now repeat constructor.
  - inversion Hall as [|? ? (ty & Hy) Hall']; subst.
    inversion Hsorted as [|? ? Hsorted' Hhd]; subst.
    rewrite (compareByDate_negative y x ty tx Hy Hx).
    destruct (ty <? tx) eqn:E.
    + apply Z.ltb_lt in E.
      constructor; [now apply IH|].
      destruct l as [|z l]; cbn.
      * constructor. exists ty, tx. repeat split; try assumption. lia.
      * destruct (Number.negative (compareByDate z x)).
        -- constructor. now inversion Hhd.
        -- constructor. exists ty, tx. repeat split; try assumption. lia.
    + apply Z.ltb_ge in E.
      constructor; [now constructor|].
      constructor. exists tx, ty. now repeat split.
Qed.

(** The comparator by date is consistent for procedures whose dates
    parse. *)
Lemma compareByDate_consistent (S : Procedure -> Prop) :
  (forall proc, S proc -> parses proc) -> consistent compareByDate S.
Proof.
  intros Hparses.
  apply (consistent_by_key
           (fun proc => match getTime proc.(date) with
                        | Num t => inject_Z t
                        | NaN => 0%Q
                        end)).
  intros a b Ha Hb.
  destruct (Hparses a Ha) as (ta & Hta).
  destruct (Hparses b Hb) as (tb & Htb).
  unfold has_time in Hta, Htb.
  unfold order, SortCompare, compareByDate. rewrite Hta, Htb.
  cbn [Number.sub Number.of_int].
  rewrite Qcompare_inject_Z, <- Z.compare_sub.
  unfold Qcompare. cbn. now rewrite !Z.mul_1_r.
Qed.

Lemma participations_parse (p : Professor) (procedures : list Procedure) :
  Forall parses procedures ->
  Forall parses (filter (participates p) procedures).
Proof.
  intros Hall. apply Forall_forall. intros proc Hin.
  apply filter_In in Hin as [Hin _].
  now apply (proj1 (Forall_forall _ _) Hall).
Qed.

(** When the dates parse, the history is the stable arrangement by date of
    the procedures in which the professor sits. *)
Lemma history_stable_sort (p : Professor) (procedures : list Procedure) :
  Forall parses (filter (participates p) procedures) ->
  getProfessorParticipationHistory p procedures
  = stable_sort compareByDate (filter (participates p) procedures).
Proof using Array_sort_conforming.
  intros Hall. unfold getProfessorParticipationHistory.
  apply Array_sort_stable_sort, compareByDate_consistent.
  intros proc Hin.
  now apply (proj1 (Forall_forall _ _) Hall).
Qed.

Lemma history_Sorted_own (p : Professor) (procedures : list Procedure) :
  Forall parses (filter (participates p) procedures) ->
  Sorted not_later (getProfessorParticipationHistory p procedures).
Proof using Array_sort_conforming.
  intros Hf. rewrite (history_stable_sort p procedures Hf).
  unfold stable_sort.
  induction (filter (participates p) procedures) as [|x l IH]; cbn.
  - constructor.
  - inversion Hf as [|? ? Hx Hl]; subst.
    apply insert_by_date_Sorted; try assumption.
    + apply Forall_forall. intros proc Hin.
      apply (proj1 (Forall_forall _ _) Hl).
      eapply Permutation_in; [|exact Hin].
      apply (stable_sort_Permutation compareByDate l).
    + now apply IH.
Qed.

(** When the dates of the procedures parse, the history of a professor is
    in ascending order of date. *)
Lemma history_Sorted (p : Professor) (procedures : list Procedure) :
  Forall parses procedures ->
  Sorted not_later (getProfessorParticipationHistory p procedures).
Proof using Array_sort_conforming.
  intros Hall. now apply history_Sorted_own, participations_parse.
Qed.



(** ** More on date arithmetic *)

(** X1: on three dates that parse, the day gap is symmetric, never
    negative, zero exactly when the two time values are equal, and no
    larger from the first to the third date than through the second. *)
Theorem daysBetween_metric (a b c : string) (ta tb tc : Z) :
  getTime a = Num ta -> getTime b = Num tb -> getTime c = Num tc ->
  exists dab dbc dac : Z,
    daysBetween a b = Num dab /\
    daysBetween b c = Num dbc /\
    daysBetween a c = Num dac /\
    daysBetween b a = Num dab /\
    0 <= dab /\
    (dab = 0 <-> ta = tb) /\
    dac <= dab + dbc.
Proof.
  intros Ha Hb Hc.
  rewrite (daysBetween_sym b a).
  rewrite (daysBetween_Num _ _ _ _ Ha Hb), (daysBetween_Num _ _ _ _ Hb Hc),
    (daysBetween_Num _ _ _ _ Ha Hc).
  pose proof (ceil_div_bounds (Z.abs (tb - ta)) (1000 * 60 * 60 * 24)
                ltac:(lia)) as Hab.
  pose proof (ceil_div_bounds (Z.abs (tc - tb)) (1000 * 60 * 60 * 24)
                ltac:(lia)) as Hbc.
  pose proof (ceil_div_bounds (Z.abs (tc - ta)) (1000 * 60 * 60 * 24)
                ltac:(lia)) as Hac.
  change (1000 * 60 * 60 * 24) with 86400000 in *.
  do 3 eexists. repeat split; try reflexivity; lia.
Qed.

(** ** More on the history and the streak *)

(** X2: the history of a professor holds exactly the procedures that list
    the professor in a member slot, each as often as the input does; it is
    no longer than the input; and when every date parses, procedures of
    the same date string keep their input order and the history is in
    ascending date order. *)
Theorem getProfessorParticipationHistory_contents (p : Professor)
  (procedures : list Procedure) :
  let history := getProfessorParticipationHistory p procedures in
  (forall proc, In proc history <->
                In proc procedures /\ participates p proc = true) /\
  Permutation history (filter (participates p) procedures) /\
  Array_length history <= Array_length procedures /\
  (Forall parses procedures ->
   forall d,
     filter (fun proc => (proc.(date) =? d)%string) history
     = filter (fun proc => (proc.(date) =? d)%string)
         (filter (participates p) procedures)) /\
  (Forall parses procedures -> Sorted not_later history).
Proof using Array_sort_conforming.
  intros history. subst history.
  split; [intros proc; apply history_In|].
  split; [apply Array_sort_Permutation|].
  split.
  { unfold getProfessorParticipationHistory, Array_length.
    rewrite Array_sort_length.
    pose proof (filter_length_le (participates p) procedures). lia. }
  split; [|apply history_Sorted].
  intros Hall d.
  rewrite (history_stable_sort p procedures
             (participations_parse p procedures Hall)).
  apply filter_stable_sort.
  intros x y _ _ Hx Hy.
  apply String.eqb_eq in Hx, Hy. unfold compareByDate. rewrite Hx, Hy.
  destruct (getTime d) as [|t]; cbn; [reflexivity|].
  rewrite Z.sub_diag. reflexivity.
Qed.

Lemma streak_of_history (p : Professor) (procedures : list Procedure)
  (pre : list Procedure) (x : Procedure) :
  getProfessorParticipationHistory p procedures = pre ++ [x] ->
  calculateConsecutiveParticipations p procedures
  = streak_loop (pre ++ [x]) (List.length pre) 1.
Proof.
  intros Hh. unfold calculateConsecutiveParticipations.
  fold (getProfessorParticipationHistory p procedures). rewrite Hh.
  replace (Array_length (pre ++ [x]) =? 0) with false.
  - now replace (List.length (pre ++ [x]) - 1)%nat with (List.length pre)
      by (rewrite length_app; cbn; lia).
  - symmetry. apply Z.eqb_neq. unfold Array_length.
    rewrite length_app. cbn. lia.
Qed.

(** X3: the streak lies between 0 and the length of the history; it is 0
    exactly when the professor sits in no procedure, and it is the whole
    length of the history when no adjacent gap of the history exceeds 30
    days. *)
Theorem calculateConsecutiveParticipations_bounds (p : Professor)
  (procedures : list Procedure) :
  let history := getProfessorParticipationHistory p procedures in
  let streak := calculateConsecutiveParticipations p procedures in
  0 <= streak <= Array_length history /\
  (streak = 0 <->
   forall proc, In proc procedures -> participates p proc = false) /\
  (history <> [] -> 1 <= streak) /\
  (is_chain history = true -> streak = Array_length history).
Proof using Array_sort_conforming.
  intros history streak.
  assert (Hdef : history = getProfessorParticipationHistory p procedures)
    by reflexivity.
  assert (Hsdef : streak = calculateConsecutiveParticipations p procedures)
    by reflexivity.
  clearbody history streak.
  assert (Hempty : history = [] <->
            forall proc, In proc procedures -> participates p proc = false).
  { split.
    - intros Hh proc Hin.
      destruct (participates p proc) eqn:E; [|reflexivity].
      assert (Hin' : In proc history)
        by (rewrite Hdef; apply history_In; now split).
      rewrite Hh in Hin'. contradiction.
    - intros Hno. destruct history as [|x l]; [reflexivity|].
      assert (Hin : In x (getProfessorParticipationHistory p procedures))
        by (rewrite <- Hdef; now left).
      apply history_In in Hin as [Hin Hp].
      rewrite (Hno x Hin) in Hp. discriminate. }
  assert (Hcases : history = [] \/ exists hs h0, history = hs ++ [h0]).
  { destruct history as [|h0 hs _] using rev_ind; [now left | right; eauto]. }
  destruct Hcases as [Hnil | (hs & h0 & Hh)].
  - assert (Hs : streak = 0).
    { rewrite Hsdef. unfold calculateConsecutiveParticipations.
      fold (getProfessorParticipationHistory p procedures).
      now rewrite <- Hdef, Hnil. }
    rewrite Hs, Hnil. unfold Array_length. cbn.
    repeat split; try lia; try reflexivity.
    + intros _. now apply Hempty.
    + intros H. now contradiction H.
  - rewrite Hdef in Hh.
    pose proof (streak_of_history p procedures hs h0 Hh) as Hs.
    rewrite <- Hsdef in Hs. rewrite <- Hdef in Hh.
    destruct (streak_loop_chain hs h0 1) as
      (older & chain & Hsplit & (front & Hfront) & Hloop & Hchain & Hbreak).
    rewrite Hloop in Hs.
    assert (Hlen : Array_length history
                   = Array_length older + Array_length chain).
    { rewrite Hh, Hsplit. unfold Array_length. rewrite length_app. lia. }
    assert (Hpos : 1 <= Array_length chain).
    { subst chain. unfold Array_length. rewrite length_app. cbn. lia. }
    assert (Hold : 0 <= Array_length older) by (unfold Array_length; lia).
    repeat split; try lia.
    + intros Hno. apply Hempty in Hno. rewrite Hno in Hh. now destruct hs.
    + intros Hall.
      destruct older as [|o older _] using rev_ind.
      * rewrite Hs, Hlen. unfold Array_length. cbn [List.length]. lia.
      * exfalso. destruct chain as [|first rest].
        -- now destruct front.
        -- rewrite Hh, Hsplit in Hall. rewrite <- app_assoc in Hall.
           cbn [app] in Hall.
           rewrite is_chain_broken in Hall; [discriminate|].
           now apply (Hbreak older o first rest).
Qed.

(** ** More on the evaluator *)

Lemma cooldown_rejection_unavailable (p : Professor) (targetDate : string)
  (requirements : JuryRequirements) (r : ProfessorAvailability) :
  cooldown_rejection p targetDate requirements = Some r ->
  professor r = p /\ isAvailable r = false /\ reason r <> None /\
  lastParticipationDate r = p.(lastDate) /\ consecutiveCount r = Some 0.
Proof.
  unfold cooldown_rejection.
  destruct (lastDate p) as [d|]; [|discriminate].
  destruct (truthy_string d); [|discriminate].
  destruct (Number.lt _ _); [|discriminate].
  intros [= <-]. cbn. repeat split. discriminate.
Qed.

Lemma streak_loop_ge (l : list Procedure) (i : nat) (c : Z) :
  c <= streak_loop l i c.
Proof.
  revert c. induction i as [|i IH]; intros c; cbn [streak_loop]; [lia|].
  destruct (nth_error l i); [|lia].
  destruct (nth_error l (S i)); [|lia].
  destruct (Number.gt _ 30); [lia|].
  specialize (IH (c + 1)). lia.
Qed.

Lemma streak_nonneg (p : Professor) (procedures : list Procedure) :
  0 <= calculateConsecutiveParticipations p procedures.
Proof.
  unfold calculateConsecutiveParticipations.
  destruct (Array_length _ =? 0); [lia|].
  pose proof (streak_loop_ge
                (Array_sort compareByDate
                   (filter (participates p) procedures))
                (List.length
                   (Array_sort compareByDate
                      (filter (participates p) procedures)) - 1) 1).
  lia.
Qed.

(** X4: a requirement that is relaxed never turns an available professor
    away: with a minimum gap that is no larger and a streak cap that is no
    smaller, a professor who is available stays available. *)
Theorem isProfessorAvailable_relax (p : Professor) (targetDate : string)
  (strict relaxed : JuryRequirements) (procedures : list Procedure) :
  relaxed.(minDaysBetweenParticipations)
  <= strict.(minDaysBetweenParticipations) ->
  strict.(maxConsecutiveParticipations)
  <= relaxed.(maxConsecutiveParticipations) ->
  isAvailable (isProfessorAvailable p targetDate strict procedures) = true ->
  isAvailable (isProfessorAvailable p targetDate relaxed procedures) = true.
Proof.
  intros Hmin Hcap.
  destruct (cooldown_rejection p targetDate strict) as [r|] eqn:Hstrict.
  - unfold isProfessorAvailable. rewrite Hstrict.
    apply cooldown_rejection_unavailable in Hstrict as (_ & Hr & _).
    rewrite Hr. discriminate.
  - assert (Hrelaxed : cooldown_rejection p targetDate relaxed = None).
    { revert Hstrict. unfold cooldown_rejection.
      destruct (lastDate p) as [d|]; [|reflexivity].
      destruct (truthy_string d); [|reflexivity].
      destruct (daysBetween d targetDate) as [|gap]; cbn; [reflexivity|].
      destruct (gap <? minDaysBetweenParticipations strict) eqn:E;
        [discriminate|].
      intros _. apply Z.ltb_ge in E.
      destruct (gap <? minDaysBetweenParticipations relaxed) eqn:E';
        [apply Z.ltb_lt in E'; lia | reflexivity]. }
    rewrite !isProfessorAvailable_after_cooldown by assumption.
    unfold streak_verdict.
    destruct (maxConsecutiveParticipations strict <=? _) eqn:E;
      [discriminate|].
    intros _. apply Z.leb_gt in E.
    destruct (maxConsecutiveParticipations relaxed <=? _) eqn:E';
      [apply Z.leb_le in E'; lia | reflexivity].
Qed.

(** X5: the record that the evaluator returns names the professor it was
    asked about and the professor's own last date, has a reason exactly
    when the verdict is unavailable, and always has a count that is not
    negative. *)
Theorem isProfessorAvailable_record (p : Professor) (targetDate : string)
  (requirements : JuryRequirements) (procedures : list Procedure) :
  let r := isProfessorAvailable p targetDate requirements procedures in
  professor r = p /\
  lastParticipationDate r = p.(lastDate) /\
  (isAvailable r = true <-> reason r = None) /\
  exists n, consecutiveCount r = Some n /\ 0 <= n.
Proof.
  intros r. subst r.
  destruct (cooldown_rejection p targetDate requirements) as [r|] eqn:Hc.
  - unfold isProfessorAvailable. rewrite Hc.
    apply cooldown_rejection_unavailable in Hc as (H1 & H2 & H3 & H4 & H5).
    repeat split; try assumption.
    + rewrite H2. discriminate.
    + intros H. now contradiction H3.
    + exists 0. split; [assumption | lia].
  - rewrite isProfessorAvailable_after_cooldown by assumption.
    unfold streak_verdict.
    pose proof (streak_nonneg p procedures) as Hn.
    destruct (maxConsecutiveParticipations requirements <=? _); cbn;
      repeat split; try discriminate; try reflexivity; eauto.
Qed.

(** X6: a professor with no last date who sits in none of the procedures
    is available on every target date when the streak cap is at least 1,
    and on none when the cap is 0 or less. *)
Theorem isProfessorAvailable_newcomer (p : Professor) (targetDate : string)
  (requirements : JuryRequirements) (procedures : list Procedure) :
  p.(lastDate) = None ->
  (forall proc, In proc procedures -> participates p proc = false) ->
  isAvailable (isProfessorAvailable p targetDate requirements procedures)
  = (1 <=? requirements.(maxConsecutiveParticipations)).
Proof using Array_sort_conforming.
  intros Hlast Hno.
  assert (Hs : calculateConsecutiveParticipations p procedures = 0).
  { unfold calculateConsecutiveParticipations.
    replace (filter (participates p) procedures) with (@nil Procedure);
      [now rewrite Array_sort_nil|].
    symmetry. induction procedures as [|proc l IH]; [reflexivity|].
    cbn. rewrite (Hno proc) by now left.
    apply IH. intros q Hq. apply Hno. now right. }
  rewrite isProfessorAvailable_after_cooldown.
  - unfold streak_verdict. rewrite Hs.
    destruct (maxConsecutiveParticipations requirements <=? 0) eqn:E;
      destruct (1 <=? maxConsecutiveParticipations requirements) eqn:E';
      try reflexivity; lia.
  - unfold cooldown_rejection. now rewrite Hlast.
Qed.

(** ** The candidate filter *)

Lemma filter_filter_andb {A : Type} (f g : A -> bool) (l : list A) :
  filter g (filter f l) = filter (fun x => f x && g x) l.
Proof.
  induction l as [|x l IH]; [reflexivity|].
  cbn. destruct (f x); cbn; [destruct (g x)|]; now rewrite IH.
Qed.

Lemma filter_when_filter {C : Type} (criterion : option C)
  (keep : C -> Professor -> bool) (l : list Professor) :
  filter_when criterion keep l
  = filter (fun p => match criterion with
                     | Some c => keep c p
                     | None => true
                     end) l.
Proof.
  destruct criterion as [c|]; cbn; [reflexivity|].
  induction l as [|x l IH]; cbn; [reflexivity | now rewrite <- IH].
Qed.

Lemma apply_filter_accepts (f : ProfessorFilter) (l : list Professor) :
  apply_filter f l = filter (filter_accepts f) l.
Proof.
  unfold apply_filter. rewrite !filter_when_filter, !filter_filter_andb.
  apply filter_ext. intros p. unfold filter_accepts.
  destruct (filter_university f) as [u|]; [destruct (truthy_string u)|];
    now rewrite ?andb_assoc.
Qed.

(** X7: with a filter, [getAvailableProfessors] evaluates exactly the
    professors that pass every criterion the filter holds, in input order,
    each one as [isProfessorAvailable] does; criteria that are absent, and a
    university criterion that is the empty string, exclude nobody; without a
    filter every professor is evaluated. *)
Theorem getAvailableProfessors_filter (profs : list Professor)
  (targetDate : string) (requirements : JuryRequirements)
  (procedures : list Procedure) (f : ProfessorFilter) :
  let evaluated :=
    getAvailableProfessors profs targetDate requirements procedures (Some f) in
  map professor evaluated = filter (filter_accepts f) profs /\
  evaluated
  = map (fun p => isProfessorAvailable p targetDate requirements procedures)
      (filter (filter_accepts f) profs) /\
  Array_length evaluated <= Array_length profs /\
  (forall p, In p (map professor evaluated) ->
             forall ids, f.(filter_excludeIds) = Some ids -> ~ In p.(id) ids) /\
  map professor
    (getAvailableProfessors profs targetDate requirements procedures None)
  = profs.
Proof.
  intros evaluated. subst evaluated. unfold getAvailableProfessors.
  rewrite apply_filter_accepts.
  assert (Hmap : forall l,
            map professor
              (map (fun p => isProfessorAvailable p targetDate requirements
                               procedures) l) = l).
  { intros l. rewrite map_map. rewrite <- (map_id l) at 2.
    apply map_ext. intros p. apply isProfessorAvailable_professor. }
  split; [apply Hmap|]. split; [reflexivity|].
  split.
  { unfold Array_length. rewrite length_map.
    pose proof (filter_length_le (filter_accepts f) profs). lia. }
  split; [|apply Hmap].
  intros p Hin ids Hids Hex. rewrite Hmap in Hin.
  apply filter_In in Hin as [_ Hacc]. unfold filter_accepts in Hacc.
  rewrite Hids in Hacc.
  repeat (apply andb_true_iff in Hacc as [Hacc ?]).
  assert (Hin : existsb (Z.eqb (id p)) ids = true).
  { apply existsb_exists. exists (id p). split; [assumption|].
    apply Z.eqb_refl. }
  match goal with H : negb _ = true |- _ => rewrite Hin in H; discriminate H
  end.
Qed.

(** ** More on sorting *)






Lemma inject_Z_nonneg (z : Z) : (0 <= inject_Z z)%Q <-> 0 <= z.
Proof. change 0%Q with (inject_Z 0). now rewrite <- Zle_Qle. Qed.


Lemma inject_Z_pos (z : Z) : (0 < inject_Z z)%Q <-> 0 < z.
Proof. change 0%Q with (inject_Z 0). now rewrite <- Zlt_Qlt. Qed.




(** X8: [sortProfessors] returns the professors it was given, each as
    often as in the input: the result is a permutation of the input, of the
    same length, whatever the criterion and the direction. *)
Theorem sortProfessors_Permutation (profs : list Professor)
  (criteria : ProfessorSortCriteria) (ascending : bool) :
  Permutation (sortProfessors profs criteria ascending) profs /\
  Array_length (sortProfessors profs criteria ascending) = Array_length profs /\
  (forall p, In p (sortProfessors profs criteria ascending) <-> In p profs).
Proof using Array_sort_conforming.
  unfold sortProfessors, Array_length.
  split; [apply Array_sort_Permutation|].
  split; [now rewrite Array_sort_length|].
  intros p. apply Array_sort_In.
Qed.



(** ** More on the allocator *)





(** X11: every selected member is one of the professors given, is
    available on the target date, and has the title of the list that holds
    it; every internal member is of the home university and no external
    member is. *)
Theorem createJuryComposition_members (profs : list Professor)
  (procedures : list Procedure) (targetDate : string)
  (requirements : JuryRequirements) (homeUniversity : string) :
  let c := createJuryComposition profs procedures targetDate requirements
             homeUniversity in
  let eligible q :=
    In q profs /\
    isAvailable (isProfessorAvailable q targetDate requirements procedures)
    = true in
  (forall q, In q (professors c) -> eligible q /\ q.(title) = Profesor) /\
  (forall q, In q (associateProfessors c) ->
             eligible q /\ q.(title) = Docent) /\
  (forall q, In q (internalMembers c) -> q.(university) = homeUniversity) /\
  (forall q, In q (externalMembers c) -> q.(university) <> homeUniversity).
Proof using Array_sort_conforming.
  intros c eligible.
  assert (Hpool : forall t q,
    In q (Array_slice0
            (sortProfessors
               (filter (fun p => ProfessorTitle_eqb (title p) t)
                  (availableProfessors profs procedures targetDate
                     requirements)) distance true)
            (match t with
             | Profesor => professorCount requirements
             | Docent => associateProfessorCount requirements
             end)) ->
    eligible q /\ title q = t).
  { intros t q Hin.
    apply Array_slice0_incl in Hin. unfold sortProfessors in Hin.
    apply Array_sort_In in Hin. apply filter_In in Hin as [Hin Ht].
    rewrite availableProfessors_filter in Hin.
    apply filter_In in Hin as [Hin Hav].
    split; [now split|]. now destruct (title q), t. }
  split; [exact (Hpool Profesor)|].
  split; [exact (Hpool Docent)|].
  split.
  - intros q Hin. cbn [c createJuryComposition internalMembers] in Hin.
    apply filter_In in Hin as [_ Hu]. now apply String.eqb_eq.
  - intros q Hin Hu. cbn [c createJuryComposition externalMembers] in Hin.
    apply filter_In in Hin as [_ Hn].
    apply String.eqb_eq in Hu. rewrite Hu in Hn. discriminate.
Qed.


(** X13: the allocator gives at most one warning, and gives it exactly
    when some external member is farther away than the distance cap; the
    distance of an internal member never causes a warning. *)
Theorem createJuryComposition_warnings (profs : list Professor)
  (procedures : list Procedure) (targetDate : string)
  (requirements : JuryRequirements) (homeUniversity : string) :
  let c := createJuryComposition profs procedures targetDate requirements
             homeUniversity in
  let cap := requirements.(maxDistanceForExternal) in
  let far := filter (exceeds_distance cap) (externalMembers c) in
  (warnings c = [] \/
   warnings c
   = [(Number.string_of_Z (Array_length far)
       ++ " external members exceed maximum distance ("
       ++ Number.string_of_Z cap ++ "km)")%string]) /\
  (warnings c = [] <->
   forall q, In q (externalMembers c) -> (q.(km) <= inject_Z cap)%Q) /\
  (warnings c <> [] <->
   exists q, In q (allMembers c) /\ q.(university) <> homeUniversity /\
             (inject_Z cap < q.(km))%Q).
Proof.
  clear getFullYear getTime_empty localeCompare_refl localeCompare_sgn trim
    parseInt parseProfessorsCsv.
  intros c cap far.
  assert (Hw : warnings c
               = if 0 <? Array_length far
                 then [(Number.string_of_Z (Array_length far)
                        ++ " external members exceed maximum distance ("
                        ++ Number.string_of_Z cap ++ "km)")%string]
                 else []) by reflexivity.
  assert (Hfar : forall q, In q far <->
            In q (allMembers c) /\ q.(university) <> homeUniversity /\
            (inject_Z cap < q.(km))%Q).
  { intros q. unfold far. rewrite filter_In.
    cbn [c createJuryComposition externalMembers]. rewrite filter_In.
    fold c. unfold exceeds_distance. rewrite Qgt_alt.
    assert (Hu : negb (university q =? homeUniversity)%string = true <->
                 university q <> homeUniversity).
    { rewrite negb_true_iff. split.
      - intros Hn Hu. apply String.eqb_eq in Hu. congruence.
      - intros Hn. destruct (university q =? homeUniversity)%string eqn:E;
          [apply String.eqb_eq in E; contradiction | reflexivity]. }
    rewrite Hu.
    destruct (km q ?= inject_Z cap)%Q; intuition congruence. }
  assert (Hext : forall q, In q (externalMembers c) <->
            In q (allMembers c) /\ q.(university) <> homeUniversity).
  { intros q. cbn [c createJuryComposition externalMembers].
    rewrite filter_In. fold c. rewrite negb_true_iff. split.
    - intros [Hin Hn]. split; [assumption|]. intros Hu.
      apply String.eqb_eq in Hu. congruence.
    - intros [Hin Hn]. split; [assumption|].
      destruct (university q =? homeUniversity)%string eqn:E;
        [apply String.eqb_eq in E; contradiction | reflexivity]. }
  assert (Hnil : warnings c = [] <-> far = []).
  { rewrite Hw. unfold Array_length.
    destruct far as [|x l]; cbn; split; try reflexivity; discriminate. }
  split; [rewrite Hw; destruct (0 <? Array_length far); auto|].
  clearbody far c.
  split.
  - rewrite Hnil. split.
    + intros Hf q Hq. apply Qnot_lt_le. intros Hlt.
      assert (Hin : In q far) by (apply Hfar; apply Hext in Hq; tauto).
      rewrite Hf in Hin. contradiction.
    + intros Hall. destruct far as [|x l]; [reflexivity|].
      assert (Hin : In x (x :: l)) by now left.
      apply Hfar in Hin as (Hin & Hu & Hlt).
      assert (Hle : (km x <= inject_Z cap)%Q)
        by (apply Hall, Hext; now split).
      exfalso. apply (Qlt_not_le _ _ Hlt Hle).
  - split.
    + intros Hne. destruct far as [|x l].
      * exfalso. apply Hne. now apply Hnil.
      * exists x. apply Hfar. now left.
    + intros (q & Hq) Hw0. apply Hnil in Hw0.
      apply Hfar in Hq. rewrite Hw0 in Hq. contradiction.
Qed.

Lemma errors_by_pool (profs : list Professor) (procedures : list Procedure)
  (targetDate : string) (requirements : JuryRequirements)
  (homeUniversity : string) :
  let eligible :=
    availableProfessors profs procedures targetDate requirements in
  let poolP := Array_length (professorsList eligible) in
  let poolA := Array_length (associateProfessorsList eligible) in
  errors (createJuryComposition profs procedures targetDate requirements
            homeUniversity)
  = (if poolP <? requirements.(professorCount)
     then [insufficient_professors poolP requirements.(professorCount)]
     else [])
    ++ (if poolA <? requirements.(associateProfessorCount)
        then [insufficient_associates poolA
                requirements.(associateProfessorCount)]
        else []).
Proof.
  cbn [createJuryComposition errors].
  destruct (_ <? professorCount requirements),
    (_ <? associateProfessorCount requirements); reflexivity.
Qed.

(** The jury is full exactly when the allocator reports no error. *)
Lemma composition_full_iff (profs : list Professor)
  (procedures : list Procedure) (targetDate : string)
  (requirements : JuryRequirements) (homeUniversity : string) :
  0 <= requirements.(professorCount) ->
  0 <= requirements.(associateProfessorCount) ->
  let c := createJuryComposition profs procedures targetDate requirements
             homeUniversity in
  Array_length (professors c) <= requirements.(professorCount) /\
  Array_length (associateProfessors c)
  <= requirements.(associateProfessorCount) /\
  Array_length (allMembers c)
  = Array_length (professors c) + Array_length (associateProfessors c) /\
  (errors c = [] <->
   Array_length (professors c) = requirements.(professorCount) /\
   Array_length (associateProfessors c)
   = requirements.(associateProfessorCount)).
Proof using Array_sort_conforming.
  intros HP HA c.
  pose proof (errors_by_pool profs procedures targetDate requirements
                homeUniversity) as Herr.
  cbv zeta in Herr. fold c in Herr.
  set (eligible :=
         availableProfessors profs procedures targetDate requirements) in *.
  destruct (selection_shortfall (professorsList eligible)
              (professorCount requirements)) as [HiffP _].
  destruct (selection_shortfall (associateProfessorsList eligible)
              (associateProfessorCount requirements)) as [HiffA _].
  pose proof (Array_slice0_length
                (sortProfessors (professorsList eligible) distance true)
                (professorCount requirements) HP) as HlenP.
  pose proof (Array_slice0_length
                (sortProfessors (associateProfessorsList eligible) distance
                   true)
                (associateProfessorCount requirements) HA) as HlenA.
  change (Array_slice0
            (sortProfessors (professorsList eligible) distance true)
            (professorCount requirements)) with (professors c) in *.
  change (Array_slice0
            (sortProfessors (associateProfessorsList eligible) distance true)
            (associateProfessorCount requirements))
    with (associateProfessors c) in *.
  split; [lia|]. split; [lia|].
  split.
  { change (allMembers c) with (professors c ++ associateProfessors c).
    unfold Array_length. rewrite length_app. lia. }
  rewrite Herr.
  destruct (Array_length (professorsList eligible)
            <? professorCount requirements) eqn:EP;
    destruct (Array_length (associateProfessorsList eligible)
              <? associateProfessorCount requirements) eqn:EA;
    try (apply Z.ltb_lt in EP); try (apply Z.ltb_ge in EP);
    try (apply Z.ltb_lt in EA); try (apply Z.ltb_ge in EA);
    cbn [app];
    (split;
     [ intros Hnil; try discriminate Hnil; lia
     | intros [H1' H2']; try reflexivity; exfalso; lia ]).
Qed.

(** X14: with quotas that are not negative, no rank is over its quota, and
    the allocator reports no error exactly when both ranks are filled to
    their quotas, that is when the jury has as many members as the two
    quotas together; it reports at most two errors. *)
Theorem createJuryComposition_full (profs : list Professor)
  (procedures : list Procedure) (targetDate : string)
  (requirements : JuryRequirements) (homeUniversity : string) :
  0 <= requirements.(professorCount) ->
  0 <= requirements.(associateProfessorCount) ->
  let c := createJuryComposition profs procedures targetDate requirements
             homeUniversity in
  let quota := requirements.(professorCount)
               + requirements.(associateProfessorCount) in
  Array_length (allMembers c) <= quota /\
  (errors c = [] <->
   Array_length (professors c) = requirements.(professorCount) /\
   Array_length (associateProfessors c)
   = requirements.(associateProfessorCount)) /\
  (errors c = [] <-> Array_length (allMembers c) = quota) /\
  Array_length (errors c) <= 2.
Proof using Array_sort_conforming.
  intros HP HA c quota.
  destruct (composition_full_iff profs procedures targetDate requirements
              homeUniversity HP HA) as (H1 & H2 & H3 & H4).
  fold c in H1, H2, H3, H4.
  split; [unfold quota; lia|]. split; [exact H4|].
  split; [rewrite H4; unfold quota; lia|].
  unfold c. rewrite (errors_by_pool profs procedures targetDate requirements
             homeUniversity).
  cbv zeta. unfold Array_length at 1. rewrite length_app.
  destruct (_ <? professorCount requirements),
    (_ <? associateProfessorCount requirements); cbn; lia.
Qed.

(** X15: with no professor to choose from, every member list is empty,
    there is no warning, and each rank with a positive quota is reported as
    short with 0 available. *)
Theorem createJuryComposition_no_candidates (procedures : list Procedure)
  (targetDate : string) (requirements : JuryRequirements)
  (homeUniversity : string) :
  let c := createJuryComposition [] procedures targetDate requirements
             homeUniversity in
  professors c = [] /\ associateProfessors c = [] /\ allMembers c = [] /\
  internalMembers c = [] /\ externalMembers c = [] /\ warnings c = [] /\
  errors c
  = (if 0 <? requirements.(professorCount)
     then [insufficient_professors 0 requirements.(professorCount)] else [])
    ++ (if 0 <? requirements.(associateProfessorCount)
        then [insufficient_associates 0
                requirements.(associateProfessorCount)]
        else []).
Proof using Array_sort_conforming.
  intros c. subst c.
  unfold createJuryComposition, availableProfessors, getAvailableProfessors,
    professorsList, associateProfessorsList, sortProfessors.
  cbv zeta. cbn [map filter]. rewrite Array_sort_nil.
  unfold Array_slice0. rewrite !firstn_nil. cbn.
  repeat split.
  destruct (0 <? professorCount requirements),
    (0 <? associateProfessorCount requirements); reflexivity.
Qed.

(** ** The statistics of the home page and the events of the calendar *)

Lemma jury_size_range (profs : list Professor) (procedures : list Procedure)
  (homeUniversity : string) (p : Procedure) :
  0 <= jury_size profs procedures homeUniversity p <= 5 /\
  ((5 <=? jury_size profs procedures homeUniversity p) = true <->
   errors (createJuryComposition profs procedures p.(date) page_requirements
             homeUniversity) = []).
Proof using Array_sort_conforming.
  unfold jury_size.
  destruct (composition_full_iff profs procedures (date p) page_requirements
              homeUniversity ltac:(cbn; lia) ltac:(cbn; lia))
    as (H1 & H2 & H3 & H4).
  cbn [page_requirements professorCount associateProfessorCount] in *.
  rewrite H4, Z.leb_le. unfold Array_length in *. lia.
Qed.

Lemma three_way_count {A : Type} (size : A -> Z) (l : list A) :
  (forall x, In x l -> 0 <= size x) ->
  Array_length (filter (fun x => 5 <=? size x) l)
  + Array_length (filter (fun x => (0 <? size x) && (size x <? 5)) l)
  + Array_length (filter (fun x => size x =? 0) l)
  = Array_length l.
Proof.
  unfold Array_length. induction l as [|x l IH]; intros Hpos; [reflexivity|].
  assert (H0 : 0 <= size x) by (apply Hpos; now left).
  assert (IH' := IH (fun y Hy => Hpos y (or_intror Hy))).
  cbn [filter].
  destruct (5 <=? size x) eqn:E1, (0 <? size x) eqn:E2,
    (size x <? 5) eqn:E3, (size x =? 0) eqn:E4;
    cbn [andb List.length]; lia.
Qed.

(** X16: the statistics of the home page.  A procedure counts as a
    complete jury exactly when the composition for its date has no error;
    the complete, the partial and the empty juries together are all the
    procedures, so a procedure is never counted twice. *)
Theorem page_stats (profs : list Professor) (procedures : list Procedure)
  (homeUniversity : string) :
  let composition p :=
    createJuryComposition profs procedures p.(date) page_requirements
      homeUniversity in
  completeJuries profs procedures homeUniversity
  = Array_length (filter (fun p => match errors (composition p) with
                                   | [] => true
                                   | _ => false
                                   end) procedures) /\
  completeJuries profs procedures homeUniversity
  + partialJuries profs procedures homeUniversity
  + Array_length (filter (fun p => match allMembers (composition p) with
                                   | [] => true
                                   | _ => false
                                   end) procedures)
  = Array_length procedures /\
  0 <= completeJuries profs procedures homeUniversity /\
  0 <= partialJuries profs procedures homeUniversity.
Proof using Array_sort_conforming.
  intros composition.
  split; [|split].
  - unfold completeJuries. f_equal. apply filter_ext. intros p.
    pose proof (proj2 (jury_size_range profs procedures homeUniversity p))
      as Hiff.
    fold (composition p) in Hiff.
    destruct (errors (composition p)) eqn:E.
    + now apply Hiff.
    + destruct (5 <=? _) eqn:E5; [|reflexivity].
      discriminate (proj1 Hiff eq_refl).
  - unfold completeJuries, partialJuries.
    rewrite <- (three_way_count (jury_size profs procedures homeUniversity)
                  procedures).
    + f_equal. f_equal. apply filter_ext. intros p. unfold jury_size.
      fold (composition p). unfold Array_length.
      now destruct (allMembers (composition p)).
    + intros p _. apply jury_size_range.
  - unfold completeJuries, partialJuries, Array_length. lia.
Qed.

(** X17: the events of the calendar.  There is one event per procedure, in
    order; the two member counts of an event are always equal; the status
    is the error status when the composition has an error and the complete
    status otherwise, so no event ever has the partial or the incomplete
    status; and the complete status means a jury of five. *)
Theorem calendar_events_status (profs : list Professor)
  (procedures : list Procedure) (homeUniversity : string) :
  let events := calendar_events profs procedures homeUniversity in
  map event_procedure events = procedures /\
  forall e, In e events ->
    assignedMembers e = requiredMembers e /\
    event_status e <> StatusPartial /\
    event_status e <> StatusIncomplete /\
    (event_status e = StatusError <-> errors (event_composition e) <> []) /\
    (event_status e = StatusComplete <-> assignedMembers e = 5) /\
    event_title e
    = (procedureTypeLabel (procedure (event_procedure e)) ++ " ("
       ++ Number.string_of_Z (assignedMembers e) ++ "/"
       ++ Number.string_of_Z (assignedMembers e) ++ ")")%string.
Proof using Array_sort_conforming.
  intros events. subst events. unfold calendar_events. split.
  - rewrite map_map. rewrite <- (map_id procedures) at 2.
    now apply map_ext.
  - intros e Hin. apply in_map_iff in Hin as (p & <- & _).
    destruct (composition_full_iff profs procedures (date p)
                page_requirements homeUniversity ltac:(cbn; lia)
                ltac:(cbn; lia)) as (H1 & H2 & H3 & H4).
    cbn [page_requirements professorCount associateProfessorCount] in *.
    unfold calendar_event.
    set (c := createJuryComposition profs procedures (date p)
                page_requirements homeUniversity) in *.
    cbn [assignedMembers requiredMembers event_status event_composition
         event_title event_procedure].
    rewrite <- H3. rewrite Z.leb_refl.
    assert (He : (0 <? Array_length (errors c)) = true <-> errors c <> []).
    { unfold Array_length. destruct (errors c); cbn; split;
        try discriminate; try reflexivity; intros H; now contradiction H. }
    destruct (0 <? Array_length (errors c)) eqn:E.
    + assert (Hne : errors c <> []) by now apply He.
      split; [reflexivity|]. split; [discriminate|].
      split; [discriminate|]. split; [|split; [|reflexivity]].
      * split; [intros _; exact Hne | reflexivity].
      * split; [discriminate|].
        intros Hfive. exfalso. apply Hne, H4. lia.
    + assert (Hnil : errors c = []).
      { destruct (errors c); [reflexivity|]. discriminate E. }
      split; [reflexivity|]. split; [discriminate|].
      split; [discriminate|]. split; [|split; [|reflexivity]].
      * split; [discriminate|]. intros Hne. now contradiction Hne.
      * split; [|reflexivity]. intros _. apply H4 in Hnil. lia.
Qed.

(** ** More on the workload statistics *)

Lemma reduce_gaps (pre : list Procedure) (y : Procedure)
  (l : list Procedure) (sum : number Z) :
  reduce_from (add_gap (pre ++ y :: l)) l (S (List.length pre)) sum
  = gaps_sum y l sum.
Proof.
  revert pre y sum. induction l as [|x l IH]; intros pre y sum;
    [reflexivity|].
  cbn [reduce_from gaps_sum add_gap].
  rewrite nth_error_app2 by lia. rewrite Nat.sub_diag. cbn [nth_error].
  specialize (IH (pre ++ [y]) x).
  rewrite <- app_assoc in IH. cbn [app] in IH.
  rewrite length_app in IH. cbn [List.length] in IH.
  rewrite Nat.add_1_r in IH. apply IH.
Qed.

Lemma Array_reduce_gaps (x : Procedure) (l : list Procedure) :
  Array_reduce (add_gap (x :: l)) (Num 0) (x :: l) = gaps_sum x l (Num 0).
Proof.
  unfold Array_reduce. cbn [reduce_from add_gap].
  apply (reduce_gaps [] x l).
Qed.

Lemma gaps_sum_NaN (y : Procedure) (l : list Procedure) :
  gaps_sum y l NaN = NaN.
Proof. revert y. induction l as [|x l IH]; intros y; cbn; auto. Qed.

Lemma gaps_sum_parses (y : Procedure) (l : list Procedure) (a : Z) :
  Forall parses (y :: l) ->
  exists b, gaps_sum y l (Num a) = Num b /\ a <= b.
Proof.
  revert y a. induction l as [|x l IH]; intros y a Hall; cbn [gaps_sum].
  - exists a. split; [reflexivity | lia].
  - inversion Hall as [|? ? (ty & Hy) Hrest]; subst.
    inversion Hrest as [|? ? (tx & Hx) _]; subst.
    unfold has_time in Hy, Hx.
    destruct (daysBetween (date y) (date x)) as [|g] eqn:Hg.
    + rewrite (daysBetween_Num _ _ _ _ Hy Hx) in Hg. discriminate.
    + pose proof (daysBetween_nonneg _ _ _ Hg) as Hpos.
      cbn [Number.add].
      destruct (IH x (a + g) Hrest) as (b & Hb & Hle).
      exists b. split; [assumption | lia].
Qed.

Lemma gaps_sum_unparseable (y : Procedure) (l : list Procedure)
  (sum : number Z) :
  l <> [] -> ~ Forall parses (y :: l) -> gaps_sum y l sum = NaN.
Proof.
  revert y sum. induction l as [|x l IH]; intros y sum Hne Hbad;
    [contradiction|].
  cbn [gaps_sum].
  destruct (getTime (date y)) as [|ty] eqn:Hy.
  { rewrite (daysBetween_NaN (date y) (date x)) by now left.
    destruct sum; cbn [Number.add]; apply gaps_sum_NaN. }
  destruct (getTime (date x)) as [|tx] eqn:Hx.
  { rewrite (daysBetween_NaN (date y) (date x)) by now right.
    destruct sum; cbn [Number.add]; apply gaps_sum_NaN. }
  destruct l as [|z l].
  - exfalso. apply Hbad. repeat constructor; eexists; eassumption.
  - apply IH; [discriminate|].
    intros Hall. apply Hbad. constructor; [|exact Hall].
    eexists; eassumption.
Qed.

(** X18: the counts of the workload record.  The participations of the
    year are at most the total, and the total is at most the number of
    procedures; the total is 0 exactly when the professor sits in no
    procedure, and then the year count is 0, the average is 0 and there is
    no last date. *)
Theorem calculateProfessorWorkload_counts (p : Professor)
  (procedures : list Procedure) (year : option Z) :
  let w := calculateProfessorWorkload p procedures year in
  0 <= participationsThisYear w <= totalParticipations w /\
  totalParticipations w <= Array_length procedures /\
  (totalParticipations w = 0 <->
   forall proc, In proc procedures -> participates p proc = false) /\
  (totalParticipations w = 0 ->
   participationsThisYear w = 0 /\
   averageDaysBetweenParticipations w = Num 0%Q /\
   workload_lastParticipationDate w = None).
Proof using Type Array_sort_conforming.
  clear getTime_empty localeCompare_refl localeCompare_sgn.
  intros w. subst w. unfold calculateProfessorWorkload.
  cbn [totalParticipations participationsThisYear
       averageDaysBetweenParticipations workload_lastParticipationDate].
  set (history := getProfessorParticipationHistory p procedures).
  assert (Hlen : Array_length history <= Array_length procedures).
  { unfold history, getProfessorParticipationHistory, Array_length.
    rewrite Array_sort_length.
    pose proof (filter_length_le (participates p) procedures). lia. }
  assert (Hyear : 0 <= match truthy_year year with
                       | Some y =>
                           Array_length
                             (filter
                                (fun proc =>
                                   Number.strict_eq
                                     (getFullYear (date proc)) y) history)
                       | None => Array_length history
                       end <= Array_length history).
  { destruct (truthy_year year) as [y|]; unfold Array_length; [|lia].
    pose proof (filter_length_le
                  (fun proc => Number.strict_eq (getFullYear (date proc)) y)
                  history). lia. }
  assert (Hzero : Array_length history = 0 <-> history = []).
  { unfold Array_length. destruct history; cbn; split;
      try reflexivity; try discriminate; lia. }
  assert (Hnone : history = [] <->
            forall proc, In proc procedures -> participates p proc = false).
  { split.
    - intros Hh proc Hin.
      destruct (participates p proc) eqn:E; [|reflexivity].
      assert (Hin' : In proc history) by (apply history_In; now split).
      rewrite Hh in Hin'. contradiction.
    - intros Hno. destruct history as [|x l] eqn:Hh; [reflexivity|].
      assert (Hin : In x (getProfessorParticipationHistory p procedures))
        by (fold history; rewrite Hh; now left).
      apply history_In in Hin as [Hin Hp].
      rewrite (Hno x Hin) in Hp. discriminate. }
  split; [exact Hyear|]. split; [exact Hlen|].
  split; [now rewrite Hzero|].
  intros H0. apply Hzero in H0. rewrite H0.
  split; [|split; reflexivity].
  destruct (truthy_year year); reflexivity.
Qed.

(** X19: the average gap of a history of two entries or more.  When every
    date of the history parses, the average is a number that is not
    negative; when some date of the history does not parse, the average is
    [NaN]. *)
Theorem calculateProfessorWorkload_average (p : Professor)
  (procedures : list Procedure) (year : option Z) :
  let history := getProfessorParticipationHistory p procedures in
  let w := calculateProfessorWorkload p procedures year in
  2 <= Array_length history ->
  (Forall parses history ->
   exists q, averageDaysBetweenParticipations w = Num q /\ (0 <= q)%Q) /\
  (~ Forall parses history -> averageDaysBetweenParticipations w = NaN).
Proof.
  intros history w Hlen. subst w. unfold calculateProfessorWorkload.
  cbn [averageDaysBetweenParticipations]. fold history.
  assert (Hdef : history = getProfessorParticipationHistory p procedures)
    by reflexivity.
  clearbody history.
  destruct (1 <? Array_length history) eqn:E;
    [|apply Z.ltb_ge in E; lia].
  destruct history as [|x l]; [unfold Array_length in Hlen; cbn in Hlen; lia|].
  rewrite Array_reduce_gaps.
  assert (Hl : l <> []).
  { destruct l; [unfold Array_length in Hlen; cbn in Hlen; lia|discriminate]. }
  split.
  - intros Hall. destruct (gaps_sum_parses x l 0 Hall) as (b & Hb & Hle).
    rewrite Hb. cbn [Number.div]. eexists. split; [reflexivity|].
    apply Qle_shift_div_l.
    + apply inject_Z_pos. lia.
    + rewrite Qmult_0_l. now apply inject_Z_nonneg.
  - intros Hbad. now rewrite (gaps_sum_unparseable x l (Num 0) Hl Hbad).
Qed.

Lemma daysBetween_whole_days (a b : string) (ka kb : Z) :
  getTime a = Num (ka * 86400000) -> getTime b = Num (kb * 86400000) ->
  daysBetween a b = Num (Z.abs (kb - ka)).
Proof.
  intros Ha Hb. rewrite (daysBetween_Num _ _ _ _ Ha Hb).
  change (1000 * 60 * 60 * 24) with 86400000.
  replace (- Z.abs (kb * 86400000 - ka * 86400000))
    with ((- Z.abs (kb - ka)) * 86400000) by lia.
  rewrite Z.div_mul by lia. f_equal. lia.
Qed.

Lemma gaps_sum_whole_days (y : Procedure) (l front : list Procedure)
  (z : Procedure) (a ky kz : Z) :
  l = front ++ [z] ->
  Forall whole_day (y :: l) -> Sorted not_later (y :: l) ->
  getTime y.(date) = Num (ky * 86400000) ->
  getTime z.(date) = Num (kz * 86400000) ->
  gaps_sum y l (Num a) = Num (a + (kz - ky)) /\ ky <= kz.
Proof.
  revert y front a ky. induction l as [|x l IH];
    intros y front a ky Hl Hall Hsorted Hy Hz.
  - now destruct front.
  - inversion Hall as [|? ? _ Hrest]; subst.
    inversion Hrest as [|? ? (kx & Hx) _]; subst.
    inversion Hsorted as [|? ? Hsorted' Hhd]; subst.
    assert (Hle : ky <= kx).
    { inversion Hhd as [|? ? (ty & tx & Hty & Htx & Hle)]; subst.
      unfold has_time in Hty, Htx. rewrite Hy in Hty. rewrite Hx in Htx.
      injection Hty as <-. injection Htx as <-. lia. }
    cbn [gaps_sum].
    rewrite (daysBetween_whole_days _ _ _ _ Hy Hx). cbn [Number.add].
    replace (Z.abs (kx - ky)) with (kx - ky) by lia.
    destruct front as [|f front].
    + cbn in Hl. injection Hl as Hxz Hl0. subst l.
      rewrite <- Hxz, Hx in Hz. injection Hz as Hk.
      assert (kz = kx) by lia. subst kz.
      cbn [gaps_sum]. split; [f_equal; lia | lia].
    + cbn in Hl. injection Hl as _ Hl0. subst l.
      destruct (IH x front (a + (kx - ky)) kx eq_refl Hrest Hsorted' Hx Hz)
        as [Hsum Hle'].
      rewrite Hsum. split; [f_equal; lia | lia].
Qed.

(** X20: when the dates of the procedures are whole days, the average gap
    of a history of two entries or more is the number of days from its
    first to its last entry divided by the number of gaps. *)
Theorem calculateProfessorWorkload_average_span (p : Professor)
  (procedures : list Procedure) (year : option Z)
  (first last : Procedure) (middle : list Procedure) :
  Forall whole_day procedures ->
  getProfessorParticipationHistory p procedures
  = first :: middle ++ [last] ->
  averageDaysBetweenParticipations
    (calculateProfessorWorkload p procedures year)
  = Number.div (daysBetween first.(date) last.(date))
      (Array_length (getProfessorParticipationHistory p procedures) - 1).
Proof using Array_sort_conforming.
  intros Hwhole Hh.
  assert (Hparses : Forall parses procedures).
  { apply Forall_forall. intros proc Hin.
    destruct (proj1 (Forall_forall _ _) Hwhole proc Hin) as (k & Hk).
    now exists (k * 86400000). }
  pose proof (history_Sorted p procedures Hparses) as Hsorted.
  assert (Hhist : Forall whole_day
                    (getProfessorParticipationHistory p procedures)).
  { apply Forall_forall. intros proc Hin.
    apply history_In in Hin as [Hin _].
    now apply (proj1 (Forall_forall _ _) Hwhole). }
  unfold calculateProfessorWorkload.
  cbn [averageDaysBetweenParticipations].
  rewrite Hh in *.
  replace (1 <? Array_length (first :: middle ++ [last])) with true.
  2: { symmetry. apply Z.ltb_lt. unfold Array_length. cbn [List.length].
       rewrite length_app. cbn. lia. }
  rewrite Array_reduce_gaps.
  inversion Hhist as [|? ? (kf & Hf) Hrest]; subst.
  assert (Hlast : whole_day last).
  { apply (proj1 (Forall_forall _ _) Hrest). apply in_or_app.
    right. now left. }
  destruct Hlast as (kl & Hl).
  destruct (gaps_sum_whole_days first (middle ++ [last]) middle last 0 kf kl
              eq_refl Hhist Hsorted Hf Hl) as [Hsum Hle].
  rewrite Hsum, (daysBetween_whole_days _ _ _ _ Hf Hl).
  do 2 f_equal. lia.
Qed.

(** ** The procedures parser *)

Lemma split_cons (sep : ascii) (s : string) :
  exists w ws, split sep s = w :: ws.
Proof.
  induction s as [|c s (w & ws & IH)]; cbn; [now eexists _, _|].
  destruct (Ascii.eqb c sep); [now eexists _, _|].
  rewrite IH. now eexists _, _.
Qed.

Lemma split_without_separator (sep : ascii) (s : string) :
  (forall c, In c (list_ascii_of_string s) -> c <> sep) ->
  split sep s = [s].
Proof.
  induction s as [|c s IH]; cbn; intros Hno; [reflexivity|].
  destruct (Ascii.eqb c sep) eqn:E.
  - apply Ascii.eqb_eq in E. exfalso. apply (Hno c); [now left | exact E].
  - rewrite IH; [reflexivity|]. intros c' Hc'. apply Hno. now right.
Qed.

(** What the loop body does with a line: it skips a blank line, and it
    turns any other line into one error or into one row, the row coming
    with a warning exactly when its date does not parse. *)
Lemma parseProcedureLine_cases (i : nat) (raw : string)
  (r : CsvParseResult ProcedureRow) :
  (nonblank raw = false /\ parseProcedureLine i raw r = r) \/
  (nonblank raw = true /\
   exists message, parseProcedureLine i raw r = push_error r message) \/
  (nonblank raw = true /\
   exists row,
     (isValidDate (row_date row) = true /\
      parseProcedureLine i raw r = push_data r row) \/
     (isValidDate (row_date row) = false /\
      exists message,
        parseProcedureLine i raw r
        = push_data (push_warning r message) row)).
Proof.
  unfold parseProcedureLine, nonblank.
  destruct (truthy_string (trim raw)); cbn [negb]; [|now left].
  right.
  destruct (Array_length (columns_of (trim raw)) <? 9);
    [left; split; [reflexivity | now eexists]|].
  destruct (parseInt (nth 0 (columns_of (trim raw)) "")) as [|id_value];
    [left; split; [reflexivity | now eexists]|].
  destruct (ProcedureType_of_string (nth 2 (columns_of (trim raw)) ""))
    as [type|]; [|left; split; [reflexivity | now eexists]].
  right. split; [reflexivity|].
  eexists {| row_id := id_value |}. cbn [row_date].
  destruct (isValidDate (nth 1 (columns_of (trim raw)) "")) eqn:E.
  - left. split; [exact E | reflexivity].
  - right. split; [exact E|]. now eexists.
Qed.

Lemma parse_from_accounting (lines : list string) (i : nat)
  (r : CsvParseResult ProcedureRow) :
  let r' := parse_from lines i r in
  Array_length (data r') + Array_length (csv_errors r')
  = Array_length (data r) + Array_length (csv_errors r)
    + Array_length (filter nonblank lines) /\
  Array_length (csv_warnings r') - invalid_dates (data r')
  = Array_length (csv_warnings r) - invalid_dates (data r) /\
  (exists rows, data r' = data r ++ rows) /\
  (exists messages, csv_errors r' = csv_errors r ++ messages).
Proof.
  revert i r. induction lines as [|raw lines IH]; intros i r.
  - cbn. unfold Array_length. cbn. repeat split; try lia;
      exists []; now rewrite app_nil_r.
  - cbn [parse_from filter].
    destruct (IH (S i) (parseProcedureLine i raw r))
      as (Hcount & Hwarn & (rows & Hrows) & (messages & Hmessages)).
    cbv zeta.
    destruct (parseProcedureLine_cases i raw r)
      as [[Hb He] | [[Hb (m & He)] | [Hb (row & [[Hv He] | [Hv (m & He)]])]]];
      rewrite He in *; rewrite Hb; unfold invalid_dates, Array_length in *;
      cbn [push_error push_warning push_data data csv_errors csv_warnings]
        in *;
      rewrite ?length_app, ?filter_app in *; cbn [filter List.length] in *;
      rewrite ?Hv in *; cbn [negb List.length] in *;
      rewrite ?length_app in *; cbn [List.length] in *.
    + repeat split; try lia; eauto.
    + repeat split; try lia; eauto.
      exists (m :: messages). now rewrite Hmessages, <- app_assoc.
    + repeat split; try lia; eauto.
      exists (row :: rows). now rewrite Hrows, <- app_assoc.
    + repeat split; try lia; eauto.
      exists (row :: rows). now rewrite Hrows, <- app_assoc.
Qed.

(** X21: the accounts of the procedures parser.  Every line after the
    first that is not blank gives exactly one row or exactly one error, so
    the rows and the errors together are as many as these lines; there is
    one warning for each row whose date does not parse, and such rows are
    kept. *)
Theorem parseProceduresCsv_accounting (csvContent : string) :
  let r := parseProceduresCsv csvContent in
  let lines := split newline (trim csvContent) in
  Array_length (data r) + Array_length (csv_errors r)
  = Array_length (filter nonblank (tl lines)) /\
  Array_length (data r) + Array_length (csv_errors r)
  <= Array_length lines - 1 /\
  Array_length (csv_warnings r)
  = Array_length
      (filter (fun row => negb (isValidDate (row_date row))) (data r)) /\
  Array_length (csv_warnings r) <= Array_length (data r).
Proof.
  intros r lines. subst r. unfold parseProceduresCsv. fold lines.
  destruct (parse_from_accounting (tl lines) 1 no_rows)
    as (Hcount & Hwarn & _).
  cbv zeta in Hcount, Hwarn.
  unfold invalid_dates, no_rows, Array_length in *.
  cbn [data csv_errors csv_warnings filter List.length] in *.
  pose proof (filter_length_le nonblank (tl lines)).
  pose proof (filter_length_le
                (fun row => negb (isValidDate (row_date row)))
                (data (parse_from (tl lines) 1
                         {| data := []; csv_errors := [];
                            csv_warnings := [] |}))).
  assert (List.length (tl lines) = (List.length lines - 1)%nat)
    by (destruct lines; cbn; lia).
  assert (1 <= List.length lines)%nat.
  { destruct (split_cons newline (trim csvContent)) as (w & ws & Hs).
    unfold lines. rewrite Hs. cbn. lia. }
  repeat split; lia.
Qed.

(** X22: the parser never reads the first line.  A content that is one
    line once trimmed gives no row, no error and no warning, whatever that
    line holds. *)
Theorem parseProceduresCsv_single_line (csvContent : string) :
  (forall c, In c (list_ascii_of_string (trim csvContent)) -> c <> newline) ->
  parseProceduresCsv csvContent = no_rows.
Proof.
  intros Hno. unfold parseProceduresCsv.
  now rewrite (split_without_separator newline _ Hno).
Qed.

(** X23: a line of exactly nine columns with a numeric identifier and a
    known procedure type is accepted without an error, and its row has no
    seventh member: the parser asks for nine columns, and the seventh
    member is the tenth. *)
Theorem parseProcedureLine_nine_columns (i : nat) (raw : string)
  (r : CsvParseResult ProcedureRow) (id_value : Z) (type : ProcedureType) :
  let columns := columns_of (trim raw) in
  nonblank raw = true ->
  Array_length columns = 9 ->
  parseInt (nth 0 columns "") = Num id_value ->
  ProcedureType_of_string (nth 2 columns "") = Some type ->
  let r' := parseProcedureLine i raw r in
  csv_errors r' = csv_errors r /\
  exists row,
    data r' = data r ++ [row] /\
    row_id row = id_value /\ row_procedure row = type /\
    row_date row = nth 1 columns "" /\
    row_m6 row = member_slot columns 8 /\
    row_m7 row = None.
Proof.
  intros columns Hnb Hlen Hid Htype r'. subst r'.
  unfold parseProcedureLine. unfold nonblank in Hnb. rewrite Hnb.
  cbn [negb]. fold columns. rewrite Hlen, Hid, Htype.
  cbn [Z.ltb Z.compare Pos.compare Pos.compare_cont].
  assert (H7 : member_slot columns 9 = None).
  { unfold member_slot.
    replace (nth_error columns 9) with (@None string); [reflexivity|].
    symmetry. apply nth_error_None. unfold Array_length in Hlen. lia. }
  rewrite H7.
  destruct (isValidDate (nth 1 columns "")); cbn; (split; [reflexivity|]);
    eexists; repeat split.
Qed.

(** ** The data loader *)

Lemma after_calls_snoc (calls : list LoaderCall) (c : LoaderCall) :
  after_calls (calls ++ [c]) = call (after_calls calls) c.
Proof. unfold after_calls. now rewrite fold_left_app. Qed.

Lemma since_clear_snoc (calls : list LoaderCall) (c : LoaderCall) :
  since_clear (calls ++ [c])
  = if is_clear c then [] else since_clear calls ++ [c].
Proof.
  induction calls as [|x calls IH].
  - destruct c; reflexivity.
  - cbn [since_clear].
    change ((x :: calls) ++ [c]) with (x :: (calls ++ [c])).
    cbn [since_clear].
    change (x :: (calls ++ [c])) with ((x :: calls) ++ [c]).
    rewrite existsb_app.
    destruct (existsb _ (x :: calls)); destruct c; cbn in *;
      rewrite ?IH; reflexivity.
Qed.

(** X24: the error log of the loader.  After any sequence of loads and
    clears on a new loader, the log holds the errors of the loads made since
    the last clear, in the order of the loads and with nothing else; a load
    never removes an entry. *)
Theorem JuryDataLoader_error_log (calls : list LoaderCall) :
  loadErrors (after_calls calls)
  = List.concat (map call_errors (since_clear calls)) /\
  forall c, is_clear c = false ->
    exists added,
      loadErrors (after_calls (calls ++ [c]))
      = loadErrors (after_calls calls) ++ added.
Proof.
  split.
  - induction calls as [|c calls IH] using rev_ind; [reflexivity|].
    rewrite after_calls_snoc, since_clear_snoc.
    destruct c; cbn [is_clear call snd loadProfessorsFromCsv
                     loadProceduresFromCsv loadErrors clear
                     new_JuryDataLoader];
      try reflexivity;
      rewrite IH, map_app, concat_app; cbn [map List.concat call_errors];
      now rewrite app_nil_r.
  - intros c Hc. rewrite after_calls_snoc.
    destruct c; [| |discriminate]; cbn; now eexists.
Qed.

(** X25: what the loader holds.  After any sequence of loads and clears
    on a new loader, the procedures it holds are none, or the rows of a load
    made since the last clear whose parse had no error: a load with an error
    never replaces what is held, and a clear empties it. *)
Theorem JuryDataLoader_holds (calls : list LoaderCall) :
  let this := after_calls calls in
  (loader_procedures this = [] \/
   exists csv,
     In (CallLoadProcedures csv) (since_clear calls) /\
     csv_errors (parseProceduresCsv csv) = [] /\
     loader_procedures this = data (parseProceduresCsv csv)) /\
  (loader_professors this = [] \/
   exists csv,
     In (CallLoadProfessors csv) (since_clear calls) /\
     csv_errors (parseProfessorsCsv csv) = [] /\
     loader_professors this = data (parseProfessorsCsv csv)) /\
  (isDataLoaded this = true -> since_clear calls <> []).
Proof.
  cbv zeta.
  assert (Hzero : forall (l : list string),
            (Array_length l =? 0) = true -> l = []).
  { intros l H. apply Z.eqb_eq in H. unfold Array_length in H.
    destruct l; [reflexivity | cbn in H; lia]. }
  induction calls as [|c calls (IHp & IHf & IHl)] using rev_ind.
  - split; [now left|]. split; [now left|]. discriminate.
  - rewrite after_calls_snoc, since_clear_snoc.
    destruct c as [csv|csv|]; cbn [is_clear call snd].
    + cbn [loadProfessorsFromCsv snd loader_procedures loader_professors].
      split; [|split].
      * destruct IHp as [Hp | (csv' & Hin & He & Hp)]; [now left|].
        right. exists csv'. split; [|now split].
        apply in_or_app. now left.
      * destruct (Array_length (csv_errors (parseProfessorsCsv csv)) =? 0)
          eqn:E.
        -- right. exists csv. split; [|split; [now apply Hzero | reflexivity]].
           apply in_or_app. right. now left.
        -- destruct IHf as [Hf | (csv' & Hin & He & Hf)]; [now left|].
           right. exists csv'. split; [|now split].
           apply in_or_app. now left.
      * intros _ H. now destruct (since_clear calls).
    + cbn [loadProceduresFromCsv snd loader_procedures loader_professors].
      split; [|split].
      * destruct (Array_length (csv_errors (parseProceduresCsv csv)) =? 0)
          eqn:E.
        -- right. exists csv. split; [|split; [now apply Hzero | reflexivity]].
           apply in_or_app. right. now left.
        -- destruct IHp as [Hp | (csv' & Hin & He & Hp)]; [now left|].
           right. exists csv'. split; [|now split].
           apply in_or_app. now left.
      * destruct IHf as [Hf | (csv' & Hin & He & Hf)]; [now left|].
        right. exists csv'. split; [|now split].
        apply in_or_app. now left.
      * intros _ H. now destruct (since_clear calls).
    + cbn. split; [now left|]. split; [now left|]. discriminate.
Qed.

End Engine.

(** ** The sort of V8 conforms *)

Lemma StronglySorted_parts {A : Type} (R : A -> A -> Prop) (l1 l2 : list A) :
  StronglySorted R (l1 ++ l2) <->
  StronglySorted R l1 /\ StronglySorted R l2 /\
  (forall x y, In x l1 -> In y l2 -> R x y).
Proof.
  induction l1 as [|a l1 IH]; cbn [app].
  - split.
    + intros H. repeat split; [constructor | exact H | contradiction].
    + now intros (_ & H & _).
  - split.
    + intros H. inversion H as [|? ? Hrest Hall]; subst.
      apply IH in Hrest as (H1 & H2 & Hc).
      apply Forall_app in Hall as [Ha1 Ha2].
      repeat split; [now constructor | exact H2 |].
      intros x y [<-|Hx] Hy.
      * now apply (proj1 (Forall_forall _ _) Ha2).
      * now apply Hc.
    + intros (H1 & H2 & Hc).
      inversion H1 as [|? ? Hrest Hall]; subst.
      constructor.
      * apply IH. repeat split; try assumption.
        intros x y Hx Hy. apply Hc; [now right | exact Hy].
      * apply Forall_app. split; [exact Hall|].
        apply Forall_forall. intros y Hy. apply Hc; [now left | exact Hy].
Qed.

Lemma run_from_app {A : Type} (comparefn : A -> A -> number Q)
  (descending : bool) (previous : A) (l : list A) :
  fst (V8.run_from comparefn descending previous l)
  ++ snd (V8.run_from comparefn descending previous l) = l.
Proof.
  revert previous. induction l as [|current rest IH]; intros previous;
    [reflexivity|].
  cbn [V8.run_from].
  destruct (Bool.eqb _ descending); [|reflexivity].
  specialize (IH current).
  destruct (V8.run_from comparefn descending current rest) as [run others].
  cbn in *. now rewrite IH.
Qed.

Lemma CountAndMakeRun_Permutation {A : Type}
  (comparefn : A -> A -> number Q) (l : list A) :
  Permutation
    (fst (V8.CountAndMakeRun comparefn l)
     ++ snd (V8.CountAndMakeRun comparefn l)) l.
Proof.
  destruct l as [|first [|second rest]]; cbn [V8.CountAndMakeRun];
    try (cbn; rewrite ?app_nil_r; apply Permutation_refl).
  pose proof (run_from_app comparefn
                (V8.before comparefn second first) second rest) as Happ.
  destruct (V8.run_from comparefn _ second rest) as [run others].
  cbn [fst snd] in *.
  apply (perm_trans (l' := (first :: second :: run) ++ others)).
  - apply Permutation_app_tail.
    destruct (V8.before comparefn second first);
      [apply Permutation_sym, Permutation_rev | apply Permutation_refl].
  - cbn. now rewrite Happ.
Qed.

Lemma insert_pivot_Permutation {A : Type} (comparefn : A -> A -> number Q)
  (work : list A) (pivot : A) :
  Permutation (V8.insert_pivot comparefn work pivot) (pivot :: work).
Proof.
  unfold V8.insert_pivot.
  set (left := V8.search _ _ _ _ _ _).
  apply Permutation_sym.
  rewrite <- (firstn_skipn left work) at 1.
  apply Permutation_middle.
Qed.

Lemma BinaryInsertionSort_Permutation {A : Type}
  (comparefn : A -> A -> number Q) (run others : list A) :
  Permutation (V8.BinaryInsertionSort comparefn run others) (run ++ others).
Proof.
  unfold V8.BinaryInsertionSort.
  revert run. induction others as [|pivot others IH]; intros run;
    cbn [fold_left].
  - rewrite app_nil_r. apply Permutation_refl.
  - eapply perm_trans; [apply IH|].
    eapply perm_trans;
      [apply Permutation_app_tail, insert_pivot_Permutation|].
    cbn [app]. apply Permutation_middle.
Qed.

Lemma V8_Array_sort_Permutation {A : Type} (comparefn : A -> A -> number Q)
  (l : list A) :
  Permutation (V8.Array_sort A comparefn l) l.
Proof.
  unfold V8.Array_sort.
  pose proof (CountAndMakeRun_Permutation comparefn l) as H.
  destruct (V8.CountAndMakeRun comparefn l) as [run others].
  eapply perm_trans; [apply BinaryInsertionSort_Permutation | exact H].
Qed.

(** The binary search, on a work array along which the test of the pivot
    turns from false to true once: it finds the place of the turn. *)
Lemma search_spec {A : Type} (comparefn : A -> A -> number Q) (pivot : A)
  (work : list A) :
  (forall i j ei ej, (i <= j)%nat ->
     nth_error work i = Some ei -> nth_error work j = Some ej ->
     V8.before comparefn pivot ei = true ->
     V8.before comparefn pivot ej = true) ->
  forall fuel left right,
    (left <= right <= List.length work)%nat -> (right - left <= fuel)%nat ->
    (forall i e, (i < left)%nat -> nth_error work i = Some e ->
                 V8.before comparefn pivot e = false) ->
    (forall i e, (right <= i)%nat -> nth_error work i = Some e ->
                 V8.before comparefn pivot e = true) ->
    (forall i e,
       (i < V8.search comparefn fuel pivot work left right)%nat ->
       nth_error work i = Some e -> V8.before comparefn pivot e = false) /\
    (forall i e,
       (V8.search comparefn fuel pivot work left right <= i)%nat ->
       nth_error work i = Some e -> V8.before comparefn pivot e = true).
Proof.
  intros Hmono.
  induction fuel as [|fuel IH]; intros left right Hlr Hfuel Hlow Hhigh;
    cbn [V8.search].
  - split; [exact Hlow|].
    intros i e Hi. apply Hhigh. lia.
  - destruct (left <? right)%nat eqn:Hlt.
    + apply Nat.ltb_lt in Hlt.
      pose proof (Nat.Div0.mul_div_le (right - left) 2) as Hhalf.
      set (mid := (left + (right - left) / 2)%nat) in *.
      assert (Hmid : (left <= mid < right)%nat) by (unfold mid; lia).
      destruct (nth_error work mid) as [element|] eqn:Hnth.
      * destruct (V8.before comparefn pivot element) eqn:Hbefore.
        -- apply IH; try lia; [exact Hlow|].
           intros i e Hi He.
           now apply (Hmono mid i element e Hi Hnth He).
        -- apply IH; try lia; [|exact Hhigh].
           intros i e Hi He.
           destruct (V8.before comparefn pivot e) eqn:Hbe; [|reflexivity].
           rewrite (Hmono i mid e element ltac:(lia) He Hnth Hbe)
             in Hbefore.
           discriminate.
      * apply nth_error_None in Hnth. lia.
    + apply Nat.ltb_ge in Hlt.
      split; [exact Hlow|].
      intros i e Hi. apply Hhigh. lia.
Qed.

Lemma In_firstn_nth_error {A : Type} (k : nat) (l : list A) (x : A) :
  In x (firstn k l) -> exists i, (i < k)%nat /\ nth_error l i = Some x.
Proof.
  intros Hin. apply In_nth_error in Hin as [i Hi].
  rewrite nth_error_firstn in Hi.
  destruct (i <? k)%nat eqn:E; [|discriminate].
  apply Nat.ltb_lt in E. eauto.
Qed.

Lemma In_skipn_nth_error {A : Type} (k : nat) (l : list A) (x : A) :
  In x (skipn k l) -> exists i, (k <= i)%nat /\ nth_error l i = Some x.
Proof.
  intros Hin. apply In_nth_error in Hin as [i Hi].
  rewrite nth_error_skipn in Hi.
  exists (k + i)%nat. split; [lia | exact Hi].
Qed.

Lemma StronglySorted_nth_error {A : Type} (R : A -> A -> Prop) (l : list A)
  (i j : nat) (x y : A) :
  StronglySorted R l -> (i < j)%nat ->
  nth_error l i = Some x -> nth_error l j = Some y -> R x y.
Proof.
  intros Hs. revert i j.
  induction Hs as [|a l Hs IH Hall]; intros i j Hij Hx Hy.
  - now destruct i.
  - destruct j as [|j]; [lia|]. cbn in Hy.
    destruct i as [|i].
    + cbn in Hx. injection Hx as <-.
      apply (proj1 (Forall_forall _ _) Hall).
      now apply nth_error_In in Hy.
    + cbn in Hx. apply (IH i j); [lia | assumption | assumption].
Qed.

(** One round of the insertion, on a work array in order: the pivot goes
    after the elements that are not after it and before those that are. *)
Lemma insert_pivot_place {A : Type} (comparefn : A -> A -> number Q)
  (work : list A) (pivot : A) :
  consistent comparefn (fun x => In x (pivot :: work)) ->
  in_sort_order comparefn work ->
  exists low high,
    work = low ++ high /\
    V8.insert_pivot comparefn work pivot = low ++ pivot :: high /\
    (forall e, In e low -> order comparefn pivot e <> Lt) /\
    (forall e, In e high -> order comparefn pivot e = Lt).
Proof.
  intros HS Hsorted. unfold V8.insert_pivot.
  set (k := V8.search _ _ _ _ _ _).
  exists (firstn k work), (skipn k work).
  split; [now rewrite firstn_skipn|].
  split; [reflexivity|].
  assert (Hin : forall i e, nth_error work i = Some e ->
                            In e (pivot :: work)).
  { intros i e He. right. now apply nth_error_In in He. }
  destruct (search_spec comparefn pivot work) with
    (fuel := List.length work) (left := 0%nat) (right := List.length work)
    as [Hlow Hhigh].
  - intros i j ei ej Hij Hi Hj Hbefore.
    apply negative_order in Hbefore. apply negative_order.
    destruct (Nat.eq_dec i j) as [->|Hne]; [congruence|].
    pose proof (StronglySorted_nth_error _ work i j ei ej Hsorted
                  ltac:(lia) Hi Hj) as Hle.
    cbn beta in Hle.
    destruct (order comparefn pivot ej) eqn:E; [| reflexivity |];
      exfalso;
      apply (consistent_not_lt_trans comparefn _ pivot ej ei HS);
      try (now left); eauto; congruence.
  - lia.
  - lia.
  - intros i e Hi. lia.
  - intros i e Hi He.
    assert (i < List.length work)%nat by (apply nth_error_Some; congruence).
    lia.
  - fold k in Hlow, Hhigh. split.
    + intros e He. apply In_firstn_nth_error in He as (i & Hi & He).
      apply negative_false_order. now apply (Hlow i).
    + intros e He. apply In_skipn_nth_error in He as (i & Hi & He).
      apply negative_order. now apply (Hhigh i).
Qed.

Lemma filter_none {A : Type} (f : A -> bool) (l : list A) :
  (forall e, In e l -> f e = false) -> filter f l = [].
Proof.
  induction l as [|a l IH]; intros H; [reflexivity|].
  cbn [filter]. rewrite (H a (or_introl eq_refl)).
  apply IH. intros e He. apply H. now right.
Qed.

Lemma insert_pivot_in_sort_order {A : Type}
  (comparefn : A -> A -> number Q) (work : list A) (pivot : A) :
  consistent comparefn (fun x => In x (pivot :: work)) ->
  in_sort_order comparefn work ->
  in_sort_order comparefn (V8.insert_pivot comparefn work pivot).
Proof.
  intros HS Hsorted.
  destruct (insert_pivot_place comparefn work pivot HS Hsorted)
    as (low & high & Hwork & -> & Hlow & Hhigh).
  unfold in_sort_order in *. rewrite Hwork in Hsorted.
  apply StronglySorted_parts in Hsorted as (Hl & Hh & Hcross).
  assert (Hin : forall e, In e low \/ In e high -> In e (pivot :: work)).
  { intros e He. right. rewrite Hwork. now apply in_or_app. }
  apply StronglySorted_parts. split; [exact Hl|]. split.
  - constructor; [exact Hh|].
    apply Forall_forall. intros e He.
    apply (consistent_asym comparefn _ pivot e HS);
      [now left | auto | now apply Hhigh].
  - intros x y Hx [<-|Hy]; [now apply Hlow | now apply Hcross].
Qed.

Lemma insert_pivot_tied {A : Type} (comparefn : A -> A -> number Q)
  (S : A -> Prop) (work : list A) (pivot x : A) :
  consistent comparefn S ->
  (forall e, In e (pivot :: work) -> S e) -> S x ->
  in_sort_order comparefn work ->
  filter (tied comparefn x) (V8.insert_pivot comparefn work pivot)
  = filter (tied comparefn x) (work ++ [pivot]).
Proof.
  intros HS Hin Hx Hsorted.
  destruct (insert_pivot_place comparefn work pivot
              (consistent_incl comparefn S _ Hin HS) Hsorted)
    as (low & high & Hwork & -> & Hlow & Hhigh).
  rewrite Hwork in *.
  rewrite <- app_assoc, !filter_app. f_equal.
  cbn [filter app].
  destruct (tied comparefn x pivot) eqn:Hxp.
  - rewrite (filter_none (tied comparefn x) high); [reflexivity|].
    intros e He.
    destruct (tied comparefn x e) eqn:Hxe; [|reflexivity].
    assert (Se : S e)
      by (apply Hin; right; apply in_or_app; now right).
    pose proof (consistent_tied_tied comparefn _ x pivot e HS Hx
                  (Hin pivot (or_introl eq_refl)) Se Hxp Hxe) as Heq.
    rewrite (Hhigh e He) in Heq. discriminate.
  - now rewrite app_nil_r.
Qed.

Lemma BinaryInsertionSort_conforms {A : Type}
  (comparefn : A -> A -> number Q) (S : A -> Prop) (others run : list A) :
  consistent comparefn S ->
  (forall e, In e (run ++ others) -> S e) ->
  in_sort_order comparefn run ->
  in_sort_order comparefn (V8.BinaryInsertionSort comparefn run others) /\
  forall x, S x ->
    filter (tied comparefn x) (V8.BinaryInsertionSort comparefn run others)
    = filter (tied comparefn x) (run ++ others).
Proof.
  unfold V8.BinaryInsertionSort.
  revert run. induction others as [|pivot others IH];
    intros run HS Hin Hsorted; cbn [fold_left].
  - rewrite app_nil_r. split; [exact Hsorted | reflexivity].
  - assert (Hinp : forall e, In e (pivot :: run) -> S e).
    { intros e [<-|He]; apply Hin, in_or_app;
        [right; now left | now left]. }
    destruct (IH (V8.insert_pivot comparefn run pivot)) as [Hs Ht].
    + exact HS.
    + intros e He. apply in_app_or in He as [He|He].
      * apply Hinp.
        now apply (Permutation_in _
                     (insert_pivot_Permutation comparefn run pivot)).
      * apply Hin, in_or_app. right. now right.
    + apply insert_pivot_in_sort_order; [|exact Hsorted].
      now apply (consistent_incl comparefn S).
    + split; [exact Hs|].
      intros x Hx. rewrite (Ht x Hx).
      rewrite filter_app, (insert_pivot_tied comparefn S); try assumption.
      rewrite <- filter_app, <- app_assoc. reflexivity.
Qed.

(** The run that [CountAndMakeRun] counts: every element compares with
    the one before it as the first pair does. *)
Lemma run_from_Sorted {A : Type} (comparefn : A -> A -> number Q)
  (descending : bool) (previous : A) (l : list A) :
  Sorted (fun a b => V8.before comparefn b a = descending)
    (previous :: fst (V8.run_from comparefn descending previous l)).
Proof.
  revert previous. induction l as [|current rest IH]; intros previous;
    cbn [V8.run_from].
  - repeat constructor.
  - destruct (Bool.eqb _ descending) eqn:E.
    + apply Bool.eqb_prop in E.
      specialize (IH current).
      destruct (V8.run_from comparefn descending current rest)
        as [run others].
      cbn [fst] in *. constructor; [exact IH | now constructor].
    + repeat constructor.
Qed.

Lemma Sorted_StronglySorted_on {A : Type} (R : A -> A -> Prop)
  (l : list A) :
  (forall a b c, In a l -> In b l -> In c l -> R a b -> R b c -> R a c) ->
  Sorted R l -> StronglySorted R l.
Proof.
  intros Htrans Hs.
  induction Hs as [|a l Hs IH Hhd]; [constructor|].
  assert (Hl : StronglySorted R l).
  { apply IH. intros x y z Hx Hy Hz. apply Htrans; now right. }
  constructor; [exact Hl|].
  destruct Hhd as [|b l' Hab]; [constructor|].
  inversion Hl as [|? ? _ Hall]; subst.
  constructor; [exact Hab|].
  apply Forall_forall. intros y Hy.
  apply (Htrans a b y); [now left | right; now left | right; now right
                        | exact Hab |].
  now apply (proj1 (Forall_forall _ _) Hall).
Qed.

Lemma StronglySorted_rev {A : Type} (R : A -> A -> Prop) (l : list A) :
  StronglySorted R l -> StronglySorted (fun a b => R b a) (rev l).
Proof.
  induction 1 as [|a l Hs IH Hall]; cbn [rev]; [constructor|].
  apply StronglySorted_parts. split; [exact IH|].
  split; [repeat constructor|].
  intros x y Hx [<-|[]].
  apply (proj1 (Forall_forall _ _) Hall). now apply in_rev.
Qed.

Lemma StronglySorted_impl_on {A : Type} (R R' : A -> A -> Prop)
  (l : list A) :
  (forall a b, In a l -> In b l -> R a b -> R' a b) ->
  StronglySorted R l -> StronglySorted R' l.
Proof.
  intros Himpl Hs.
  induction Hs as [|a l Hs IH Hall]; [constructor|].
  constructor.
  - apply IH. intros x y Hx Hy. apply Himpl; now right.
  - apply Forall_forall. intros y Hy.
    apply Himpl; [now left | now right |].
    now apply (proj1 (Forall_forall _ _) Hall).
Qed.

(** In a strictly descending run no two elements compare equal. *)
Lemma descending_run_tied {A : Type} (comparefn : A -> A -> number Q)
  (S : A -> Prop) (l : list A) (x : A) :
  consistent comparefn S -> (forall e, In e l -> S e) -> S x ->
  StronglySorted (fun a b => order comparefn b a = Lt) l ->
  filter (tied comparefn x) (rev l) = filter (tied comparefn x) l.
Proof.
  intros HS Hin Hx Hs.
  rewrite filter_rev.
  assert (Hshort : filter (tied comparefn x) l = [] \/
                   exists e, filter (tied comparefn x) l = [e]).
  { induction Hs as [|a l Hs IH Hall]; [now left|].
    cbn [filter].
    assert (Hin' : forall e, In e l -> S e)
      by (intros e He; apply Hin; now right).
    destruct (tied comparefn x a) eqn:Hxa; [|now apply IH].
    right. exists a. f_equal.
    apply filter_none. intros e He.
    destruct (tied comparefn x e) eqn:Hxe; [|reflexivity].
    pose proof (consistent_tied_tied comparefn S x e a HS Hx (Hin' e He)
                  (Hin a (or_introl eq_refl)) Hxe Hxa) as Heq.
    rewrite (proj1 (Forall_forall _ _) Hall e He) in Heq. discriminate. }
  destruct Hshort as [-> | [e ->]]; reflexivity.
Qed.

Lemma Sorted_impl {A : Type} (R R' : A -> A -> Prop) (l : list A) :
  (forall a b, R a b -> R' a b) -> Sorted R l -> Sorted R' l.
Proof.
  intros Himpl Hs.
  induction Hs as [|a l Hs IH Hhd]; constructor; [exact IH|].
  destruct Hhd; constructor. now apply Himpl.
Qed.

Lemma CountAndMakeRun_conforms {A : Type} (comparefn : A -> A -> number Q)
  (l : list A) :
  consistent comparefn (fun x => In x l) ->
  in_sort_order comparefn (fst (V8.CountAndMakeRun comparefn l)) /\
  forall x, In x l ->
    filter (tied comparefn x)
      (fst (V8.CountAndMakeRun comparefn l)
       ++ snd (V8.CountAndMakeRun comparefn l))
    = filter (tied comparefn x) l.
Proof.
  intros HS.
  destruct l as [|first [|second rest]]; cbn [V8.CountAndMakeRun fst snd].
  - split; [constructor | reflexivity].
  - split; [repeat constructor | reflexivity].
  - pose proof (run_from_app comparefn
                  (V8.before comparefn second first) second rest) as Happ.
    pose proof (run_from_Sorted comparefn
                  (V8.before comparefn second first) second rest) as Hrun.
    destruct (V8.run_from comparefn _ second rest) as [run others].
    cbn [fst snd] in *.
    assert (Hwhole : Sorted
              (fun a b => V8.before comparefn b a
                          = V8.before comparefn second first)
              (first :: second :: run))
      by (constructor; [exact Hrun | now constructor]).
    assert (Hin : forall e, In e (first :: second :: run) ->
                            In e (first :: second :: rest)).
    { intros e [<-|[<-|He]]; [now left | right; now left |].
      right. right. rewrite <- Happ. apply in_or_app. now left. }
    assert (Hl : (first :: second :: run) ++ others
                 = first :: second :: rest)
      by (cbn; now rewrite Happ).
    destruct (V8.before comparefn second first) eqn:Hd.
    + assert (Hdesc : StronglySorted
                (fun a b => order comparefn b a = Lt)
                (first :: second :: run)).
      { apply Sorted_StronglySorted_on.
        - intros a b c Ha Hb Hc Hab Hbc.
          apply (consistent_lt_trans _ _ HS c b a); auto.
        - apply (Sorted_impl (fun a b => V8.before comparefn b a = true));
            [|exact Hwhole].
          intros a b Hab. now apply negative_order. }
      split.
      * unfold in_sort_order.
        apply (StronglySorted_impl_on (fun a b => order comparefn a b = Lt)).
        -- intros a b Ha Hb Hab.
           apply in_rev in Ha, Hb.
           apply (consistent_asym comparefn _ a b HS); auto.
        -- apply (StronglySorted_rev _ _ Hdesc).
      * intros x Hx. rewrite filter_app.
        rewrite (descending_run_tied comparefn _ _ x HS Hin Hx Hdesc).
        now rewrite <- filter_app, Hl.
    + split.
      * unfold in_sort_order. apply Sorted_StronglySorted_on.
        -- intros a b c Ha Hb Hc Hab Hbc.
           apply (consistent_not_lt_trans comparefn _ c b a HS); auto.
        -- apply (Sorted_impl (fun a b => V8.before comparefn b a = false));
             [|exact Hwhole].
           intros a b Hab. now apply negative_false_order.
      * intros x Hx. now rewrite Hl.
Qed.

(** The sort of V8 on short arrays is a sort as the language requires. *)
Lemma V8_Array_sort_conforming : conforming V8.Array_sort.
Proof.
  intros A comparefn l.
  split; [apply V8_Array_sort_Permutation|].
  intros HS. unfold V8.Array_sort.
  destruct (CountAndMakeRun_conforms comparefn l HS) as [Hrun Htied].
  pose proof (CountAndMakeRun_Permutation comparefn l) as Hperm.
  destruct (V8.CountAndMakeRun comparefn l) as [run others].
  cbn [fst snd] in *.
  destruct (BinaryInsertionSort_conforms comparefn (fun x => In x l)
              others run HS) as [Hs Ht].
  - intros e He. now apply (Permutation_in _ Hperm).
  - exact Hrun.
  - split; [exact Hs|].
    intros x Hx. now rewrite (Ht x Hx), Htied.
Qed.

(** ** The scenarios, on date-only ISO strings *)

Lemma IsoDate_getTime_empty : IsoDate.getTime "" = NaN.
Proof. reflexivity. Qed.






Lemma sampleProfessors_ids : NoDup (map id Scenario.sampleProfessors).
Proof.
  cbn. repeat constructor; cbn; intros H;
    repeat (destruct H as [H|H]; [discriminate H|]); exact H.
Qed.

Lemma createJuryComposition_invariants_witness :
  let c := createJuryComposition V8.Array_sort
             IsoDate.getTime IsoDate.localeCompare
             Scenario.sampleProfessors Scenario.sampleProcedures "2023-09-15"
             DEFAULT_JURY_REQUIREMENTS "Sofia University" in
  NoDup (map id (allMembers c)) /\
  Array_length (professors c) <= 3 /\
  Array_length (associateProfessors c) <= 2.
Proof.
  destruct (createJuryComposition_invariants V8.Array_sort
              V8_Array_sort_conforming IsoDate.getTime
              IsoDate.localeCompare Scenario.sampleProfessors
              Scenario.sampleProcedures "2023-09-15"
              DEFAULT_JURY_REQUIREMENTS "Sofia University")
    as (_ & _ & _ & _ & _ & _ & Hids & Hp & Ha).
  split; [apply Hids, sampleProfessors_ids|].
  split; [apply Hp | apply Ha]; cbn; lia.
Defined.

Lemma isProfessorAvailable_decision_order_witness :
  let strict := {| professorCount := 3;
                   associateProfessorCount := 2;
                   maxConsecutiveParticipations := 2;
                   minDaysBetweenParticipations := 30;
                   maxDistanceForExternal := 100 |} in
  let cooling := isProfessorAvailable V8.Array_sort
                   IsoDate.getTime Scenario.ivan
                   "2023-07-10" DEFAULT_JURY_REQUIREMENTS
                   Scenario.sampleProcedures in
  let capped := isProfessorAvailable V8.Array_sort IsoDate.getTime Scenario.ivan
                  "2023-09-15" strict Scenario.sampleProcedures in
  let free := isProfessorAvailable V8.Array_sort IsoDate.getTime Scenario.ivan
                "2023-09-15" DEFAULT_JURY_REQUIREMENTS
                Scenario.sampleProcedures in
  (daysBetween IsoDate.getTime "2023-06-20" "2023-07-10" = Num 20 /\
   isAvailable cooling = false /\
   exists s, reason cooling = Some s /\ Contains s "20" /\ Contains s "30") /\
  (isAvailable capped = false /\
   exists s, reason capped = Some s /\ Contains s "2" /\ Contains s "2") /\
  (isAvailable free = true /\ reason free = None).
Proof.
  intros strict cooling capped free.
  split; [|split].
  - apply (proj2 (proj2 (proj2
             (isProfessorAvailable_decision_order V8.Array_sort
                IsoDate.getTime eq_refl
                Scenario.ivan "2023-07-10" DEFAULT_JURY_REQUIREMENTS
                Scenario.sampleProcedures))));
      reflexivity.
  - apply (proj1 (proj2
             (isProfessorAvailable_decision_order V8.Array_sort
                IsoDate.getTime eq_refl
                Scenario.ivan "2023-09-15" strict
                Scenario.sampleProcedures))).
    + intros d [= <-]. reflexivity.
    + vm_compute. discriminate.
  - apply (proj1 (proj2 (proj2
             (isProfessorAvailable_decision_order V8.Array_sort
                IsoDate.getTime eq_refl
                Scenario.ivan "2023-09-15" DEFAULT_JURY_REQUIREMENTS
                Scenario.sampleProcedures)))).
    + intros d [= <-]. reflexivity.
    + reflexivity.
Defined.



Lemma createJuryComposition_errors_witness :
  let c := createJuryComposition V8.Array_sort
             IsoDate.getTime IsoDate.localeCompare
             [Scenario.ivan; Scenario.maria; Scenario.anna]
             Scenario.sampleProcedures "2023-09-15"
             DEFAULT_JURY_REQUIREMENTS "Sofia University" in
  Array_length (professors c) = 1 /\
  In "Insufficient professors available: 1/3" (errors c).
Proof.
  apply (proj2 (proj2 (proj2 (proj2
           (createJuryComposition_errors V8.Array_sort
              V8_Array_sort_conforming IsoDate.getTime
              IsoDate.localeCompare
              [Scenario.ivan; Scenario.maria; Scenario.anna]
              Scenario.sampleProcedures "2023-09-15"
              DEFAULT_JURY_REQUIREMENTS "Sofia University")))));
    reflexivity.
Defined.

(** C5, refuted as stated: a date that does not parse makes [daysBetween]
    return [NaN]; it does not fail with [InvalidDate]. *)
Lemma daysBetween_invalid_date_not_thrown :
  IsoDate.getTime "not a date" = NaN /\
  daysBetween_call IsoDate.getTime "not a date" "2023-07-10" = Returned NaN /\
  daysBetween_call IsoDate.getTime "not a date" "2023-07-10"
  <> Thrown InvalidDate.
Proof. repeat split. discriminate. Qed.

Lemma daysBetween_returns_witness :
  daysBetween_call IsoDate.getTime "not a date" "2023-07-10" = Returned NaN /\
  exists days,
    daysBetween_call IsoDate.getTime "2023-06-20" "2023-07-10"
    = Returned (Num days) /\
    0 <= days /\
    (days - 1) * 86400000 < Z.abs (1688947200000 - 1687219200000)
    <= days * 86400000.
Proof.
  split.
  - apply (proj1 (daysBetween_returns IsoDate.getTime "not a date"
                    "2023-07-10")).
    left. reflexivity.
  - apply (proj2 (daysBetween_returns IsoDate.getTime "2023-06-20"
                    "2023-07-10")); reflexivity.
Defined.




(** C7, refuted as stated: rejected by the cooldown rule, the sample
    professor has a streak of 2 and a [consecutiveCount] of 0. *)
Lemma cooldown_rejection_reports_zero :
  let r := isProfessorAvailable V8.Array_sort
             IsoDate.getTime Scenario.ivan "2023-07-10"
             DEFAULT_JURY_REQUIREMENTS Scenario.sampleProcedures in
  isAvailable r = false /\
  calculateConsecutiveParticipations V8.Array_sort IsoDate.getTime Scenario.ivan
    Scenario.sampleProcedures = 2 /\
  consecutiveCount r = Some 0 /\
  consecutiveCount r
  <> Some (calculateConsecutiveParticipations V8.Array_sort
             IsoDate.getTime Scenario.ivan
             Scenario.sampleProcedures).
Proof. repeat split. vm_compute. discriminate. Qed.

Lemma isProfessorAvailable_consecutiveCount_witness :
  consecutiveCount
    (isProfessorAvailable V8.Array_sort
       IsoDate.getTime Scenario.ivan "2023-07-10"
       DEFAULT_JURY_REQUIREMENTS Scenario.sampleProcedures) = Some 0 /\
  consecutiveCount
    (isProfessorAvailable V8.Array_sort
       IsoDate.getTime Scenario.ivan "2023-09-15"
       DEFAULT_JURY_REQUIREMENTS Scenario.sampleProcedures)
  = Some (calculateConsecutiveParticipations V8.Array_sort
            IsoDate.getTime Scenario.ivan
            Scenario.sampleProcedures).
Proof.
  split.
  - apply (proj1 (isProfessorAvailable_consecutiveCount V8.Array_sort
                    IsoDate.getTime
                    eq_refl Scenario.ivan "2023-07-10"
                    DEFAULT_JURY_REQUIREMENTS Scenario.sampleProcedures)).
    exists "2023-06-20". split; reflexivity.
  - apply (proj2 (isProfessorAvailable_consecutiveCount V8.Array_sort
                    IsoDate.getTime
                    eq_refl Scenario.ivan "2023-09-15"
                    DEFAULT_JURY_REQUIREMENTS Scenario.sampleProcedures)).
    intros d [= <-]. reflexivity.
Defined.

Lemma count_noninterference_witness :
  let c := createJuryComposition V8.Array_sort
             IsoDate.getTime IsoDate.localeCompare
             [Scenario.ivan; Scenario.maria; Scenario.anna]
             Scenario.sampleProcedures "2023-09-15"
             DEFAULT_JURY_REQUIREMENTS "Sofia University" in
  let c' := createJuryComposition V8.Array_sort
              IsoDate.getTime IsoDate.localeCompare
              [Scenario.ivan_recounted; Scenario.maria; Scenario.anna]
              Scenario.sampleProcedures "2023-09-15"
              DEFAULT_JURY_REQUIREMENTS "Sofia University" in
  map id (allMembers c) = map id (allMembers c') /\ errors c = errors c'.
Proof.
  assert (Hsame : same_except_count Scenario.ivan Scenario.ivan_recounted)
    by (repeat split; reflexivity).
  assert (Hrefl : forall p, same_except_count p p)
    by (intros p; repeat split; reflexivity).
  destruct (count_noninterference V8.Array_sort V8_Array_sort_conforming
              IsoDate.getTime IsoDate.localeCompare
              Scenario.ivan Scenario.ivan_recounted
              [Scenario.ivan; Scenario.maria; Scenario.anna]
              [Scenario.ivan_recounted; Scenario.maria; Scenario.anna]
              Scenario.sampleProcedures "2023-09-15"
              DEFAULT_JURY_REQUIREMENTS "Sofia University" Hsame)
    as (_ & _ & _ & Hall & _ & _ & Herr & _).
  - repeat constructor; (exact Hsame || apply Hrefl).
  - split; assumption.
Defined.

(** C9 at the year 0: [if (year)] takes the year 0 for an absent year, so
    [participationsThisYear] is the length of the history, 2, although no
    entry of the history is in the year 0. *)
Theorem calculateProfessorWorkload_year_zero :
  let history := getProfessorParticipationHistory V8.Array_sort IsoDate.getTime
                   Scenario.ivan Scenario.sampleProcedures in
  let w := calculateProfessorWorkload V8.Array_sort
             IsoDate.getTime IsoDate.getFullYear
             Scenario.ivan Scenario.sampleProcedures (Some 0) in
  map date history = ["2023-12-15"; "2023-12-20"] /\
  Array_length
    (filter (fun proc => Number.strict_eq (IsoDate.getFullYear proc.(date)) 0)
       history) = 0 /\
  participationsThisYear w = 2.
Proof. repeat split. Qed.

Lemma unparseable_date_skips_cooldown_witness :
  isProfessorAvailable_call V8.Array_sort
    IsoDate.getTime Scenario.ivan "soon" DEFAULT_JURY_REQUIREMENTS
    Scenario.sampleProcedures
  = Returned (streak_verdict Scenario.ivan DEFAULT_JURY_REQUIREMENTS
                (calculateConsecutiveParticipations V8.Array_sort
                   IsoDate.getTime
                   Scenario.ivan Scenario.sampleProcedures)).
Proof.
  apply (unparseable_date_skips_cooldown V8.Array_sort IsoDate.getTime
           IsoDate.localeCompare Scenario.ivan "soon"
           DEFAULT_JURY_REQUIREMENTS Scenario.sampleProcedures
           Scenario.sampleProfessors "Sofia University").
  left. reflexivity.
Defined.

(** ** Scenarios for the further properties *)

Lemma sampleProcedures_parse :
  Forall (parses IsoDate.getTime) Scenario.sampleProcedures.
Proof. repeat constructor; eexists; reflexivity. Qed.

Lemma sampleProcedures_whole_days :
  Forall (whole_day IsoDate.getTime) Scenario.sampleProcedures.
Proof.
  repeat constructor.
  - exists (IsoDate.days_from_civil 2023 12 15). reflexivity.
  - exists (IsoDate.days_from_civil 2023 12 20). reflexivity.
Qed.

Lemma ivan_history :
  getProfessorParticipationHistory V8.Array_sort
    IsoDate.getTime Scenario.ivan Scenario.sampleProcedures =
    Scenario.sampleProcedures.
Proof. vm_compute. reflexivity. Qed.


Lemma daysBetween_metric_witness :
  exists dab dbc dac : Z,
    daysBetween IsoDate.getTime "2023-06-20" "2023-07-10" = Num dab /\
    daysBetween IsoDate.getTime "2023-07-10" "2023-09-15" = Num dbc /\
    daysBetween IsoDate.getTime "2023-06-20" "2023-09-15" = Num dac /\
    daysBetween IsoDate.getTime "2023-07-10" "2023-06-20" = Num dab /\
    0 <= dab /\
    (dab = 0 <-> 1687219200000 = 1688947200000) /\
    dac <= dab + dbc.
Proof.
  apply (daysBetween_metric IsoDate.getTime "2023-06-20" "2023-07-10"
           "2023-09-15" 1687219200000 1688947200000 1694736000000);
    reflexivity.
Defined.

Lemma sameDayProcedures_parse :
  Forall (parses IsoDate.getTime) Scenario.sameDayProcedures.
Proof. repeat constructor; eexists; reflexivity. Qed.

Lemma getProfessorParticipationHistory_contents_witness :
  let history :=
    getProfessorParticipationHistory V8.Array_sort
      IsoDate.getTime Scenario.ivan Scenario.sameDayProcedures in
  filter (fun proc => (proc.(date) =? "2023-06-20")%string) history
  = [Scenario.procedure3; Scenario.procedure6] /\
  Sorted (not_later IsoDate.getTime) history.
Proof.
  destruct (getProfessorParticipationHistory_contents V8.Array_sort
              V8_Array_sort_conforming IsoDate.getTime Scenario.ivan
              Scenario.sameDayProcedures)
    as (_ & _ & _ & Hsame & Hsorted).
  split.
  - exact (Hsame sameDayProcedures_parse "2023-06-20").
  - exact (Hsorted sameDayProcedures_parse).
Defined.

Lemma calculateConsecutiveParticipations_bounds_witness :
  calculateConsecutiveParticipations V8.Array_sort IsoDate.getTime Scenario.ivan
    Scenario.sampleProcedures
  = Array_length
      (getProfessorParticipationHistory V8.Array_sort
         IsoDate.getTime Scenario.ivan
         Scenario.sampleProcedures) /\
  (calculateConsecutiveParticipations V8.Array_sort
     IsoDate.getTime Scenario.elena
     Scenario.sampleProcedures = 0).
Proof.
  split.
  - apply (calculateConsecutiveParticipations_bounds V8.Array_sort
             V8_Array_sort_conforming IsoDate.getTime
             Scenario.ivan Scenario.sampleProcedures).
    vm_compute. reflexivity.
  - apply (proj1 (proj2 (calculateConsecutiveParticipations_bounds
                           V8.Array_sort V8_Array_sort_conforming
                           IsoDate.getTime Scenario.elena
                           Scenario.sampleProcedures))).
    intros proc [<-|[<-|[]]]; reflexivity.
Defined.

Lemma isProfessorAvailable_relax_witness :
  isAvailable
    (isProfessorAvailable V8.Array_sort
       IsoDate.getTime Scenario.ivan "2023-09-15"
       Scenario.relaxedRequirements Scenario.sampleProcedures) = true.
Proof.
  apply (isProfessorAvailable_relax V8.Array_sort IsoDate.getTime Scenario.ivan
           "2023-09-15" DEFAULT_JURY_REQUIREMENTS
           Scenario.relaxedRequirements Scenario.sampleProcedures).
  - cbn. lia.
  - cbn. lia.
  - vm_compute. reflexivity.
Defined.

Lemma isProfessorAvailable_record_witness :
  reason
    (isProfessorAvailable V8.Array_sort
       IsoDate.getTime Scenario.ivan "2023-09-15"
       DEFAULT_JURY_REQUIREMENTS Scenario.sampleProcedures) = None.
Proof.
  apply (isProfessorAvailable_record V8.Array_sort IsoDate.getTime Scenario.ivan
           "2023-09-15" DEFAULT_JURY_REQUIREMENTS Scenario.sampleProcedures).
  vm_compute. reflexivity.
Defined.

Lemma isProfessorAvailable_newcomer_witness :
  isAvailable
    (isProfessorAvailable V8.Array_sort
       IsoDate.getTime Scenario.elena "2023-09-15"
       DEFAULT_JURY_REQUIREMENTS Scenario.sampleProcedures)
  = (1 <=? 3).
Proof.
  apply (isProfessorAvailable_newcomer V8.Array_sort V8_Array_sort_conforming
           IsoDate.getTime Scenario.elena
           "2023-09-15" DEFAULT_JURY_REQUIREMENTS Scenario.sampleProcedures).
  - reflexivity.
  - intros proc [<-|[<-|[]]]; reflexivity.
Defined.

Lemma getAvailableProfessors_filter_witness :
  ~ In 2 [1].
Proof.
  apply (proj1 (proj2 (proj2 (proj2
           (getAvailableProfessors_filter V8.Array_sort IsoDate.getTime
              Scenario.sampleProfessors "2023-09-15"
              DEFAULT_JURY_REQUIREMENTS Scenario.sampleProcedures
              Scenario.withoutIvan)))) Scenario.maria).
  - left. reflexivity.
  - reflexivity.
Defined.

Lemma sortProfessors_Permutation_witness :
  In Scenario.ivan
    (sortProfessors V8.Array_sort IsoDate.getTime IsoDate.localeCompare
       Scenario.sampleProfessors name false).
Proof.
  apply (sortProfessors_Permutation V8.Array_sort V8_Array_sort_conforming
           IsoDate.getTime IsoDate.localeCompare
           Scenario.sampleProfessors name false).
  left. reflexivity.
Defined.



Lemma createJuryComposition_members_witness :
  (In Scenario.petar Scenario.sampleProfessors /\
   isAvailable
     (isProfessorAvailable V8.Array_sort
        IsoDate.getTime Scenario.petar "2023-09-15"
        DEFAULT_JURY_REQUIREMENTS Scenario.sampleProcedures) = true) /\
  title Scenario.petar = Profesor.
Proof.
  apply (proj1 (createJuryComposition_members V8.Array_sort
                  V8_Array_sort_conforming IsoDate.getTime
                  IsoDate.localeCompare Scenario.sampleProfessors
                  Scenario.sampleProcedures "2023-09-15"
                  DEFAULT_JURY_REQUIREMENTS "Sofia University")
           Scenario.petar).
  vm_compute. right. right. left. reflexivity.
Defined.


Lemma createJuryComposition_warnings_witness :
  exists q,
    In q (allMembers
            (createJuryComposition V8.Array_sort
               IsoDate.getTime IsoDate.localeCompare
               Scenario.sampleProfessors Scenario.sampleProcedures
               "2023-09-15" DEFAULT_JURY_REQUIREMENTS "Sofia University")) /\
    university q <> "Sofia University" /\
    (inject_Z 100 < km q)%Q.
Proof.
  apply (proj2 (proj2 (createJuryComposition_warnings V8.Array_sort
                         IsoDate.getTime
                         IsoDate.localeCompare Scenario.sampleProfessors
                         Scenario.sampleProcedures "2023-09-15"
                         DEFAULT_JURY_REQUIREMENTS "Sofia University"))).
  vm_compute. discriminate.
Defined.

Lemma createJuryComposition_full_witness :
  Array_length
    (allMembers
       (createJuryComposition V8.Array_sort
          IsoDate.getTime IsoDate.localeCompare
          Scenario.sampleProfessors Scenario.sampleProcedures "2023-09-15"
          DEFAULT_JURY_REQUIREMENTS "Sofia University")) = 3 + 2.
Proof.
  apply (proj1 (proj2 (proj2
           (createJuryComposition_full V8.Array_sort V8_Array_sort_conforming
              IsoDate.getTime IsoDate.localeCompare
              Scenario.sampleProfessors Scenario.sampleProcedures
              "2023-09-15" DEFAULT_JURY_REQUIREMENTS "Sofia University"
              ltac:(cbn; lia) ltac:(cbn; lia))))).
  vm_compute. reflexivity.
Defined.

Lemma createJuryComposition_no_candidates_witness :
  errors
    (createJuryComposition V8.Array_sort IsoDate.getTime
       IsoDate.localeCompare [] Scenario.sampleProcedures "2023-09-15"
       DEFAULT_JURY_REQUIREMENTS "Sofia University")
  = ["Insufficient professors available: 0/3";
     "Insufficient associate professors available: 0/2"].
Proof.
  exact (proj2 (proj2 (proj2 (proj2 (proj2 (proj2
           (createJuryComposition_no_candidates V8.Array_sort
              V8_Array_sort_conforming IsoDate.getTime
              IsoDate.localeCompare Scenario.sampleProcedures "2023-09-15"
              DEFAULT_JURY_REQUIREMENTS "Sofia University"))))))).
Defined.

Lemma page_stats_witness :
  let composition p :=
    createJuryComposition V8.Array_sort IsoDate.getTime
      IsoDate.localeCompare Scenario.sampleProfessors
      Scenario.sampleProcedures p.(date) page_requirements
      "Sofia University" in
  completeJuries V8.Array_sort
    IsoDate.getTime IsoDate.localeCompare Scenario.sampleProfessors
    Scenario.sampleProcedures "Sofia University"
  + partialJuries V8.Array_sort IsoDate.getTime IsoDate.localeCompare
      Scenario.sampleProfessors Scenario.sampleProcedures
      "Sofia University"
  + Array_length (filter (fun p => match allMembers (composition p) with
                                   | [] => true
                                   | _ => false
                                   end) Scenario.sampleProcedures)
  = 2.
Proof.
  exact (proj1 (proj2
           (page_stats V8.Array_sort V8_Array_sort_conforming
              IsoDate.getTime IsoDate.localeCompare
              Scenario.sampleProfessors Scenario.sampleProcedures
              "Sofia University"))).
Defined.

Lemma calendar_events_status_witness :
  event_status
    (calendar_event V8.Array_sort IsoDate.getTime IsoDate.localeCompare
       Scenario.sampleProfessors Scenario.sampleProcedures "Sofia University"
       Scenario.procedure1) <> StatusPartial.
Proof.
  apply (proj2 (calendar_events_status V8.Array_sort V8_Array_sort_conforming
                  IsoDate.getTime IsoDate.localeCompare
                  Scenario.sampleProfessors Scenario.sampleProcedures
                  "Sofia University")).
  apply in_map. left. reflexivity.
Defined.

Lemma calculateProfessorWorkload_counts_witness :
  let w := calculateProfessorWorkload V8.Array_sort
             IsoDate.getTime IsoDate.getFullYear
             Scenario.elena Scenario.sampleProcedures (Some 2023) in
  participationsThisYear w = 0 /\
  averageDaysBetweenParticipations w = Num 0%Q /\
  workload_lastParticipationDate w = None.
Proof.
  apply (proj2 (proj2 (proj2
           (calculateProfessorWorkload_counts V8.Array_sort
              V8_Array_sort_conforming IsoDate.getTime
              IsoDate.getFullYear Scenario.elena Scenario.sampleProcedures
              (Some 2023))))).
  vm_compute. reflexivity.
Defined.

Lemma calculateProfessorWorkload_average_witness :
  exists q,
    averageDaysBetweenParticipations
      (calculateProfessorWorkload V8.Array_sort
         IsoDate.getTime IsoDate.getFullYear
         Scenario.ivan Scenario.sampleProcedures None) = Num q /\
    (0 <= q)%Q.
Proof.
  apply (calculateProfessorWorkload_average V8.Array_sort IsoDate.getTime
           IsoDate.getFullYear Scenario.ivan Scenario.sampleProcedures None).
  - vm_compute. discriminate.
  - rewrite ivan_history. exact sampleProcedures_parse.
Defined.

Lemma calculateProfessorWorkload_average_span_witness :
  averageDaysBetweenParticipations
    (calculateProfessorWorkload V8.Array_sort
       IsoDate.getTime IsoDate.getFullYear
       Scenario.ivan Scenario.sampleProcedures None)
  = Number.div (daysBetween IsoDate.getTime "2023-12-15" "2023-12-20")
      (Array_length
         (getProfessorParticipationHistory V8.Array_sort
            IsoDate.getTime Scenario.ivan
            Scenario.sampleProcedures) - 1).
Proof.
  apply (calculateProfessorWorkload_average_span V8.Array_sort
           V8_Array_sort_conforming IsoDate.getTime
           IsoDate.getFullYear Scenario.ivan Scenario.sampleProcedures None
           Scenario.procedure1 Scenario.procedure2 []).
  - exact sampleProcedures_whole_days.
  - vm_compute. reflexivity.
Defined.

Lemma parseProceduresCsv_single_line_witness :
  parseProceduresCsv IsoDate.getTime AsciiText.trim AsciiText.parseInt
    Scenario.nineColumns = no_rows.
Proof.
  apply parseProceduresCsv_single_line.
  intros c Hc. vm_compute in Hc.
  repeat (destruct Hc as [<-|Hc]; [discriminate|]). contradiction.
Defined.

Lemma parseProcedureLine_nine_columns_witness :
  exists row,
    data (parseProcedureLine IsoDate.getTime AsciiText.trim
            AsciiText.parseInt 1 Scenario.nineColumns no_rows) = [] ++ [row] /\
    row_id row = 1 /\ row_procedure row = ForDoktor /\
    row_date row = "2023-06-20" /\
    row_m6 row = Some (Num 7) /\
    row_m7 row = None.
Proof.
  apply (parseProcedureLine_nine_columns IsoDate.getTime AsciiText.trim
           AsciiText.parseInt 1 Scenario.nineColumns no_rows 1 ForDoktor);
    vm_compute; reflexivity.
Defined.

Lemma JuryDataLoader_error_log_witness :
  exists added,
    loadErrors
      (after_calls IsoDate.getTime AsciiText.trim AsciiText.parseInt
         Scenario.noProfessors
         ([CallLoadProcedures Scenario.faultyProceduresCsv]
          ++ [CallLoadProcedures Scenario.exampleProceduresCsv]))
    = loadErrors
        (after_calls IsoDate.getTime AsciiText.trim AsciiText.parseInt
           Scenario.noProfessors
           [CallLoadProcedures Scenario.faultyProceduresCsv])
      ++ added.
Proof.
  apply (proj2 (JuryDataLoader_error_log IsoDate.getTime AsciiText.trim
                  AsciiText.parseInt Scenario.noProfessors
                  [CallLoadProcedures Scenario.faultyProceduresCsv])).
  reflexivity.
Defined.

Lemma JuryDataLoader_holds_witness :
  since_clear
    [CallClear; CallLoadProcedures Scenario.exampleProceduresCsv] <> [].
Proof.
  apply (proj2 (proj2 (JuryDataLoader_holds IsoDate.getTime AsciiText.trim
                         AsciiText.parseInt Scenario.noProfessors
                         [CallClear;
                          CallLoadProcedures
                            Scenario.exampleProceduresCsv]))).
  vm_compute. reflexivity.
Defined.
